(** * NFL historical scores: scraper, betting reconciler and web-asset generator

    A shallow embedding of [scripts/scrape_nfl_scores.py],
    [scripts/add_spreads.py] and the deduplication step of
    [scripts/generate_data.py], with the properties of the pipeline proved
    over it.

    Conventions of the embedding.
    - A Python [str] is a [string]; the character classes ([isspace],
      [isalpha], [\d], [upper]) are those of the ASCII range, which is the
      alphabet of the scraped pages.
    - A Python [int] is a [Z]; a Python [float] is finite and is the
      rational [Q] it stands for. The sum of a score and a line is a
      float sum, rounded to binary64 as IEEE 754 has it
      ([AddSpreads.round64]); a comparison of a float with an [int] is
      exact, as in Python.
    - [None] is the [None] of an [option]. *)

From Stdlib Require Import ZArith QArith Qpower Qround Qabs Lqa.
From Stdlib Require Import Ascii String List Sorted Permutation SpecFloat.
From stdpp Require Import gmap strings list pretty.

Local Open Scope string_scope.
Local Open Scope Z_scope.

(** ** Python string primitives (ASCII range) *)

Module PyStr.

(** [str.isspace] on one character: TAB..CR, FS..US and the space. *)
Definition isspace (c : ascii) : bool :=
  let n := N_of_ascii c in
  ((9 <=? n) && (n <=? 13) || (28 <=? n) && (n <=? 32))%N.

(** [\d] and [str.isdigit] on one character. *)
Definition isdigit (c : ascii) : bool :=
  let n := N_of_ascii c in ((48 <=? n) && (n <=? 57))%N.

Definition isupper (c : ascii) : bool :=
  let n := N_of_ascii c in ((65 <=? n) && (n <=? 90))%N.

Definition islower (c : ascii) : bool :=
  let n := N_of_ascii c in ((97 <=? n) && (n <=? 122))%N.

(** [c.isalpha()]. *)
Definition isalpha (c : ascii) : bool := isupper c || islower c.

Definition upper_char (c : ascii) : ascii :=
  if islower c then ascii_of_N (N_of_ascii c - 32) else c.

(** [s.upper()]. *)
Fixpoint upper (s : string) : string :=
  match s with
  | EmptyString => EmptyString
  | String c r => String (upper_char c) (upper r)
  end.

(** Truth value of a string: [not s] holds of the empty string only. *)
Definition truthy (s : string) : bool :=
  match s with EmptyString => false | String _ _ => true end.

Fixpoint lstrip (s : string) : string :=
  match s with
  | EmptyString => EmptyString
  | String c r => if isspace c then lstrip r else s
  end.

Fixpoint rstrip (s : string) : string :=
  match s with
  | EmptyString => EmptyString
  | String c r =>
      match rstrip r with
      | EmptyString => if isspace c then EmptyString else String c EmptyString
      | r' => String c r'
      end
  end.

(** [s.strip()]. *)
Definition strip (s : string) : string := rstrip (lstrip s).

(** [s.startswith(p)]. *)
Definition startswith (p s : string) : bool := String.prefix p s.

(** [any(f(c) for c in s)]. *)
Fixpoint any (f : ascii -> bool) (s : string) : bool :=
  match s with
  | EmptyString => false
  | String c r => f c || any f r
  end.

(** [s[:n]]. *)
Definition take (n : nat) (s : string) : string := String.substring 0 n s.

Definition digit_val (c : ascii) : Z := Z.of_N (N_of_ascii c) - 48.

(** Value of a run of decimal digits, most significant first. *)
Fixpoint digits_val (acc : Z) (s : string) : Z :=
  match s with
  | EmptyString => acc
  | String c r => digits_val (10 * acc + digit_val c) r
  end.

(** Body of an integer literal as [int] reads it: digits, where single
    underscores may separate two digits. [prev] tells whether the
    previous character was a digit. *)
Fixpoint int_body (acc : Z) (prev : bool) (s : string) : option Z :=
  match s with
  | EmptyString => if prev then Some acc else None
  | String c r =>
      if isdigit c then int_body (10 * acc + digit_val c) true r
      else if Ascii.eqb c "_" && prev then int_body acc false r
      else None
  end.

(** [int(s)] for a string [s]: surrounding white space is ignored, one
    sign is allowed; [None] stands for [ValueError]. *)
Definition int (s : string) : option Z :=
  match strip s with
  | String "-" r => Z.opp <$> int_body 0 false r
  | String "+" r => int_body 0 false r
  | r => int_body 0 false r
  end.

End PyStr.

(** ** Scraper: kickoff time and primetime slot *)

(** [re.match(r'(\d{1,2}):(\d{2})\s*(AM|PM)', s)]: the three groups of the
    match at the start of [s]. The greedy [\d{1,2}] has nothing to
    backtrack to: the character after the hour must be the colon, which
    is no digit. *)
Definition match_minutes (hour rest : string) : option (string * string * string) :=
  match rest with
  | String m1 (String m2 r) =>
      if PyStr.isdigit m1 && PyStr.isdigit m2 then
        let r := PyStr.lstrip r in
        if String.prefix "AM" r then Some (hour, String m1 (String m2 ""), "AM")
        else if String.prefix "PM" r then Some (hour, String m1 (String m2 ""), "PM")
        else None
      else None
  | _ => None
  end.

Definition match_time (s : string) : option (string * string * string) :=
  match s with
  | String h1 (String h2 r) =>
      if PyStr.isdigit h1 then
        if PyStr.isdigit h2 then
          match r with
          | String ":" r' => match_minutes (String h1 (String h2 "")) r'
          | _ => None
          end
        else if Ascii.eqb h2 ":" then match_minutes (String h1 "") r
        else None
      else None
  | _ => None
  end.

(** [parse_time]: a string such as [8:20PM] to (hour on 24, minute). *)
Definition parse_time (time_str : string) : option Z * option Z :=
  if negb (PyStr.truthy time_str) then (None, None)
  else
    let time_str := PyStr.upper (PyStr.strip time_str) in
    match match_time time_str with
    | None => (None, None)
    | Some (g1, g2, ampm) =>
        let hour := PyStr.digits_val 0 g1 in
        let minute := PyStr.digits_val 0 g2 in
        let hour :=
          if (ampm =? "PM")%string && negb (hour =? 12) then hour + 12
          else if (ampm =? "AM")%string && (hour =? 12) then 0
          else hour in
        (Some hour, Some minute)
    end.

(** [hour is not None and hour >= 19]. *)
Definition late (hour : option Z) : bool :=
  match hour with Some h => 19 <=? h | None => false end.

(** [detect_primetime]. *)
Definition detect_primetime (day time_str : string) (season : Z) : string :=
  if negb (PyStr.truthy day) || negb (PyStr.truthy time_str) then ""
  else
    let day := PyStr.strip day in
    let '(hour, minute) := parse_time time_str in
    if (day =? "Mon")%string && (1970 <=? season) then
      if late hour then "MNF" else "MNF"
    else if (day =? "Thu")%string then
      if (2006 <=? season) && late hour then "TNF"
      else if 2006 <=? season then "TNF"
      else ""
    else if (day =? "Sun")%string then
      if late hour then (if 1987 <=? season then "SNF" else "") else ""
    else if (day =? "Sat")%string then
      if late hour then "Saturday Primetime" else ""
    else "".

(** ** Scraper: table extractor *)

(** The [game_date] cell: its [csk] attribute, when it has one, and its
    stripped text. *)
Record date_cell := DateCell {
  csk_attr : option string;
  date_text : string
}.

(** One [tr] of the games table, as [scrape_season] looks at it: whether
    it holds a [th scope=col], and for each [data-stat] the stripped text
    of the cell found ([None] when [row.find] finds no cell). *)
Record table_row := TableRow {
  has_col_header : bool;
  week_el : option string;
  day_el : option string;
  date_el : option date_cell;
  time_el : option string;
  winner_el : option string;
  location_el : option string;
  loser_el : option string;
  pts_win_el : option string;
  pts_lose_el : option string
}.

(** The dictionary appended to [games], with the keys of [COLUMNS]. *)
Record game := Game {
  Season : Z;
  Week : string;
  Day : string;
  Date : string;
  Time_ET : string;
  Home_Team : string;
  Away_Team : string;
  Home_Score : Z;
  Away_Score : Z;
  Score_Difference : Z;
  Winner : string;
  Primetime_Slot : string
}.

(** [el.get_text(strip=True) if el else ""]. *)
Definition text_or_empty (el : option string) : string := default "" el.

(** [re.match(r'\d{4}-\d{2}-\d{2}', csk)]. *)
Definition match_iso_date (csk : string) : bool :=
  match csk with
  | String y1 (String y2 (String y3 (String y4 (String "-"
      (String m1 (String m2 (String "-" (String d1 (String d2 _))))))))) =>
      forallb PyStr.isdigit [y1; y2; y3; y4; m1; m2; d1; d2]
  | _ => false
  end.

Definition resolve_date (el : option date_cell) : string :=
  match el with
  | Some cell =>
      let csk := default "" (csk_attr cell) in
      let text_date := date_text cell in
      if PyStr.truthy csk && negb (PyStr.startswith "zz" csk) && match_iso_date csk
      then csk else text_date
  | None => ""
  end.

(** [int(el.get_text(strip=True)) if el else 0], with 0 on [ValueError]. *)
Definition parse_points (el : option string) : Z :=
  match el with
  | Some t => default 0 (PyStr.int t)
  | None => 0
  end.

(** The body of the loop of [scrape_season] on one row: [None] when the
    row is skipped by a [continue], the appended record otherwise. *)
Definition scrape_row (year : Z) (row : table_row) : option game :=
  if has_col_header row then None
  else
    match winner_el row, loser_el row with
    | Some winner, Some loser =>
        let week := text_or_empty (week_el row) in
        let day := text_or_empty (day_el row) in
        let game_time := text_or_empty (time_el row) in
        let location := text_or_empty (location_el row) in
        let date := resolve_date (date_el row) in
        let pts_win := parse_points (pts_win_el row) in
        let pts_lose := parse_points (pts_lose_el row) in
        if negb (PyStr.truthy winner) || PyStr.startswith "Week" winner
           || negb (PyStr.any PyStr.isalpha winner)
        then None
        else
          let '(home_team, away_team, home_score, away_score) :=
            if (location =? "@")%string
            then (loser, winner, pts_lose, pts_win)
            else (winner, loser, pts_win, pts_lose) in
          let game_winner := if pts_win =? pts_lose then "Tie" else winner in
          let score_diff := Z.abs (pts_win - pts_lose) in
          let primetime := detect_primetime day game_time year in
          Some {| Season := year; Week := week; Day := day; Date := date;
                  Time_ET := game_time;
                  Home_Team := home_team; Away_Team := away_team;
                  Home_Score := home_score; Away_Score := away_score;
                  Score_Difference := score_diff;
                  Winner := game_winner; Primetime_Slot := primetime |}
    | _, _ => None
    end.

(** The rows of one table, in order. *)
Definition scrape_rows (year : Z) (rows : list table_row) : list game :=
  omap (scrape_row year) rows.

(** ** Scraper: fetch orchestrator *)

Definition REQUEST_DELAY : Q := 7 # 2.
Definition MAX_RETRIES : nat := 3.

(** [BASE_URL.format(year=year)]. *)
Definition BASE_URL (year : Z) : string :=
  "https://www.pro-football-reference.com/years/" +:+ pretty year +:+ "/games.htm".

(** What one [subprocess.run] of curl does: it returns with some standard
    output, or raises ([TimeoutExpired] after 45 s, or another
    [Exception]). *)
Inductive outcome :=
  | Completed (stdout : string)
  | Raised.

(** What the scraper does to the outside: it starts curl on a URL, or
    sleeps for some seconds. *)
Inductive event :=
  | Run (url : string)
  | Sleep (seconds : Q).

(** The outside as the scraper sees it: how many times curl was started,
    and the events so far, oldest first. *)
Record world := World {
  calls : nat;
  trace : list event
}.

(** Computations of the scraper: state passing over the [world]. *)
Definition M (A : Type) : Type := world -> A * world.

#[global] Instance M_ret : MRet M := fun A x w => (x, w).
#[global] Instance M_bind : MBind M :=
  fun A B f m w => let '(x, w') := m w in f x w'.

Definition sleep (seconds : Q) : M unit :=
  fun w => (tt, World (calls w) (trace w ++ [Sleep seconds])%list).

Section Fetch.

(** The network: the outcome of the [n]-th start of curl (from 0), on
    the URL it is given. *)
Variable net : nat -> string -> outcome.

(** The HTML parser: the [tr] rows of the [tbody] of the games table of
    a page, [None] when the page has no table or the table no [tbody]. *)
Variable find_rows : string -> option (list table_row).

Definition run_curl (url : string) : M outcome :=
  fun w => (net (calls w) url, World (S (calls w)) (trace w ++ [Run url])%list).

(** [output.rsplit("\n", 1)] when it has two parts: the text before and
    after the last line feed. *)
Fixpoint rsplit_newline (output : string) : option (string * string) :=
  match output with
  | EmptyString => None
  | String c r =>
      match rsplit_newline r with
      | Some (before, after) => Some (String c before, after)
      | None => if Ascii.eqb c "010" then Some (EmptyString, r) else None
      end
  end.

(** The page and the status code in the output of curl. *)
Definition split_output (output : string) : string * string :=
  match rsplit_newline output with
  | Some (html, code) => (html, PyStr.strip code)
  | None => (output, "000")
  end.

(** The loop [for attempt in range(retries)] of [fetch_page], from
    [attempt] on, with [remaining] iterations to go. *)
Fixpoint fetch_loop (url : string) (attempt remaining : nat) : M (option string) :=
  match remaining with
  | O => mret None
  | S remaining' =>
      out ← run_curl url;
      match out with
      | Completed output =>
          let '(html, status_code) := split_output output in
          if (status_code =? "200")%string && PyStr.truthy html then mret (Some html)
          else if (status_code =? "429")%string then
            let wait := inject_Z ((Z.of_nat attempt + 1) * 15) in
            sleep wait;; fetch_loop url (S attempt) remaining'
          else
            sleep 5%Q;; fetch_loop url (S attempt) remaining'
      | Raised =>
          sleep 5%Q;; fetch_loop url (S attempt) remaining'
      end
  end.

(** [fetch_page(url, retries)]. *)
Definition fetch_page (url : string) (retries : nat) : M (option string) :=
  fetch_loop url 0 retries.

(** [scrape_season(year)]. *)
Definition scrape_season (year : Z) : M (list game) :=
  let url := BASE_URL year in
  html ← fetch_page url MAX_RETRIES;
  match html with
  | None => mret []
  | Some html =>
      match find_rows html with
      | None => mret []
      | Some rows => mret (scrape_rows year rows)
      end
  end.

(** The loop over the seasons of [main]: [st] holds [all_games] and
    [failed_seasons]. *)
Fixpoint scrape_years (end_year : Z) (years : list Z)
    (st : list game * list Z) : M (list game * list Z) :=
  match years with
  | [] => mret st
  | year :: years' =>
      games ← scrape_season year;
      let st' :=
        match games with
        | [] => (st.1, (st.2 ++ [year])%list)
        | _ => ((st.1 ++ games)%list, st.2)
        end in
      (if year <? end_year then sleep REQUEST_DELAY else mret tt);;
      scrape_years end_year years' st'
  end.

(** The scraping part of [main]: all games and the failed seasons. *)
Definition scrape_all (start_year end_year : Z) : M (list game * list Z) :=
  scrape_years end_year (seqZ start_year (end_year + 1 - start_year)) ([], []).

End Fetch.

(** ** Betting reconciler *)

Module AddSpreads.

(** Columns of the existing sheet (from 0). *)
Definition COL_DATE : nat := 3.
Definition COL_HOME : nat := 5.
Definition COL_AWAY : nat := 6.
Definition COL_HOME_SCORE : nat := 7.
Definition COL_AWAY_SCORE : nat := 8.

(** The new columns (from 1, as openpyxl counts). *)
Definition NEW_COL_SPREAD : nat := 13.
Definition NEW_COL_OU : nat := 14.
Definition NEW_COL_SPREAD_RESULT : nat := 15.
Definition NEW_COL_OU_RESULT : nat := 16.

Definition NEW_HEADERS : list string :=
  ["Spread"; "Over/Under"; "Spread Result"; "O/U Result"].

(** The value of a cell that is not empty. The value [None] of an empty
    cell is the [None] of [option value]. *)
Inductive value :=
  | VInt (z : Z)
  | VFloat (q : Q)
  | VStr (s : string).

(** A worksheet: the values of its cells by (row, column), both from 1,
    a cell without an entry having the value [None]; and [ws.max_row]. *)
Record worksheet := Worksheet {
  cells : gmap (nat * nat) value;
  max_row : nat
}.

(** [ws.cell(row=row, column=column).value]. *)
Definition cell_value (ws : worksheet) (row column : nat) : option value :=
  cells ws !! (row, column).

(** [ws.cell(row=row, column=column, value=v)]. openpyxl's
    [Worksheet.cell] assigns the value only [if value is not None]; with
    [None] it returns the cell as it is. The merge reaches the rows
    [1..max_row] only, which leaves [max_row] as it is. *)
Definition cell_write (ws : worksheet) (row column : nat) (v : option value) : worksheet :=
  match v with
  | Some x => Worksheet (<[(row, column) := x]> (cells ws)) (max_row ws)
  | None => ws
  end.

(** One entry of the lookup: [{"spread": spread, "ou": ou}]. *)
Record betting := Betting {
  spread : option Q;
  ou : option Q
}.

(** [x > y] and [x < y] on numbers. *)
Definition Qgtb (x y : Q) : bool :=
  match (x ?= y)%Q with Gt => true | _ => false end.
Definition Qltb (x y : Q) : bool :=
  match (x ?= y)%Q with Lt => true | _ => false end.

(** *** binary64 arithmetic

    [floor(log2 x)] of a rational [x > 0]. *)
Definition ilog2 (x : Q) : Z :=
  let e := Z.log2 (Qnum x) - Z.log2 (Z.pos (Qden x)) in
  if Qle_bool (2 ^ e)%Q x then e else e - 1.

(** The integer nearest to [x], the even one of two that are as near. *)
Definition round_half_even (x : Q) : Z :=
  let k := Qfloor x in
  match (x - inject_Z k ?= 1 # 2)%Q with
  | Lt => k
  | Gt => k + 1
  | Eq => if Z.even k then k else k + 1
  end.

(** What an operation on floats gives: a finite value, as the rational
    it is, or an infinity. *)
Inductive float :=
  | Finite (x : Q)
  | Infinity (negative : bool).

(** The exponent of the last of the 53 binary digits of the binary64
    values around [x], not under -1074 (the subnormal numbers). *)
Definition last_digit (x : Q) : Z := Z.max (ilog2 (Qabs x) - 52) (-1074).

(** The binary64 value of a real number, rounded to nearest, ties to
    even: the nearest multiple of [2 ^ q] for the last digit [q], and an
    infinity when that reaches [2 ^ 1024]. *)
Definition round64 (x : Q) : float :=
  if Qeq_bool x 0 then Finite 0
  else
    let q := last_digit x in
    let y := (inject_Z (round_half_even (x / 2 ^ q)) * 2 ^ q)%Q in
    if Qle_bool (2 ^ 1024)%Q (Qabs y) then Infinity (Qltb x 0) else Finite y.

(** The float an [int] is converted to where it meets a float in an
    operation. Where this is an infinity, from [2 ^ 1024 - 2 ^ 970] on
    in absolute value, Python raises [OverflowError] instead, which no
    handler of the script takes and which stops the run; [fits_float]
    tells where it does not. *)
Definition float_of_int (n : Z) : float := round64 (inject_Z n).

Definition fits_float (n : Z) : Prop :=
  exists x, float_of_int n = Finite x.

(** [x + y] of a float and a finite float. *)
Definition float_add (x : float) (y : Q) : float :=
  match x with
  | Finite x => round64 (x + y)
  | Infinity negative => Infinity negative
  end.

(** [x > n] and [x < n] of a float and an [int]: Python compares the two
    numbers as they are, without converting the [int]. *)
Definition float_gtb (x : float) (n : Z) : bool :=
  match x with
  | Finite x => Qgtb x (inject_Z n)
  | Infinity negative => negb negative
  end.

Definition float_ltb (x : float) (n : Z) : bool :=
  match x with
  | Finite x => Qltb x (inject_Z n)
  | Infinity negative => negative
  end.

(** The finite binary64 values: [m * 2 ^ e] with [m] of at most 53
    binary digits and [e] from -1074 to 971. *)
Definition binary64 (x : Q) : Prop :=
  exists m e : Z, (x == inject_Z m * 2 ^ e)%Q /\ Z.abs m < 2 ^ 53 /\ -1074 <= e <= 971.

(** The same value in [float] and in the IEEE 754 specification of the
    standard library ([SpecFloat]). *)
Definition same_value (x : float) (f : spec_float) : bool :=
  match x, f with
  | Finite y, S754_zero _ => Qeq_bool y 0
  | Finite y, S754_finite s m e =>
      Qeq_bool y ((if s then - 1 else 1) * inject_Z (Z.pos m) * 2 ^ e)%Q
  | Infinity negative, S754_infinity s => Bool.eqb negative s
  | _, _ => false
  end.

(** [m * 2 ^ e] as a number of that specification, rounded by it. *)
Definition spec64 (me : Z * Z) : spec_float :=
  binary_normalize 53 1024 me.1 me.2 false.

Definition dyadic (me : Z * Z) : Q := (inject_Z me.1 * 2 ^ me.2)%Q.

(** Numbers to round: small and large ones, halfway cases, subnormal
    numbers and the edge of the range. *)
Definition rounding_samples : list (Z * Z) :=
  [(0, 0); (1, 0); (-7, -1); (2 ^ 53 + 1, 0); (2 ^ 53 + 3, 0); (- (2 ^ 53 + 1), 0);
   (2 ^ 54 + 2, 0); (2 ^ 54 + 6, 0); (2 ^ 54 - 1, 970); (2 ^ 54 - 1, -1076);
   (1, -1074); (1, -1075); (3, -1075); (-3, -1075); (2 ^ 53 + 1, -1080);
   (2 ^ 53 - 1, -1075); (12345678901234567890123, -40);
   (2 ^ 1024 - 2 ^ 970, 0); (2 ^ 1024 - 2 ^ 970 - 1, 0); (- (2 ^ 1024 - 2 ^ 970), 0);
   (-3, 2000)].

(** Pairs to add. *)
Definition sum_samples : list ((Z * Z) * (Z * Z)) :=
  [((1, 0), (2 ^ 52 + 1, -52)); ((2, 0), (- (2 ^ 52 + 1), -52));
   ((2 ^ 53, 0), (1, -1)); ((2 ^ 53, 0), (3, -1)); ((24, 0), (-7, -1));
   ((1, 0), (1, -53)); ((1, 0), (3, -54)); ((1, 0), (-1, -54));
   ((2 ^ 53 - 1, 971), (1, 970)); ((2 ^ 53 - 1, 971), (1, 969));
   ((1, -1074), (1, -1074)); ((3, -1074), (-1, -1074)); ((10, 0), (1, -1074))].

(** [compute_spread_result]: [home_score] is an [int] and [spread] a
    float, so that [home_score + spread] is the float sum of
    [float(home_score)] and [spread]; the comparisons with the [int]
    [away_score] are exact. The result is that of the script for every
    score that [fits_float]; beyond, the script stops at the sum. *)
Definition compute_spread_result (home_score away_score : option Z)
    (spread : option Q) : string :=
  match spread, home_score, away_score with
  | Some spread, Some home_score, Some away_score =>
      let adjusted := float_add (float_of_int home_score) spread in
      if float_gtb adjusted away_score then "Covered"
      else if float_ltb adjusted away_score then "Lost"
      else "Push"
  | _, _, _ => ""
  end.

(** [compute_ou_result]. *)
Definition compute_ou_result (home_score away_score : option Z)
    (ou : option Q) : string :=
  match ou, home_score, away_score with
  | Some ou, Some home_score, Some away_score =>
      let total := home_score + away_score in
      if Qgtb (inject_Z total) ou then "Over"
      else if Qltb (inject_Z total) ou then "Under"
      else "Push"
  | _, _, _ => ""
  end.

(** [int(v)] of a cell value, [None] on [ValueError]: a float is cut
    towards zero, a string is read as [int] reads it. *)
Definition int_of_value (v : value) : option Z :=
  match v with
  | VInt z => Some z
  | VFloat q => Some (Z.quot (Qnum q) (Z.pos (Qden q)))
  | VStr s => PyStr.int s
  end.

Section Merge.

(** [str(x)] of a float [x], the shortest decimal that reads back as [x]. *)
Variable float_str : Q -> string.

(** [str(v)] of a cell value. *)
Definition str_of_value (v : value) : string :=
  match v with
  | VInt z => pretty z
  | VFloat q => float_str q
  | VStr s => s
  end.

(** [existing_header == "Spread"]. *)
Definition is_spread_header (existing_header : option value) : bool :=
  match existing_header with
  | Some (VStr text) => (text =? "Spread")%string
  | _ => false
  end.

(** The header row: nothing when column 13 is headed [Spread] already. *)
Definition write_headers (ws : worksheet) : worksheet :=
  if is_spread_header (cell_value ws 1 NEW_COL_SPREAD) then ws
  else
    foldl (fun ws ih => cell_write ws 1 (NEW_COL_SPREAD + ih.1) (Some (VStr ih.2)))
          ws (imap (fun i header => (i, header)) NEW_HEADERS).

(** One turn of the loop [for row_idx in range(2, ws.max_row + 1)], on
    the sheet and the counters [matched] and [total]. *)
Definition merge_row (lookup : gmap (string * string) betting)
    (st : worksheet * nat * nat) (row_idx : nat) : worksheet * nat * nat :=
  let '(ws, matched, total) := st in
  let date_val := cell_value ws row_idx (COL_DATE + 1) in
  let home_val := cell_value ws row_idx (COL_HOME + 1) in
  let home_score := cell_value ws row_idx (COL_HOME_SCORE + 1) in
  let away_score := cell_value ws row_idx (COL_AWAY_SCORE + 1) in
  match date_val, home_val with
  | Some date_val, Some home_val =>
      let total := S total in
      let date_str := PyStr.take 10 (PyStr.strip (str_of_value date_val)) in
      let home_str := PyStr.strip (str_of_value home_val) in
      match lookup !! (date_str, home_str) with
      | Some betting =>
          let matched := S matched in
          let spread := spread betting in
          let ou := ou betting in
          let hs := home_score ≫= int_of_value in
          let as_ := away_score ≫= int_of_value in
          let spread_result := compute_spread_result hs as_ spread in
          let ou_result := compute_ou_result hs as_ ou in
          let ws := cell_write ws row_idx NEW_COL_SPREAD (VFloat <$> spread) in
          let ws := cell_write ws row_idx NEW_COL_OU (VFloat <$> ou) in
          let ws := cell_write ws row_idx NEW_COL_SPREAD_RESULT (Some (VStr spread_result)) in
          let ws := cell_write ws row_idx NEW_COL_OU_RESULT (Some (VStr ou_result)) in
          (ws, matched, total)
      | None =>
          let ws := foldl (fun ws col => cell_write ws row_idx col None) ws
                          (seq NEW_COL_SPREAD (NEW_COL_OU_RESULT + 1 - NEW_COL_SPREAD)) in
          (ws, matched, total)
      end
  | _, _ => st
  end.

(** [range(2, ws.max_row + 1)]. *)
Definition data_rows (ws : worksheet) : list nat :=
  seq 2 (max_row ws + 1 - 2).

(** [merge_into_excel] on the sheet of a workbook that was loaded: the
    sheet that is saved, and [(matched, total)]. *)
Definition merge_sheet (lookup : gmap (string * string) betting)
    (ws : worksheet) : worksheet * nat * nat :=
  let ws := write_headers ws in
  foldl (merge_row lookup) (ws, 0%nat, 0%nat) (data_rows ws).

(** [merge_into_excel(filepath, lookup)]: [file] is the sheet at
    [filepath], [None] when no file is there; the result is the file
    afterwards and the pair that is returned. *)
Definition merge_into_excel (file : option worksheet)
    (lookup : gmap (string * string) betting) : option worksheet * (nat * nat) :=
  match file with
  | None => (None, (0%nat, 0%nat))
  | Some ws =>
      let '(ws', matched, total) := merge_sheet lookup ws in
      (Some ws', (matched, total))
  end.

(** What one turn of the loop does to the sheet and adds to [matched]
    and to [total]. *)
Definition row_sheet (lookup : gmap (string * string) betting)
    (ws : worksheet) (row_idx : nat) : worksheet :=
  (merge_row lookup (ws, 0%nat, 0%nat) row_idx).1.1.

Definition row_matched (lookup : gmap (string * string) betting)
    (ws : worksheet) (row_idx : nat) : nat :=
  (merge_row lookup (ws, 0%nat, 0%nat) row_idx).1.2.

Definition row_total (lookup : gmap (string * string) betting)
    (ws : worksheet) (row_idx : nat) : nat :=
  (merge_row lookup (ws, 0%nat, 0%nat) row_idx).2.

End Merge.

(** A row is eligible when its Date and Home Team cells hold a value. *)
Definition eligible (ws : worksheet) (row_idx : nat) : bool :=
  match cell_value ws row_idx (COL_DATE + 1), cell_value ws row_idx (COL_HOME + 1) with
  | Some _, Some _ => true
  | _, _ => false
  end.

(** The cells a turn of the loop reads are the same in two sheets. *)
Definition same_inputs (ws1 ws2 : worksheet) (row_idx : nat) : Prop :=
  cell_value ws1 row_idx (COL_DATE + 1) = cell_value ws2 row_idx (COL_DATE + 1) /\
  cell_value ws1 row_idx (COL_HOME + 1) = cell_value ws2 row_idx (COL_HOME + 1) /\
  cell_value ws1 row_idx (COL_HOME_SCORE + 1) = cell_value ws2 row_idx (COL_HOME_SCORE + 1) /\
  cell_value ws1 row_idx (COL_AWAY_SCORE + 1) = cell_value ws2 row_idx (COL_AWAY_SCORE + 1).

(** The four betting columns. *)
Definition betting_column (column : nat) : Prop :=
  (NEW_COL_SPREAD <= column <= NEW_COL_OU_RESULT)%nat.

End AddSpreads.

(** ** Web-asset generator: deduplication and order *)

Module GenerateData.

(** The dictionary [read_excel] builds for one game; the keys [sp], [ou],
    [sr] and [our] may be missing. *)
Record game := Game {
  s : Z;
  w : string;
  d : string;
  dt : string;
  tm : string;
  h : string;
  a : string;
  hs : Z;
  as_ : Z;
  pt : string;
  sp : option Q;
  ou : option Q;
  sr : option string;
  our : option string
}.

(** [(g["s"], g["dt"], g["h"], g["a"])]. *)
Definition key (g : game) : Z * string * string * string :=
  (s g, dt g, h g, a g).

(** The deduplication loop of [main], on the set [seen] and the list
    [unique_games]. *)
Fixpoint dedupe_loop (seen : gset (Z * string * string * string))
    (unique_games all_games : list game) : list game :=
  match all_games with
  | [] => unique_games
  | g :: rest =>
      if decide (key g ∈ seen) then dedupe_loop seen unique_games rest
      else dedupe_loop ({[key g]} ∪ seen) (unique_games ++ [g])%list rest
  end.

Definition dedupe (all_games : list game) : list game :=
  dedupe_loop ∅ [] all_games.

(** The sort key [(g["s"], g["dt"])] and the order [<] of Python on such
    pairs: the seasons decide unless they are equal, then the dates do,
    as strings. *)
Definition sort_key (g : game) : Z * string := (s g, dt g).

Definition key_ltb (k1 k2 : Z * string) : bool :=
  if k1.1 =? k2.1 then String.ltb k1.2 k2.2 else k1.1 <? k2.1.

(** [list.sort(key=...)] is a stable sort; on a list every stable sort
    gives the same result, here the one of insertion from the right. *)
Fixpoint insert_by_key (g : game) (sorted : list game) : list game :=
  match sorted with
  | [] => [g]
  | x :: rest =>
      if key_ltb (sort_key x) (sort_key g) then x :: insert_by_key g rest
      else g :: x :: rest
  end.

Definition sort_games (games : list game) : list game :=
  foldr insert_by_key [] games.

(** [unique_games] as [main] serializes it. *)
Definition unique_sorted (all_games : list game) : list game :=
  sort_games (dedupe all_games).

(** [g] stands in [l] as the first record with its key. *)
Definition first_seen (g : game) (l : list game) : Prop :=
  exists before after,
    l = (before ++ g :: after)%list /\ forall x, x ∈ before -> key x <> key g.

(** The order [<=] on sort keys: by season, then by date as a string. *)
Definition key_le (k1 k2 : Z * string) : Prop :=
  k1.1 < k2.1 \/ (k1.1 = k2.1 /\ String.leb k1.2 k2.2 = true).

End GenerateData.

(** ** Betting reconciler: the lookup of the betting workbook *)

Module BettingSource.

Import AddSpreads.

(** Columns of the betting workbook (from 0). *)
Definition AB_DATE : nat := 0.
Definition AB_HOME : nat := 1.
Definition AB_HOME_LINE_CLOSE : nat := 19.
Definition AB_TOTAL_SCORE_CLOSE : nat := 35.

Section Build.

(** Date-typed cells: the type [datetime], its [strftime("%Y-%m-%d")]
    and its [str]. *)
Variable datetime : Type.
Variable strftime_ymd : datetime -> string.
Variable datetime_str : datetime -> string.

(** [str(x)] of a float, and [float(s)] of a string, [None] standing for
    [ValueError]. *)
Variable float_str : Q -> string.
Variable float_of_str : string -> option Q.

(** The value of a cell of the betting workbook that is not empty. *)
Inductive ab_value :=
  | ADate (d : datetime)
  | AValue (v : value).

(** Truth value of a cell value, as [x or ""] takes it. *)
Definition truthy_value (v : ab_value) : bool :=
  match v with
  | ADate _ => true
  | AValue (VInt z) => negb (z =? 0)
  | AValue (VFloat q) => negb (Qeq_bool q 0)
  | AValue (VStr s) => PyStr.truthy s
  end.

Definition str_of_ab_value (v : ab_value) : string :=
  match v with
  | ADate d => datetime_str d
  | AValue v => str_of_value float_str v
  end.

(** [str(cell or "").strip()]. *)
Definition home_text (cell : option ab_value) : string :=
  PyStr.strip
    match cell with
    | Some v => if truthy_value v then str_of_ab_value v else ""
    | None => ""
    end.

(** The date key of a date cell that is not empty. *)
Definition date_text_of (raw_date : ab_value) : string :=
  match raw_date with
  | ADate d => strftime_ymd d
  | AValue v => PyStr.take 10 (str_of_value float_str v)
  end.

(** [float(x) if x is not None else None], with [None] on [ValueError]
    and [TypeError]. *)
Definition line_of (cell : option ab_value) : option Q :=
  match cell with
  | Some (AValue (VInt z)) => Some (inject_Z z)
  | Some (AValue (VFloat q)) => Some q
  | Some (AValue (VStr s)) => float_of_str s
  | Some (ADate _) => None
  | None => None
  end.

(** What the body of the loop makes of one row, a tuple of cell values:
    [None] when an index is out of range ([IndexError]), [Some None]
    when the row is passed over by a [continue], and the key and entry
    that are stored otherwise. *)
Definition row_entry (row : list (option ab_value))
    : option (option ((string * string) * betting)) :=
  raw ← row !! AB_DATE;
  match raw with
  | None => Some None
  | Some raw_date =>
      let date_str := date_text_of raw_date in
      home_cell ← row !! AB_HOME;
      let home := home_text home_cell in
      spread ← row !! AB_HOME_LINE_CLOSE;
      ou ← row !! AB_TOTAL_SCORE_CLOSE;
      if negb (PyStr.truthy home) || negb (PyStr.truthy date_str) then Some None
      else Some (Some ((date_str, home), Betting (line_of spread) (line_of ou)))
  end.

(** One turn of the loop on the lookup built so far. *)
Definition build_row (lookup : option (gmap (string * string) betting))
    (row : list (option ab_value)) : option (gmap (string * string) betting) :=
  lookup ← lookup;
  entry ← row_entry row;
  match entry with
  | Some (key, b) => Some (<[key := b]> lookup)
  | None => Some lookup
  end.

(** [build_betting_lookup] on the rows under the header row; [None]
    stands for the [IndexError] of a row that is too short. *)
Definition build_betting_lookup (rows : list (list (option ab_value)))
    : option (gmap (string * string) betting) :=
  foldl build_row (Some ∅) rows.

End Build.

End BettingSource.

(** ** Sample inputs *)

(** A win on the road: the winner column holds the away team. *)
Definition row_marked : table_row :=
  TableRow false (Some "1") (Some "Sun")
    (Some (DateCell (Some "2020-09-13") "September 13")) (Some "1:00PM")
    (Some "Chicago Bears") (Some "@") (Some "Detroit Lions")
    (Some "27") (Some "23").

Definition game_marked : game :=
  Game 2020 "1" "Sun" "2020-09-13" "1:00PM" "Detroit Lions" "Chicago Bears"
       23 27 4 "Chicago Bears" "".

(** A row whose winner column reads [Tie], with points 10 to 7. *)
Definition row_named_tie : table_row :=
  TableRow false (Some "1") (Some "Sun") None (Some "1:00PM")
    (Some "Tie") None (Some "Detroit Lions") (Some "10") (Some "7").

(** A source that answers every request with status 429, and a parser
    that finds no table. *)
Definition net_rate_limited : nat -> string -> outcome :=
  fun _ _ => Completed ("<html>" +:+ String "010" "429").

Definition no_table : string -> option (list table_row) := fun _ => None.

(** A sheet of two games after an earlier merge: row 2 holds betting
    values, row 3 has no date; and a betting source that knows the game of
    row 2. *)
Definition stale_sheet : AddSpreads.worksheet :=
  AddSpreads.Worksheet
    (list_to_map
       [((1, 13), AddSpreads.VStr "Spread");
        ((2, 1), AddSpreads.VInt 2020);
        ((2, 4), AddSpreads.VStr "2020-09-13");
        ((2, 6), AddSpreads.VStr "Detroit Lions");
        ((2, 7), AddSpreads.VStr "Chicago Bears");
        ((2, 8), AddSpreads.VInt 23);
        ((2, 9), AddSpreads.VInt 27);
        ((2, 13), AddSpreads.VFloat (-7 # 2));
        ((2, 14), AddSpreads.VFloat (87 # 2));
        ((2, 15), AddSpreads.VStr "Lost");
        ((2, 16), AddSpreads.VStr "Over");
        ((3, 6), AddSpreads.VStr "Green Bay Packers");
        ((3, 13), AddSpreads.VFloat 3)]%nat)
    3.

Definition lions_line : gmap (string * string) AddSpreads.betting :=
  {[ ("2020-09-13", "Detroit Lions") :=
       AddSpreads.Betting (Some (5 # 2)) (Some (44 # 1)) ]}.

(** A stand-in for [str] on floats. *)
Definition plain_float_str : Q -> string := fun _ => "0.0".

(** Three records read from two files: the second file repeats the game
    of 2019 with other scores. *)
Definition game_2020 : GenerateData.game :=
  GenerateData.Game 2020 "1" "Sun" "2020-09-13" "1:00PM" "Detroit Lions"
    "Chicago Bears" 23 27 "" None None None None.

Definition game_2019 : GenerateData.game :=
  GenerateData.Game 2019 "1" "Thu" "2019-09-05" "8:20PM" "Chicago Bears"
    "Green Bay Packers" 3 10 "TNF" None None None None.

Definition game_2019_again : GenerateData.game :=
  GenerateData.Game 2019 "1" "Thu" "2019-09-05" "8:20PM" "Chicago Bears"
    "Green Bay Packers" 0 0 "" None None None None.

(** ** Notions for the further properties *)

(** A clock time as the schedule pages print it: the hour without a
    leading zero, a colon, the minute on two digits, and AM or PM. *)
Definition two_digits (m : Z) : string :=
  String (ascii_of_N (Z.to_N (48 + m / 10)))
    (String (ascii_of_N (Z.to_N (48 + m mod 10))) "").

Definition clock_text (h m : Z) (pm : bool) : string :=
  pretty h +:+ ":" +:+ two_digits m +:+ (if pm then "PM" else "AM").

(** The hour on 24 of the hour [h] of a 12-hour clock. *)
Definition hour24 (h : Z) (pm : bool) : Z :=
  if pm then (if h =? 12 then 12 else h + 12)
  else (if h =? 12 then 0 else h).

(** The five slot labels. *)
Definition slot_labels : list string :=
  [""; "MNF"; "TNF"; "SNF"; "Saturday Primetime"].

(** A record with home and away exchanged, teams and scores. *)
Definition swap_home_away (g : game) : game :=
  {| Season := Season g; Week := Week g; Day := Day g; Date := Date g;
     Time_ET := Time_ET g;
     Home_Team := Away_Team g; Away_Team := Home_Team g;
     Home_Score := Away_Score g; Away_Score := Home_Score g;
     Score_Difference := Score_Difference g;
     Winner := Winner g; Primetime_Slot := Primetime_Slot g |}.

(** A row with another location cell. *)
Definition with_location (location : option string) (row : table_row) : table_row :=
  {| has_col_header := has_col_header row; week_el := week_el row;
     day_el := day_el row; date_el := date_el row; time_el := time_el row;
     winner_el := winner_el row; location_el := location;
     loser_el := loser_el row; pts_win_el := pts_win_el row;
     pts_lose_el := pts_lose_el row |}.

(** Whether a text holds a line feed. *)
Definition has_newline (s : string) : bool :=
  PyStr.any (fun c => Ascii.eqb c "010") s.

(** The seconds slept in a trace. *)
Definition seconds (e : event) : Q :=
  match e with Sleep q => q | Run _ => 0%Q end.

Definition slept (t : list event) : Q :=
  foldr (fun e acc => (seconds e + acc)%Q) 0%Q t.

(** The sleeps between two seasons in a trace: the sleeps of length
    [REQUEST_DELAY]. *)
Definition is_delay (e : event) : bool :=
  match e with Sleep q => Qeq_bool q REQUEST_DELAY | Run _ => false end.

Definition delays (t : list event) : nat := length (List.filter is_delay t).

(** The longest the loop of [fetch_page] sleeps, from [attempt] on with
    [remaining] turns to go: 15 seconds times the number of each attempt. *)
Fixpoint wait_bound (attempt remaining : nat) : Z :=
  match remaining with
  | O => 0
  | S remaining' => 15 * (Z.of_nat attempt + 1) + wait_bound (S attempt) remaining'
  end.

(** A source whose first answer is lost and whose later answers are a
    page with status 200. *)
Definition net_second_try : nat -> string -> outcome :=
  fun n _ =>
    match n with
    | O => Raised
    | S _ => Completed ("<html>page</html>" +:+ String "010" "200")
    end.

(** The result of an outcome when the other side is taken: [Covered] and
    [Lost] change places. *)
Definition mirror_result (r : string) : string :=
  if (r =? "Covered")%string then "Lost"
  else if (r =? "Lost")%string then "Covered"
  else r.

(** A row of the betting workbook with its four cells that are read,
    the other cells empty; dates are texts here, so that the type of the
    date-typed cells is the unit type. *)
Definition ab_row (date home line total : option (BettingSource.ab_value unit))
    : list (option (BettingSource.ab_value unit)) :=
  ([date; home] ++ replicate 17 None ++ [line] ++ replicate 15 None ++ [total])%list.

Definition ab_text (s : string) : option (BettingSource.ab_value unit) :=
  Some (BettingSource.AValue unit (AddSpreads.VStr s)).

Definition ab_number (q : Q) : option (BettingSource.ab_value unit) :=
  Some (BettingSource.AValue unit (AddSpreads.VFloat q)).

Definition sample_build :=
  BettingSource.build_betting_lookup unit (fun _ => "") (fun _ => "")
    plain_float_str (fun _ => None).

(** ** Scraper: the sheet that is written *)

Definition COLUMNS : list string :=
  ["Season"; "Week"; "Day"; "Date"; "Time (ET)";
   "Home Team"; "Away Team";
   "Home Score"; "Away Score"; "Score Difference";
   "Winner"; "Primetime Slot"].

(** [game.get(col_name, "")] as a cell value. *)
Definition game_get (g : game) (col_name : string) : AddSpreads.value :=
  if (col_name =? "Season")%string then AddSpreads.VInt (Season g)
  else if (col_name =? "Week")%string then AddSpreads.VStr (Week g)
  else if (col_name =? "Day")%string then AddSpreads.VStr (Day g)
  else if (col_name =? "Date")%string then AddSpreads.VStr (Date g)
  else if (col_name =? "Time (ET)")%string then AddSpreads.VStr (Time_ET g)
  else if (col_name =? "Home Team")%string then AddSpreads.VStr (Home_Team g)
  else if (col_name =? "Away Team")%string then AddSpreads.VStr (Away_Team g)
  else if (col_name =? "Home Score")%string then AddSpreads.VInt (Home_Score g)
  else if (col_name =? "Away Score")%string then AddSpreads.VInt (Away_Score g)
  else if (col_name =? "Score Difference")%string then AddSpreads.VInt (Score_Difference g)
  else if (col_name =? "Winner")%string then AddSpreads.VStr (Winner g)
  else if (col_name =? "Primetime Slot")%string then AddSpreads.VStr (Primetime_Slot g)
  else AddSpreads.VStr "".

(** [enumerate(l, start)]. *)
Definition enumerate {A} (l : list A) (start : nat) : list (nat * A) :=
  zip (seq start (length l)) l.

(** [ws.cell(row, column, value=v)] for a value that is not [None], on a
    sheet that is being filled: the cell is made when it is not there,
    which may raise [max_row]. *)
Definition cell_put (ws : AddSpreads.worksheet) (row column : nat)
    (v : AddSpreads.value) : AddSpreads.worksheet :=
  AddSpreads.Worksheet (<[(row, column) := v]> (AddSpreads.cells ws))
    (Nat.max (AddSpreads.max_row ws) row).

(** The header loop of [write_excel]. *)
Definition write_header_row (ws : AddSpreads.worksheet) : AddSpreads.worksheet :=
  foldl (fun ws ic => cell_put ws 1 ic.1 (AddSpreads.VStr ic.2)) ws (enumerate COLUMNS 1).

(** The inner loop of [write_excel] on one game. *)
Definition write_game_row (ws : AddSpreads.worksheet) (row_idx : nat) (g : game)
    : AddSpreads.worksheet :=
  foldl (fun ws ic => cell_put ws row_idx ic.1 (game_get g ic.2)) ws (enumerate COLUMNS 1).

(** The values of the sheet [write_excel] fills, from the empty sheet of
    a new workbook; fonts, fills, widths and the filter are left out. *)
Definition write_excel (all_games : list game) : AddSpreads.worksheet :=
  foldl (fun ws ig => write_game_row ws ig.1 ig.2)
        (write_header_row (AddSpreads.Worksheet ∅ 1)) (enumerate all_games 2).

(** ** Web-asset generator: reading a sheet *)

Module ReadExcel.

Import AddSpreads.

Section Read.

(** [str(x)] of a float, [float(s)] of a string ([None] for
    [ValueError]) and [round(x, 1)]. *)
Variable float_str : Q -> string.
Variable float_of_str : string -> option Q.
Variable round1 : Q -> Q.

(** Truth value of a cell value, as [x or ""] takes it. *)
Definition truthy (v : value) : bool :=
  match v with
  | VInt z => negb (z =? 0)
  | VFloat q => negb (Qeq_bool q 0)
  | VStr s => PyStr.truthy s
  end.

(** [str(c or "")]. *)
Definition str_or_empty (c : option value) : string :=
  match c with
  | Some v => if truthy v then str_of_value float_str v else ""
  | None => ""
  end.

(** [if s == "None": s = ""]. *)
Definition none_to_empty (s : string) : string :=
  if (s =? "None")%string then "" else s.

(** [int(x) if x is not None else 0], with 0 on [ValueError] and
    [TypeError]. *)
Definition int_or_zero (c : option value) : Z :=
  match c with
  | Some v => default 0 (int_of_value v)
  | None => 0
  end.

(** [round(float(x), 1) if x is not None else None], with [None] on
    [ValueError] and [TypeError]. *)
Definition line_cell (c : option value) : option Q :=
  match c with
  | Some (VInt z) => Some (round1 (inject_Z z))
  | Some (VFloat q) => Some (round1 q)
  | Some (VStr s) => round1 <$> float_of_str s
  | None => None
  end.

(** [cells[i]] where [i] is in range, [None] for an empty cell. *)
Definition cell_at (cells : list (option value)) (i : nat) : option value :=
  mjoin (cells !! i).

(** [cells[i] if len(cells) >= i + 1 else None]. *)
Definition cell_if_there (cells : list (option value)) (i : nat) : option value :=
  if (i + 1 <=? length cells)%nat then cell_at cells i else None.

(** [s if s else] a missing key. *)
Definition text_key (s : string) : option string :=
  if PyStr.truthy s then Some s else None.

(** The body of the loop of [read_excel] on the values of one row: [None]
    when [int(season)] raises, [Some None] when the row is passed over,
    and the record that is appended otherwise. *)
Definition read_row (cells : list (option value)) : option (option GenerateData.game) :=
  if (length cells <? 12)%nat then Some None
  else
    match cell_at cells 0 with
    | None => Some None
    | Some season =>
        let week := str_or_empty (cell_at cells 1) in
        let day := str_or_empty (cell_at cells 2) in
        let date := str_or_empty (cell_at cells 3) in
        let time_et := str_or_empty (cell_at cells 4) in
        let home := str_or_empty (cell_at cells 5) in
        let away := str_or_empty (cell_at cells 6) in
        let hs := cell_at cells 7 in
        let away_s := cell_at cells 8 in
        let pt := str_or_empty (cell_at cells 11) in
        if negb (PyStr.truthy home) || negb (PyStr.truthy away) then Some None
        else
          let pt := none_to_empty pt in
          let time_et := none_to_empty time_et in
          let hs := int_or_zero hs in
          let away_s := int_or_zero away_s in
          let spread := line_cell (cell_if_there cells 12) in
          let ou := line_cell (cell_if_there cells 13) in
          let spread_result := none_to_empty (str_or_empty (cell_if_there cells 14)) in
          let ou_result := none_to_empty (str_or_empty (cell_if_there cells 15)) in
          s ← int_of_value season;
          Some (Some
            {| GenerateData.s := s; GenerateData.w := week; GenerateData.d := day;
               GenerateData.dt := date; GenerateData.tm := time_et;
               GenerateData.h := home; GenerateData.a := away;
               GenerateData.hs := hs; GenerateData.as_ := away_s;
               GenerateData.pt := pt;
               GenerateData.sp := spread; GenerateData.ou := ou;
               GenerateData.sr := text_key spread_result;
               GenerateData.our := text_key ou_result |})
    end.

(** [read_excel] on the rows under the header row: the games in row
    order, [None] when a row raises. *)
Definition read_excel (rows : list (list (option value))) : option (list GenerateData.game) :=
  foldl (fun games cells =>
           games ← games;
           r ← read_row cells;
           Some match r with
                | Some game => (games ++ [game])%list
                | None => games
                end)
        (Some []) rows.

End Read.

(** A cell holds a text: as a string, or as an empty cell for the empty
    text, which is how an empty string is found again in a saved file. *)
Definition holds_text (c : option value) (s : string) : Prop :=
  c = Some (VStr s) \/ (s = "" /\ c = None).

End ReadExcel.

(** The record of the generator for a record of the scraper. *)
Definition web_record (g : game) : GenerateData.game :=
  {| GenerateData.s := Season g; GenerateData.w := Week g; GenerateData.d := Day g;
     GenerateData.dt := Date g;
     GenerateData.tm := ReadExcel.none_to_empty (Time_ET g);
     GenerateData.h := Home_Team g; GenerateData.a := Away_Team g;
     GenerateData.hs := Home_Score g; GenerateData.as_ := Away_Score g;
     GenerateData.pt := ReadExcel.none_to_empty (Primetime_Slot g);
     GenerateData.sp := None; GenerateData.ou := None;
     GenerateData.sr := None; GenerateData.our := None |}.

(** The twelve cells of a row of a sheet. *)
Definition row_cells (ws : AddSpreads.worksheet) (row : nat) : list (option AddSpreads.value) :=
  (fun column => AddSpreads.cell_value ws row column) <$> seq 1 12.

Definition sample_read_row :=
  ReadExcel.read_row plain_float_str (fun _ => None) (fun q => q).

(** * Properties *)

(** ** Table extractor *)

(** An accepted row has a winner and a loser cell, and its record is made
    of the texts and points of the row by the marker. *)
Lemma scrape_row_accepted year row g :
  scrape_row year row = Some g ->
  exists winner loser,
    winner_el row = Some winner /\ loser_el row = Some loser /\
    let pts_win := parse_points (pts_win_el row) in
    let pts_lose := parse_points (pts_lose_el row) in
    let away := (text_or_empty (location_el row) =? "@")%string in
    Home_Team g = (if away then loser else winner) /\
    Away_Team g = (if away then winner else loser) /\
    Home_Score g = (if away then pts_lose else pts_win) /\
    Away_Score g = (if away then pts_win else pts_lose) /\
    Score_Difference g = Z.abs (pts_win - pts_lose) /\
    Winner g = (if pts_win =? pts_lose then "Tie" else winner).
Proof.
  unfold scrape_row. intros Hrow.
  destruct (has_col_header row); [discriminate |].
  destruct (winner_el row) as [winner |]; [| discriminate].
  destruct (loser_el row) as [loser |]; [| discriminate].
  exists winner, loser. do 2 (split; [reflexivity |]).
  destruct (_ || _ || _); [discriminate |].
  destruct (text_or_empty (location_el row) =? "@")%string;
    injection Hrow as <-; simpl; repeat split; reflexivity.
Qed.

(** C1. For every accepted row: with the location marker equal to [@]
    the home team is the team of the loser column and the away team that
    of the winner column, with the loser's points as home score and the
    winner's points as away score; with any other marker the winner
    column is home and the loser column away, with their points. *)
Theorem home_away_resolution (year : Z) (row : table_row) (g : game) :
  scrape_row year row = Some g ->
  let location := text_or_empty (location_el row) in
  (location = "@" ->
     Home_Team g = text_or_empty (loser_el row) /\
     Away_Team g = text_or_empty (winner_el row) /\
     Home_Score g = parse_points (pts_lose_el row) /\
     Away_Score g = parse_points (pts_win_el row)) /\
  (location <> "@" ->
     Home_Team g = text_or_empty (winner_el row) /\
     Away_Team g = text_or_empty (loser_el row) /\
     Home_Score g = parse_points (pts_win_el row) /\
     Away_Score g = parse_points (pts_lose_el row)).
Proof.
  intros Hrow location.
  destruct (scrape_row_accepted _ _ _ Hrow)
    as (winner & loser & -> & -> & Hh & Ha & Hhs & Has & _).
  cbv zeta in *. fold location in Hh, Ha, Hhs, Has. simpl text_or_empty.
  split; intros Hloc.
  - apply String.eqb_eq in Hloc. rewrite Hloc in *. auto.
  - apply String.eqb_neq in Hloc. rewrite Hloc in *. auto.
Qed.

Lemma home_away_resolution_witness :
  Home_Team game_marked = "Detroit Lions" /\
  Away_Team game_marked = "Chicago Bears" /\
  Home_Score game_marked = 23 /\
  Away_Score game_marked = 27.
Proof.
  exact (proj1 (home_away_resolution 2020 row_marked game_marked eq_refl) eq_refl).
Defined.

(** C8, as stated, fails: a row whose winner column holds the text [Tie]
    with unequal points is accepted, and its record has winner [Tie]
    with home score 10 and away score 7. *)
Lemma winner_tie_iff_counterexample :
  ~ (forall year row g, scrape_row year row = Some g ->
       Score_Difference g = Z.abs (Home_Score g - Away_Score g) /\
       (Winner g = "Tie" <-> Home_Score g = Away_Score g)).
Proof.
  intros H.
  destruct (H 2020 row_named_tie _ eq_refl) as [_ [Htie _]].
  specialize (Htie eq_refl). discriminate Htie.
Qed.

(** C8, amended. For every accepted row the score difference is the
    absolute value of home score minus away score; equal scores give the
    winner [Tie], unequal scores give the raw text of the winner column,
    whichever side was home; so the winner is [Tie] exactly when the
    scores are equal, as long as the winner column does not itself read
    [Tie]. *)
Theorem record_invariants (year : Z) (row : table_row) (g : game) :
  scrape_row year row = Some g ->
  Score_Difference g = Z.abs (Home_Score g - Away_Score g) /\
  (Home_Score g = Away_Score g -> Winner g = "Tie") /\
  (Home_Score g <> Away_Score g -> Winner g = text_or_empty (winner_el row)) /\
  (text_or_empty (winner_el row) <> "Tie" ->
     (Winner g = "Tie" <-> Home_Score g = Away_Score g)).
Proof.
  intros Hrow.
  destruct (scrape_row_accepted _ _ _ Hrow)
    as (winner & loser & -> & _ & _ & _ & Hhs & Has & Hdiff & Hwin).
  cbv zeta in *. simpl text_or_empty.
  set (pw := parse_points (pts_win_el row)) in *.
  set (pl := parse_points (pts_lose_el row)) in *.
  assert (Heq : Home_Score g = Away_Score g <-> pw = pl).
  { rewrite Hhs, Has. destruct (_ =? _)%string; lia. }
  assert (Habs : Z.abs (Home_Score g - Away_Score g) = Z.abs (pw - pl)).
  { rewrite Hhs, Has. destruct (_ =? _)%string; lia. }
  rewrite Hwin, Hdiff, Habs.
  destruct (Z.eqb_spec pw pl) as [Hp | Hp]; repeat split; try tauto; try congruence.
  all: intros; exfalso; tauto.
Qed.

Lemma record_invariants_witness :
  Score_Difference game_marked = Z.abs (Home_Score game_marked - Away_Score game_marked) /\
  Winner game_marked = "Chicago Bears".
Proof.
  pose proof (record_invariants 2020 row_marked game_marked eq_refl) as (Hd & _ & Hw & _).
  split; [exact Hd | apply Hw; discriminate].
Defined.

(** ** Primetime classifier *)

Lemma truthy_nonempty (s : string) : PyStr.truthy s = true <-> s <> "".
Proof. destruct s; simpl; split; congruence. Qed.

(** A kickoff time that parses is not empty. *)
Lemma parse_time_some_truthy time_str h m :
  parse_time time_str = (Some h, m) -> PyStr.truthy time_str = true.
Proof. destruct time_str; [discriminate | reflexivity]. Qed.

(** The classifier after its guard, in terms of the stripped day and the
    parsed hour. *)
Lemma detect_primetime_unfold day time_str season :
  day <> "" -> time_str <> "" ->
  detect_primetime day time_str season =
    let day := PyStr.strip day in
    let hour := (parse_time time_str).1 in
    if (day =? "Mon")%string && (1970 <=? season) then "MNF"
    else if (day =? "Thu")%string then (if 2006 <=? season then "TNF" else "")
    else if (day =? "Sun")%string then
      (if late hour && (1987 <=? season) then "SNF" else "")
    else if (day =? "Sat")%string then
      (if late hour then "Saturday Primetime" else "")
    else "".
Proof.
  intros Hd Ht. unfold detect_primetime.
  apply truthy_nonempty in Hd, Ht. rewrite Hd, Ht. simpl.
  destruct (parse_time time_str) as [hour minute]. simpl.
  destruct (late hour), (2006 <=? season), (1987 <=? season); cbn [andb];
    repeat match goal with |- context [if ?b then _ else _] => destruct b end;
    reflexivity.
Qed.

(** C2, as stated, fails: on a Monday of 1975 with an empty kickoff time
    the classifier returns the empty slot. *)
Lemma monday_rule_counterexample :
  ~ (forall day time_str season,
       day = "Mon" -> 1970 <= season ->
       detect_primetime day time_str season = "MNF").
Proof.
  intros H. specialize (H "Mon" "" 1975 eq_refl).
  assert (Hs : 1970 <= 1975) by lia. specialize (H Hs). discriminate H.
Qed.

(** C2, amended. For every kickoff-time string that is not empty and
    every season from 1970 on, the classifier returns [MNF] on the day
    [Mon], whatever the time parses to, also when it does not parse; an
    empty kickoff time parses to (None, None) and the classifier returns
    the empty slot for it. *)
Theorem monday_rule (day time_str : string) (season : Z) :
  day = "Mon" -> 1970 <= season ->
  (time_str <> "" -> detect_primetime day time_str season = "MNF") /\
  (time_str = "" ->
     parse_time time_str = (None, None) /\
     detect_primetime day time_str season = "").
Proof.
  intros -> Hs. split.
  - intros Ht. rewrite detect_primetime_unfold by (done || discriminate).
    cbv zeta. change (PyStr.strip "Mon") with "Mon". simpl.
    apply Z.leb_le in Hs. rewrite Hs. reflexivity.
  - intros ->. split; reflexivity.
Qed.

Lemma monday_rule_witness :
  detect_primetime "Mon" "TBD" 1975 = "MNF" /\
  parse_time "TBD" = (None, None).
Proof.
  split; [| reflexivity].
  assert (Hs : 1970 <= 1975) by lia.
  apply (proj1 (monday_rule "Mon" "TBD" 1975 eq_refl Hs)). discriminate.
Defined.

(** C7. For a kickoff time that parses to the hour [h]: on [Thu] the slot
    is [TNF] from season 2006 on, whatever the hour, and empty before; on
    [Sun] it is [SNF] when the season is 1987 or later and [h >= 19], and
    empty otherwise; on [Sat] it is [Saturday Primetime] when [h >= 19]
    and empty otherwise; on every day that none of the rules takes (the
    Monday rule included) it is empty. The five sample values hold. *)
Theorem primetime_remaining_rules :
  (forall (day time_str : string) (season h m : Z),
     parse_time time_str = (Some h, Some m) ->
     let slot := detect_primetime day time_str season in
     (day = "Thu" ->
        (2006 <= season -> slot = "TNF") /\ (season < 2006 -> slot = "")) /\
     (day = "Sun" ->
        (1987 <= season -> 19 <= h -> slot = "SNF") /\
        (season < 1987 \/ h < 19 -> slot = "")) /\
     (day = "Sat" ->
        (19 <= h -> slot = "Saturday Primetime") /\ (h < 19 -> slot = "")) /\
     (PyStr.strip day <> "Thu" -> PyStr.strip day <> "Sun" ->
      PyStr.strip day <> "Sat" ->
      (PyStr.strip day = "Mon" -> season < 1970) -> slot = "")) /\
  detect_primetime "Thu" "8:20PM" 2010 = "TNF" /\
  detect_primetime "Thu" "1:00PM" 2000 = "" /\
  detect_primetime "Sun" "8:20PM" 2020 = "SNF" /\
  detect_primetime "Sun" "1:00PM" 2020 = "" /\
  detect_primetime "Sat" "8:00PM" 2022 = "Saturday Primetime".
Proof.
  split; [| repeat split; reflexivity].
  intros day time_str season h m Hparse slot.
  assert (Ht : time_str <> "").
  { apply truthy_nonempty. eapply parse_time_some_truthy, Hparse. }
  split; [| split; [| split]].
  1-3: intros ->; subst slot;
       rewrite detect_primetime_unfold by (done || discriminate);
       rewrite Hparse; cbv zeta; simpl; split.
  - intros Hs. apply Z.leb_le in Hs. rewrite Hs. reflexivity.
  - intros Hs. apply Z.leb_gt in Hs. rewrite Hs. reflexivity.
  - intros Hs Hh. apply Z.leb_le in Hs, Hh. rewrite Hs, Hh. reflexivity.
  - intros [Hs | Hh].
    + apply Z.leb_gt in Hs. rewrite Hs, andb_false_r. reflexivity.
    + apply Z.leb_gt in Hh. rewrite Hh. reflexivity.
  - intros Hh. apply Z.leb_le in Hh. rewrite Hh. reflexivity.
  - intros Hh. apply Z.leb_gt in Hh. rewrite Hh. reflexivity.
  - intros Hthu Hsun Hsat Hmon. subst slot.
    destruct (decide (day = "")) as [-> | Hd].
    { unfold detect_primetime. reflexivity. }
    rewrite detect_primetime_unfold by done. cbv zeta.
    apply String.eqb_neq in Hthu, Hsun, Hsat. rewrite Hthu, Hsun, Hsat.
    destruct (String.eqb_spec (PyStr.strip day) "Mon") as [He | He]; [| reflexivity].
    specialize (Hmon He). apply Z.leb_gt in Hmon. rewrite Hmon. reflexivity.
Qed.

Lemma primetime_remaining_rules_witness :
  detect_primetime "Sun" "9:15 pm" 1990 = "SNF" /\
  detect_primetime "Thu" "9:15 pm" 1990 = "" /\
  detect_primetime "Sat" "9:15 pm" 1990 = "Saturday Primetime" /\
  detect_primetime "Fri" "9:15 pm" 1990 = "" /\
  detect_primetime "Mon" "9:15 pm" 1969 = "".
Proof.
  pose proof (proj1 primetime_remaining_rules) as H.
  assert (Hp : parse_time "9:15 pm" = (Some 21, Some 15)) by reflexivity.
  split; [| split; [| split; [| split]]].
  - apply (proj1 (proj1 (proj2 (H "Sun" _ 1990 _ _ Hp)) eq_refl)); lia.
  - apply (proj2 (proj1 (H "Thu" _ 1990 _ _ Hp) eq_refl)); lia.
  - apply (proj1 (proj1 (proj2 (proj2 (H "Sat" _ 1990 _ _ Hp))) eq_refl)); lia.
  - apply (proj2 (proj2 (proj2 (H "Fri" _ 1990 _ _ Hp)))); discriminate.
  - apply (proj2 (proj2 (proj2 (H "Mon" _ 1969 _ _ Hp)))); try discriminate.
    intros _. lia.
Defined.

(** ** Fetch orchestrator *)

(** The output of curl for a page followed by a line feed and the code
    429 splits into the page and that code. *)
Lemma split_output_429 (html : string) :
  split_output (html +:+ String "010" "429") = (html, "429").
Proof.
  unfold split_output.
  assert (H : rsplit_newline (html +:+ String "010" "429") = Some (html, "429")).
  { induction html as [| c html IH]; [reflexivity |].
    change (String c html +:+ String "010" "429")
      with (String c (html +:+ String "010" "429")).
    simpl. rewrite IH. reflexivity. }
  rewrite H. reflexivity.
Qed.

Section FetchFacts.

Variable net : nat -> string -> outcome.
Variable find_rows : string -> option (list table_row).

(** One turn of the loop on a rate-limited response. *)
Lemma fetch_loop_429 url attempt remaining w output :
  net (calls w) url = Completed output ->
  (split_output output).2 = "429" ->
  fetch_loop net url attempt (S remaining) w =
  fetch_loop net url (S attempt) remaining
    (World (S (calls w))
       ((trace w ++ [Run url]) ++ [Sleep (inject_Z ((Z.of_nat attempt + 1) * 15))])).
Proof.
  intros Hnet Hcode. simpl. unfold mbind, M_bind, run_curl. rewrite Hnet.
  destruct (split_output output) as [html code]. simpl in Hcode. subst code.
  reflexivity.
Qed.

(** One turn of the loop on a response with another status than 200 and
    429. *)
Lemma fetch_loop_other_status url attempt remaining w output :
  net (calls w) url = Completed output ->
  (split_output output).2 <> "200" ->
  (split_output output).2 <> "429" ->
  fetch_loop net url attempt (S remaining) w =
  fetch_loop net url (S attempt) remaining
    (World (S (calls w)) ((trace w ++ [Run url]) ++ [Sleep 5%Q])).
Proof.
  intros Hnet H200 H429. simpl. unfold mbind, M_bind, run_curl. rewrite Hnet.
  destruct (split_output output) as [html code]. simpl in H200, H429.
  apply String.eqb_neq in H200, H429. rewrite H200, H429. reflexivity.
Qed.

(** One turn of the loop when curl raises. *)
Lemma fetch_loop_raised url attempt remaining w :
  net (calls w) url = Raised ->
  fetch_loop net url attempt (S remaining) w =
  fetch_loop net url (S attempt) remaining
    (World (S (calls w)) ((trace w ++ [Run url]) ++ [Sleep 5%Q])).
Proof.
  intros Hnet. simpl. unfold mbind, M_bind, run_curl. rewrite Hnet. reflexivity.
Qed.

(** The loop starts curl at most [remaining] times. *)
Lemma fetch_loop_calls url remaining : forall attempt w,
  (calls (fetch_loop net url attempt remaining w).2 <= calls w + remaining)%nat.
Proof.
  induction remaining as [| remaining IH]; intros attempt w.
  - simpl. lia.
  - simpl. unfold mbind, M_bind, run_curl.
    destruct (net (calls w) url) as [output |].
    + destruct (split_output output) as [html code].
      destruct (_ && _); [simpl; lia |].
      destruct (_ =? _)%string;
        unfold sleep; simpl;
        match goal with |- context [fetch_loop net url ?a remaining ?w'] =>
          specialize (IH a w') end; simpl in IH; lia.
    + unfold sleep; simpl.
      match goal with |- context [fetch_loop net url ?a remaining ?w'] =>
        specialize (IH a w') end. simpl in IH. lia.
Qed.

(** A response is a page when its status is 200 and its body is not
    empty; the loop returns [None] when none of its attempts gets one,
    after [remaining] attempts. *)
Lemma fetch_loop_exhausted url remaining : forall attempt w,
  (forall i output, (i < remaining)%nat ->
     net (calls w + i) url = Completed output ->
     (split_output output).2 = "200" -> (split_output output).1 = "") ->
  (fetch_loop net url attempt remaining w).1 = None /\
  calls (fetch_loop net url attempt remaining w).2 = (calls w + remaining)%nat.
Proof.
  induction remaining as [| remaining IH]; intros attempt w Hfail.
  - simpl. split; [reflexivity | lia].
  - assert (Hnext : forall w', calls w' = S (calls w) ->
      (fetch_loop net url (S attempt) remaining w').1 = None /\
      calls (fetch_loop net url (S attempt) remaining w').2 = (calls w + S remaining)%nat).
    { intros w' Hw'. destruct (IH (S attempt) w') as [Hr Hc].
      - intros i output Hi. rewrite Hw'.
        replace (S (calls w) + i)%nat with (calls w + S i)%nat by lia.
        apply Hfail. lia.
      - split; [exact Hr | rewrite Hc, Hw'; lia]. }
    simpl. unfold mbind, M_bind, run_curl.
    destruct (net (calls w) url) as [output |] eqn:Hnet.
    + specialize (Hfail 0%nat output). rewrite Nat.add_0_r in Hfail.
      specialize (Hfail ltac:(lia) Hnet).
      destruct (split_output output) as [html code]. simpl in Hfail.
      destruct (String.eqb_spec code "200") as [H200 | H200].
      * rewrite (Hfail H200). simpl.
        subst code. simpl. apply Hnext. reflexivity.
      * simpl. destruct (_ =? _)%string; apply Hnext; reflexivity.
    + apply Hnext. reflexivity.
Qed.

(** A season whose page could not be fetched yields no games. *)
Lemma scrape_season_unavailable year w :
  (fetch_page net (BASE_URL year) MAX_RETRIES w).1 = None ->
  scrape_season net find_rows year w =
    ([], (fetch_page net (BASE_URL year) MAX_RETRIES w).2).
Proof.
  intros Hnone. unfold scrape_season, mbind, M_bind.
  destruct (fetch_page net (BASE_URL year) MAX_RETRIES w) as [html w'].
  simpl in Hnone. subst html. reflexivity.
Qed.

(** The loop of [main] on such a season: the year joins the failed
    seasons, the games stay as they are, and the loop goes on with the
    next season after the delay between seasons. *)
Lemma scrape_years_unavailable end_year year years st w :
  (fetch_page net (BASE_URL year) MAX_RETRIES w).1 = None ->
  scrape_years net find_rows end_year (year :: years) st w =
  scrape_years net find_rows end_year years (st.1, (st.2 ++ [year])%list)
    (let w' := (fetch_page net (BASE_URL year) MAX_RETRIES w).2 in
     if year <? end_year
     then World (calls w') (trace w' ++ [Sleep REQUEST_DELAY])%list
     else w').
Proof.
  intros Hnone. simpl. unfold mbind at 1. unfold M_bind at 1.
  rewrite (scrape_season_unavailable _ _ Hnone).
  unfold mbind, M_bind. destruct (year <? end_year); reflexivity.
Qed.

(** One turn of the loop over the seasons. *)
Lemma scrape_years_cons end_year year years st w :
  scrape_years net find_rows end_year (year :: years) st w =
  let r := scrape_season net find_rows year w in
  scrape_years net find_rows end_year years
    (match r.1 with
     | [] => (st.1, (st.2 ++ [year])%list)
     | _ => ((st.1 ++ r.1)%list, st.2)
     end)
    (if year <? end_year
     then World (calls r.2) (trace r.2 ++ [Sleep REQUEST_DELAY])%list
     else r.2).
Proof.
  simpl. unfold mbind, M_bind.
  destruct (scrape_season net find_rows year w) as [games w1].
  destruct (year <? end_year); reflexivity.
Qed.

(** The loop only appends: what it returns is what it was given, with
    the games and the failed seasons of a run from nothing after them. *)
Lemma scrape_years_acc end_year (years : list Z) : forall st w,
  scrape_years net find_rows end_year years st w =
  let r := scrape_years net find_rows end_year years ([], []) w in
  ((st.1 ++ r.1.1, st.2 ++ r.1.2)%list, r.2).
Proof.
  induction years as [| year years IH]; intros [games failed] w.
  - simpl. unfold mret, M_ret. rewrite !app_nil_r. reflexivity.
  - cbv zeta. rewrite !scrape_years_cons. cbv zeta.
    set (r := scrape_season net find_rows year w).
    set (w' := if year <? end_year then _ else _).
    rewrite (IH (match r.1 with [] => _ | _ => _ end) w').
    rewrite (IH (match r.1 with
                 | [] => (([], []).1, (([], []).2 ++ [year])%list)
                 | _ => ((([], []).1 ++ r.1)%list, ([], []).2)
                 end) w').
    cbv zeta. cbn [fst snd].
    destruct r.1 as [| g gs]; cbn [fst snd app]; rewrite <- ?app_assoc; reflexivity.
Qed.

(** A season on whose address no attempt ever gets a page is among the
    failed seasons when the loop is through, wherever it stands in the
    list of seasons. *)
Lemma scrape_years_records end_year year (years : list Z) :
  (forall n output, net n (BASE_URL year) = Completed output ->
     (split_output output).2 = "200" -> (split_output output).1 = "") ->
  year ∈ years ->
  forall st w, year ∈ (scrape_years net find_rows end_year years st w).1.2.
Proof.
  intros Hnet. induction years as [| year' years IH]; intros Hin st w.
  - apply elem_of_nil in Hin. contradiction.
  - destruct (decide (year' = year)) as [-> | Hne].
    + assert (Hnone : (fetch_page net (BASE_URL year) MAX_RETRIES w).1 = None).
      { apply (fetch_loop_exhausted (BASE_URL year) MAX_RETRIES 0%nat w).
        intros i output _. apply Hnet. }
      rewrite (scrape_years_unavailable _ _ _ _ _ Hnone), scrape_years_acc.
      cbv zeta. cbn [fst snd]. rewrite <- app_assoc.
      apply elem_of_app. right. apply elem_of_app. left.
      apply list_elem_of_singleton. reflexivity.
    + rewrite scrape_years_cons. cbv zeta. apply IH.
      apply elem_of_cons in Hin as [Heq | Hin]; [congruence | exact Hin].
Qed.

(** C5. [fetch_page] with the default [MAX_RETRIES] starts curl at most
    3 times. A response with status 429 at attempt [n] (counted from 1)
    is followed by a sleep of [15 * n] seconds, any other status than
    200 and 429, and a transport error or timeout, by a sleep of 5
    seconds, before the next attempt. Three responses 429 in a row give
    the sleeps 15, 30 and 45 and the result [None]. When no attempt
    gets a page the result is [None], a value and no exception; then
    [scrape_season] returns no games, and the loop of [main] puts the
    season at the end of the failed seasons, leaves the games as they
    are, and goes on with the seasons that remain: what it returns in
    the end holds the season among the failed ones, after those it was
    given and before those of the remaining seasons, and no game but
    those it was given and those of the remaining seasons. A season on
    whose address no attempt ever gets a page is among the failed
    seasons that a run over a range with that season returns. *)
Theorem fetch_retry_backoff :
  (forall url w,
     (calls (fetch_page net url MAX_RETRIES w).2 <= calls w + 3)%nat) /\
  (forall url n remaining w output,
     (1 <= n)%nat ->
     net (calls w) url = Completed output ->
     (split_output output).2 = "429" ->
     fetch_loop net url (n - 1) (S remaining) w =
     fetch_loop net url n remaining
       (World (S (calls w))
          ((trace w ++ [Run url]) ++ [Sleep (inject_Z (15 * Z.of_nat n))]))) /\
  (forall url attempt remaining w,
     (net (calls w) url = Raised \/
      exists output, net (calls w) url = Completed output /\
        (split_output output).2 <> "200" /\ (split_output output).2 <> "429") ->
     fetch_loop net url attempt (S remaining) w =
     fetch_loop net url (S attempt) remaining
       (World (S (calls w)) ((trace w ++ [Run url]) ++ [Sleep 5%Q]))) /\
  (forall url w,
     (forall i, (i < 3)%nat -> exists output,
        net (calls w + i) url = Completed output /\
        (split_output output).2 = "429") ->
     fetch_page net url MAX_RETRIES w =
     (None, World (calls w + 3)
              (trace w ++ [Run url; Sleep 15%Q; Run url; Sleep 30%Q;
                           Run url; Sleep 45%Q]))) /\
  (forall url retries w,
     (forall i output, (i < retries)%nat ->
        net (calls w + i) url = Completed output ->
        (split_output output).2 = "200" -> (split_output output).1 = "") ->
     (fetch_page net url retries w).1 = None) /\
  (forall end_year year years st w,
     (fetch_page net (BASE_URL year) MAX_RETRIES w).1 = None ->
     let w' := (fetch_page net (BASE_URL year) MAX_RETRIES w).2 in
     let w'' := if year <? end_year
                then World (calls w') (trace w' ++ [Sleep REQUEST_DELAY])%list
                else w' in
     let rest := scrape_years net find_rows end_year years ([], []) w'' in
     (scrape_season net find_rows year w).1 = [] /\
     scrape_years net find_rows end_year (year :: years) st w =
       scrape_years net find_rows end_year years (st.1, (st.2 ++ [year])%list) w'' /\
     scrape_years net find_rows end_year (year :: years) st w =
       ((st.1 ++ rest.1.1, st.2 ++ year :: rest.1.2)%list, rest.2) /\
     year ∈ (scrape_years net find_rows end_year (year :: years) st w).1.2) /\
  (forall start_year end_year year w,
     (forall n output, net n (BASE_URL year) = Completed output ->
        (split_output output).2 = "200" -> (split_output output).1 = "") ->
     start_year <= year <= end_year ->
     year ∈ (scrape_all net find_rows start_year end_year w).1.2).
Proof.
  split; [| split; [| split; [| split; [| split; [| split]]]]].
  - intros url w. apply (fetch_loop_calls url 3 0%nat w).
  - intros url n remaining w output Hn Hnet Hcode.
    destruct n as [| n]; [lia |].
    replace (S n - 1)%nat with n by lia.
    replace (15 * Z.of_nat (S n)) with ((Z.of_nat n + 1) * 15) by lia.
    apply (fetch_loop_429 url n remaining w output Hnet Hcode).
  - intros url attempt remaining w [Hraised | (output & Hnet & H200 & H429)].
    + apply fetch_loop_raised, Hraised.
    + eapply fetch_loop_other_status; eassumption.
  - intros url w H429.
    destruct (H429 0%nat) as (o0 & Hn0 & Hc0); [lia |].
    destruct (H429 1%nat) as (o1 & Hn1 & Hc1); [lia |].
    destruct (H429 2%nat) as (o2 & Hn2 & Hc2); [lia |].
    rewrite Nat.add_0_r in Hn0.
    unfold fetch_page, MAX_RETRIES.
    rewrite (fetch_loop_429 url 0 2 w o0 Hn0 Hc0).
    rewrite (fetch_loop_429 url 1 1 _ o1); [| simpl; rewrite <- Hn1; f_equal; lia | exact Hc1].
    rewrite (fetch_loop_429 url 2 0 _ o2); [| simpl; rewrite <- Hn2; f_equal; lia | exact Hc2].
    simpl. unfold mret, M_ret. f_equal. f_equal; [lia |].
    rewrite <- !app_assoc. reflexivity.
  - intros url retries w Hfail.
    apply (fetch_loop_exhausted url retries 0%nat w Hfail).
  - intros end_year year years st w Hnone. cbv zeta.
    pose proof (scrape_years_unavailable end_year year years st w Hnone) as Hstep.
    cbv zeta in Hstep.
    assert (Hall : scrape_years net find_rows end_year (year :: years) st w =
      (let rest := scrape_years net find_rows end_year years ([], [])
         (if year <? end_year
          then World (calls (fetch_page net (BASE_URL year) MAX_RETRIES w).2)
                 (trace (fetch_page net (BASE_URL year) MAX_RETRIES w).2 ++
                  [Sleep REQUEST_DELAY])%list
          else (fetch_page net (BASE_URL year) MAX_RETRIES w).2) in
       ((st.1 ++ rest.1.1, st.2 ++ year :: rest.1.2)%list, rest.2))).
    { rewrite Hstep, scrape_years_acc. cbv zeta. cbn [fst snd].
      rewrite <- app_assoc. reflexivity. }
    cbv zeta in Hall.
    split; [| split; [| split]].
    + rewrite (scrape_season_unavailable _ _ Hnone). reflexivity.
    + exact Hstep.
    + exact Hall.
    + rewrite Hall. cbn [fst snd]. apply elem_of_app. right. apply elem_of_cons. left.
      reflexivity.
  - intros start_year end_year year w Hnet Hrange. unfold scrape_all.
    apply (scrape_years_records end_year year _ Hnet).
    apply elem_of_seqZ. lia.
Qed.

End FetchFacts.

Lemma fetch_retry_backoff_witness :
  fetch_page net_rate_limited (BASE_URL 1999) MAX_RETRIES (World 0 []) =
    (None, World 3 [Run (BASE_URL 1999); Sleep 15%Q; Run (BASE_URL 1999); Sleep 30%Q;
                    Run (BASE_URL 1999); Sleep 45%Q]) /\
  (scrape_season net_rate_limited no_table 1999 (World 0 [])).1 = [] /\
  (scrape_years net_rate_limited no_table 2000 [1999; 2000] ([], []) (World 0 [])).1 =
    ([], [1999; 2000]) /\
  1999 ∈ (scrape_all net_rate_limited no_table 1998 2000 (World 0 [])).1.2.
Proof.
  pose proof (fetch_retry_backoff net_rate_limited no_table)
    as (_ & _ & _ & H429 & _ & Hcaller & Hrun).
  split; [| split; [| split]].
  - apply (H429 (BASE_URL 1999) (World 0 [])).
    intros i _. eexists. split; reflexivity.
  - apply (proj1 (Hcaller 2000 1999 [] ([], []) (World 0 []) eq_refl)).
  - rewrite (proj1 (proj2 (proj2 (Hcaller 2000 1999 [2000] ([], []) (World 0 []) eq_refl)))).
    reflexivity.
  - apply (Hrun 1998 2000 1999 (World 0 [])); [| lia].
    intros n output [= <-]. intros H200. discriminate H200.
Defined.

(** ** Betting reconciler: outcomes *)

Section Outcomes.

Import AddSpreads.

Lemma Qgtb_spec (x y : Q) : Qgtb x y = true <-> (y < x)%Q.
Proof.
  unfold Qgtb. rewrite (Qgt_alt x y). destruct (x ?= y)%Q; split; congruence.
Qed.

Lemma Qltb_spec (x y : Q) : Qltb x y = true <-> (x < y)%Q.
Proof.
  unfold Qltb. rewrite (Qlt_alt x y). destruct (x ?= y)%Q; split; congruence.
Qed.

(** The three outcomes of a comparison [x] against [y], as the two
    functions take them. *)
Lemma three_way (x y : Q) (above below level : string) :
  let r := if Qgtb x y then above else if Qltb x y then below else level in
  ((y < x)%Q -> r = above) /\ ((x < y)%Q -> r = below) /\ ((x == y)%Q -> r = level).
Proof.
  intros r. subst r. unfold Qgtb, Qltb.
  rewrite (Qgt_alt x y), (Qlt_alt x y), (Qeq_alt x y).
  destruct (x ?= y)%Q; repeat split; congruence.
Qed.

(** *** Rounding to binary64 *)

Lemma two_neq_0 : ~ (2 == 0)%Q.
Proof. discriminate. Qed.

Lemma pow2_pos (e : Z) : (0 < 2 ^ e)%Q.
Proof. apply Qpower_0_lt. reflexivity. Qed.

Lemma pow2_inject (k : Z) : 0 <= k -> (2 ^ k == inject_Z (2 ^ k))%Q.
Proof. intros Hk. symmetry. apply (Zpower_Qpower 2 k Hk). Qed.

(** [ilog2 x] is the exponent of the power of two at or under [x]. *)
Lemma ilog2_le (x : Q) : (0 < x)%Q -> (2 ^ ilog2 x <= x)%Q.
Proof.
  intros Hx. unfold ilog2.
  set (e := Z.log2 (Qnum x) - Z.log2 (Z.pos (Qden x))).
  destruct (Qle_bool (2 ^ e) x) eqn:Hb; [apply Qle_bool_iff, Hb |].
  clear Hb. subst e. destruct x as [n d]. cbn [Qnum Qden].
  assert (Hn : 0 < n) by (unfold Qlt in Hx; simpl in Hx; lia).
  pose proof (Z.log2_spec n Hn) as [Hn1 _].
  pose proof (Z.log2_spec (Z.pos d) ltac:(lia)) as [_ Hd2].
  pose proof (Z.log2_nonneg n) as Hln. pose proof (Z.log2_nonneg (Z.pos d)) as Hld.
  replace (Z.log2 n - Z.log2 (Z.pos d) - 1)
    with (Z.log2 n - Z.succ (Z.log2 (Z.pos d))) by lia.
  rewrite (Qpower_minus 2 _ _ two_neq_0).
  rewrite !pow2_inject by lia.
  rewrite (Qmake_Qdiv n d).
  set (a := 2 ^ Z.log2 n) in *. set (b := 2 ^ Z.succ (Z.log2 (Z.pos d))) in *.
  assert (Ha : 0 < a) by (apply Z.pow_pos_nonneg; lia).
  apply Qle_shift_div_l; [change 0%Q with (inject_Z 0); rewrite <- Zlt_Qlt; lia |].
  unfold Qdiv. rewrite <- Qmult_assoc, (Qmult_comm (/ _)), Qmult_assoc.
  apply Qle_shift_div_r; [change 0%Q with (inject_Z 0); rewrite <- Zlt_Qlt; lia |].
  rewrite <- !inject_Z_mult, <- Zle_Qle. nia.
Qed.

Lemma ilog2_lt (x : Q) : (0 < x)%Q -> (x < 2 ^ (ilog2 x + 1))%Q.
Proof.
  intros Hx. unfold ilog2.
  set (e := Z.log2 (Qnum x) - Z.log2 (Z.pos (Qden x))).
  destruct (Qle_bool (2 ^ e) x) eqn:Hb.
  - clear Hb. subst e. destruct x as [n d]. cbn [Qnum Qden].
    assert (Hn : 0 < n) by (unfold Qlt in Hx; simpl in Hx; lia).
    pose proof (Z.log2_spec n Hn) as [_ Hn2].
    pose proof (Z.log2_spec (Z.pos d) ltac:(lia)) as [Hd1 _].
    pose proof (Z.log2_nonneg n) as Hln. pose proof (Z.log2_nonneg (Z.pos d)) as Hld.
    replace (Z.log2 n - Z.log2 (Z.pos d) + 1)
      with (Z.succ (Z.log2 n) - Z.log2 (Z.pos d)) by lia.
    rewrite (Qpower_minus 2 _ _ two_neq_0).
    rewrite !pow2_inject by lia.
    rewrite (Qmake_Qdiv n d).
    set (a := 2 ^ Z.succ (Z.log2 n)) in *. set (b := 2 ^ Z.log2 (Z.pos d)) in *.
    assert (Hb : 0 < b) by (apply Z.pow_pos_nonneg; lia).
    apply Qlt_shift_div_l; [change 0%Q with (inject_Z 0); rewrite <- Zlt_Qlt; lia |].
    unfold Qdiv. rewrite <- Qmult_assoc, (Qmult_comm (/ _)), Qmult_assoc.
    apply Qlt_shift_div_r; [change 0%Q with (inject_Z 0); rewrite <- Zlt_Qlt; lia |].
    rewrite <- !inject_Z_mult, <- Zlt_Qlt. nia.
  - replace (e - 1 + 1) with e by lia.
    apply Qnot_le_lt. intros Hle. apply Qle_bool_iff in Hle. congruence.
Qed.

Lemma round_half_even_Z (x : Q) (k : Z) : (x == inject_Z k)%Q -> round_half_even x = k.
Proof.
  intros Hx. unfold round_half_even.
  rewrite (Qfloor_comp _ _ Hx), Qfloor_Z.
  assert (Hlt : (x - inject_Z k < 1 # 2)%Q) by (rewrite Hx; lra).
  rewrite (proj1 (Qlt_alt (x - inject_Z k) (1 # 2)) Hlt). reflexivity.
Qed.

(** Rounding leaves a binary64 value as it is. *)
Lemma round64_exact (x : Q) :
  binary64 x -> exists y, round64 x = Finite y /\ (y == x)%Q.
Proof.
  intros (m & e & Hx & Hm & He). unfold round64.
  destruct (Qeq_bool x 0) eqn:H0.
  { exists 0%Q. split; [reflexivity |]. symmetry. apply Qeq_bool_eq, H0. }
  apply Qeq_bool_neq in H0.
  set (q := last_digit x).
  assert (Habs : (Qabs x == inject_Z (Z.abs m) * 2 ^ e)%Q).
  { rewrite Hx, Qabs_Qmult, (Qabs_pos (2 ^ e)) by (apply Qlt_le_weak, pow2_pos).
    unfold Qabs, inject_Z. reflexivity. }
  assert (Hpos : (0 < Qabs x)%Q).
  { destruct (Qlt_le_dec 0 (Qabs x)) as [H | H]; [exact H |].
    exfalso. apply H0. pose proof (Qabs_nonneg x) as Hn.
    destruct (Qabs_Qle_condition x 0) as [Hc _].
    destruct Hc as [H1 H2]; [lra |]. lra. }
  assert (Hq : q <= e).
  { pose proof (ilog2_le _ Hpos) as Hlo.
    assert (Hup : (Qabs x < 2 ^ (53 + e))%Q).
    { rewrite Habs, (Qpower_plus 2 _ _ two_neq_0).
      apply Qmult_lt_compat_r; [apply pow2_pos |].
      rewrite pow2_inject by lia. rewrite <- Zlt_Qlt. exact Hm. }
    assert (Hlt : (2 ^ ilog2 (Qabs x) < 2 ^ (53 + e))%Q) by lra.
    apply Qpower_lt_compat_l_inv in Hlt; [| reflexivity].
    unfold q, last_digit. lia. }
  assert (Hscaled : (x / 2 ^ q == inject_Z (m * 2 ^ (e - q)))%Q).
  { rewrite Hx, inject_Z_mult, <- pow2_inject by lia.
    rewrite (Qpower_minus 2 _ _ two_neq_0).
    pose proof (pow2_pos q). pose proof (pow2_pos e). field. lra. }
  rewrite (round_half_even_Z _ _ Hscaled).
  assert (Hy : (inject_Z (m * 2 ^ (e - q)) * 2 ^ q == x)%Q).
  { rewrite <- Hscaled. pose proof (pow2_pos q). field. lra. }
  destruct (Qle_bool _ _) eqn:Hov.
  - exfalso. apply Qle_bool_iff in Hov. rewrite Hy in Hov.
    assert (Hup : (Qabs x < 2 ^ 1024)%Q).
    { rewrite Habs.
      apply Qlt_le_trans with (2 ^ 53 * 2 ^ e)%Q.
      - apply Qmult_lt_compat_r; [apply pow2_pos |].
        rewrite pow2_inject by lia. rewrite <- Zlt_Qlt. exact Hm.
      - rewrite <- (Qpower_plus 2 _ _ two_neq_0).
        apply Qpower_le_compat_l; [lia | discriminate]. }
    lra.
  - eexists. split; [reflexivity | exact Hy].
Qed.


(** The nearest integer: what [round_half_even] returns is at most as far
    from [t] as the integers on either side of it. *)
Lemma round_half_even_sides (t : Q) :
  let k := Qfloor t in
  (Qabs (inject_Z (round_half_even t) - t) <= t - inject_Z k)%Q /\
  (Qabs (inject_Z (round_half_even t) - t) <= inject_Z (k + 1) - t)%Q /\
  (Qabs (inject_Z (round_half_even t) - t) <= 1 # 2)%Q.
Proof.
  cbv zeta. unfold round_half_even.
  pose proof (Qfloor_le t) as Hlo. pose proof (Qlt_floor t) as Hhi.
  set (k := Qfloor t) in *. rewrite inject_Z_plus in *.
  change (inject_Z 1) with 1%Q in *.
  destruct (Qcompare_spec (t - inject_Z k) (1 # 2)) as [Hc | Hc | Hc].
  - destruct (Z.even k); [| rewrite inject_Z_plus; change (inject_Z 1) with 1%Q];
      repeat split; apply Qabs_Qle_condition; split; lra.
  - repeat split; apply Qabs_Qle_condition; split; lra.
  - rewrite inject_Z_plus; change (inject_Z 1) with 1%Q.
    repeat split; apply Qabs_Qle_condition; split; lra.
Qed.

Lemma round_half_even_nearest (t : Q) (j : Z) :
  (Qabs (inject_Z (round_half_even t) - t) <= Qabs (inject_Z j - t))%Q.
Proof.
  destruct (round_half_even_sides t) as (Hl & Hr & _).
  pose proof (Qfloor_le t) as Hlo. pose proof (Qlt_floor t) as Hhi.
  set (k := Qfloor t) in *.
  destruct (Z_le_gt_dec j k) as [Hj | Hj].
  - assert (Hq : (inject_Z j <= inject_Z k)%Q) by (rewrite <- Zle_Qle; exact Hj).
    rewrite (Qabs_neg (inject_Z j - t)) by lra. lra.
  - assert (Hq : (inject_Z (k + 1) <= inject_Z j)%Q) by (rewrite <- Zle_Qle; lia).
    rewrite (Qabs_pos (inject_Z j - t)) by lra. lra.
Qed.

(** The exponent of the last digit of the binary64 values around [x]. *)

Lemma round64_unfold (x : Q) :
  ~ (x == 0)%Q ->
  let y := (inject_Z (round_half_even (x / 2 ^ last_digit x)) * 2 ^ last_digit x)%Q in
  round64 x = if Qle_bool (2 ^ 1024) (Qabs y) then Infinity (Qltb x 0) else Finite y.
Proof.
  intros H0. unfold round64.
  destruct (Qeq_bool x 0) eqn:Hb; [apply Qeq_bool_eq in Hb; contradiction | reflexivity].
Qed.

Lemma scale_dist (t : Q) (j q : Z) :
  (Qabs (inject_Z j * 2 ^ q - t * 2 ^ q) == Qabs (inject_Z j - t) * 2 ^ q)%Q.
Proof.
  pose proof (pow2_pos q) as Hp.
  rewrite <- (Qabs_pos (2 ^ q)) at 3 by lra.
  rewrite <- Qabs_Qmult. apply Qabs_wd. ring.
Qed.

(** The rounded value is a nearest multiple of the last digit. *)
Lemma rounded_nearest_multiple (x : Q) (j : Z) :
  let q := last_digit x in
  let y := (inject_Z (round_half_even (x / 2 ^ q)) * 2 ^ q)%Q in
  (Qabs (y - x) <= Qabs (inject_Z j * 2 ^ q - x))%Q.
Proof.
  cbv zeta. set (q := last_digit x). pose proof (pow2_pos q) as Hp.
  assert (Hx : (x == x / 2 ^ q * 2 ^ q)%Q) by (field; lra).
  rewrite Hx at 2 3. rewrite !scale_dist.
  apply Qmult_le_compat_r; [apply round_half_even_nearest | lra].
Qed.

Lemma rounded_half_digit (x : Q) :
  let q := last_digit x in
  let y := (inject_Z (round_half_even (x / 2 ^ q)) * 2 ^ q)%Q in
  (Qabs (y - x) <= (1 # 2) * 2 ^ q)%Q.
Proof.
  cbv zeta. set (q := last_digit x). pose proof (pow2_pos q) as Hp.
  assert (Hx : (x == x / 2 ^ q * 2 ^ q)%Q) by (field; lra).
  rewrite Hx at 2. rewrite scale_dist.
  apply Qmult_le_compat_r; [apply round_half_even_sides | lra].
Qed.

Lemma Qabs_pos_neq (x : Q) : ~ (x == 0)%Q -> (0 < Qabs x)%Q.
Proof.
  intros H0. destruct (Qlt_le_dec 0 (Qabs x)) as [H | H]; [exact H |].
  exfalso. apply H0. destruct (Qabs_Qle_condition x 0) as [Hc _].
  destruct Hc as [H1 H2]; [exact H |]. lra.
Qed.

Lemma pow2_add (a b : Z) : (2 ^ (a + b) == 2 ^ a * 2 ^ b)%Q.
Proof. apply Qpower_plus, two_neq_0. Qed.

Lemma pow2_inject' (k : Z) : 0 <= k -> (inject_Z (2 ^ k) == 2 ^ k)%Q.
Proof. intros Hk. symmetry. apply pow2_inject, Hk. Qed.

Lemma pow2_le (a b : Z) : a <= b -> (2 ^ a <= 2 ^ b)%Q.
Proof. intros H. apply Qpower_le_compat_l; [exact H | discriminate]. Qed.

Lemma pow2_lt (a b : Z) : a < b -> (2 ^ a < 2 ^ b)%Q.
Proof. intros H. apply Qpower_lt_compat_l; [exact H | reflexivity]. Qed.

Lemma pow2_lt_inv (a b : Z) : (2 ^ a < 2 ^ b)%Q -> a < b.
Proof. intros H. apply (Qpower_lt_compat_l_inv 2); [exact H | reflexivity]. Qed.

(** The exponent of the last digit, by cases. *)
Lemma last_digit_cases (x : Q) :
  let e := ilog2 (Qabs x) in
  (last_digit x = e - 52 /\ -1074 <= e - 52) \/ (last_digit x = -1074 /\ e - 52 < -1074).
Proof. cbv zeta. unfold last_digit. lia. Qed.

(** A binary64 value is a multiple of the last digit around [x], or nearer
    to zero than the power of two at or under [x]. *)
Lemma binary64_multiple_or_small (x z : Q) :
  ~ (x == 0)%Q -> binary64 z ->
  (exists j, (z == inject_Z j * 2 ^ last_digit x)%Q) \/
  (last_digit x = ilog2 (Qabs x) - 52 /\ (Qabs z < 2 ^ ilog2 (Qabs x))%Q).
Proof.
  intros H0 (m & t & Hz & Hm & Ht).
  destruct (Z_le_gt_dec (last_digit x) t) as [Hq | Hq].
  - left. exists (m * 2 ^ (t - last_digit x)).
    rewrite Hz, inject_Z_mult, <- pow2_inject by lia.
    rewrite <- Qmult_assoc, <- pow2_add.
    replace (t - last_digit x + last_digit x) with t by lia. reflexivity.
  - right. destruct (last_digit_cases x) as [[Hl He] | [Hl He]]; [| lia].
    split; [exact Hl |].
    rewrite Hz, Qabs_Qmult, (Qabs_pos (2 ^ t)) by (apply Qlt_le_weak, pow2_pos).
    apply Qlt_le_trans with (2 ^ 53 * 2 ^ t)%Q.
    + apply Qmult_lt_compat_r; [apply pow2_pos |].
      rewrite pow2_inject by lia.
      change (Qabs (inject_Z m)) with (inject_Z (Z.abs m)).
      rewrite <- Zlt_Qlt. exact Hm.
    + rewrite <- pow2_add. apply pow2_le. lia.
Qed.

(** [round64] gives a nearest binary64 value. *)
Theorem round64_nearest (x y z : Q) :
  round64 x = Finite y -> binary64 z -> (Qabs (y - x) <= Qabs (z - x))%Q.
Proof.
  intros Hr Hz. unfold round64 in Hr.
  destruct (Qeq_bool x 0) eqn:H0.
  { apply Qeq_bool_eq in H0. injection Hr as <-.
    rewrite H0. setoid_replace (0 - 0)%Q with 0%Q using relation Qeq by ring. apply Qabs_nonneg. }
  apply Qeq_bool_neq in H0. fold (last_digit x) in Hr.
  destruct (Qle_bool _ _); [discriminate |]. injection Hr as <-.
  destruct (binary64_multiple_or_small x z H0 Hz) as [[j Hj] | [Hl Hsmall]].
  - rewrite Hj. apply rounded_nearest_multiple.
  - pose proof (ilog2_le _ (Qabs_pos_neq x H0)) as Hlo.
    set (e := ilog2 (Qabs x)) in *.
    assert (Hp : (2 ^ 52 * 2 ^ last_digit x == 2 ^ e)%Q).
    { rewrite <- pow2_add. replace (52 + last_digit x) with e by lia. reflexivity. }
    assert (Hzb : (- 2 ^ e < z < 2 ^ e)%Q) by (apply Qabs_Qlt_condition, Hsmall).
    destruct (Qlt_le_dec x 0) as [Hneg | Hpos].
    + apply Qle_trans with (Qabs (inject_Z (- 2 ^ 52) * 2 ^ last_digit x - x))%Q;
        [apply rounded_nearest_multiple |].
      rewrite inject_Z_opp, pow2_inject' by lia.
      setoid_replace (- 2 ^ 52 * 2 ^ last_digit x)%Q with (- (2 ^ 52 * 2 ^ last_digit x))%Q
        using relation Qeq by ring.
      rewrite Hp. rewrite (Qabs_neg x) in Hlo by lra.
      rewrite (Qabs_pos (- 2 ^ e - x)), (Qabs_pos (z - x)) by lra. lra.
    + apply Qle_trans with (Qabs (inject_Z (2 ^ 52) * 2 ^ last_digit x - x))%Q;
        [apply rounded_nearest_multiple |].
      rewrite pow2_inject' by lia.
      rewrite Hp. rewrite (Qabs_pos x) in Hlo by lra.
      rewrite (Qabs_neg (2 ^ e - x)), (Qabs_neg (z - x)) by lra. lra.
Qed.

Lemma round_half_even_floor (t : Q) :
  round_half_even t = Qfloor t \/ round_half_even t = Qfloor t + 1.
Proof.
  unfold round_half_even.
  destruct (t - inject_Z (Qfloor t) ?= 1 # 2)%Q; [destruct (Z.even _) | |]; auto.
Qed.

(** Rounding to an integer does not go past an integer. *)
Lemma round_half_even_ge (t : Q) (j : Z) :
  (inject_Z j <= t)%Q -> j <= round_half_even t.
Proof.
  intros Hj. apply Qfloor_resp_le in Hj. rewrite Qfloor_Z in Hj.
  destruct (round_half_even_floor t) as [-> | ->]; lia.
Qed.

Lemma round_half_even_le (t : Q) (j : Z) :
  (t <= inject_Z j)%Q -> round_half_even t <= j.
Proof.
  intros Hj. destruct (Qle_lt_or_eq _ _ Hj) as [Hlt | Heq].
  - pose proof (Qfloor_le t) as Hlo.
    assert (Hk : Qfloor t < j) by (rewrite Zlt_Qlt; lra).
    destruct (round_half_even_floor t) as [-> | ->]; lia.
  - rewrite (round_half_even_Z t j Heq). lia.
Qed.

(** The scaled value, by the sign of [x]. *)
Lemma scaled_bounds (x : Q) (q lo hi : Z) :
  ~ (x == 0)%Q ->
  (2 ^ lo * 2 ^ q <= Qabs x)%Q -> (Qabs x <= 2 ^ hi * 2 ^ q)%Q -> 0 <= lo -> 0 <= hi ->
  let m := round_half_even (x / 2 ^ q) in
  2 ^ lo <= Z.abs m <= 2 ^ hi.
Proof.
  intros H0 Hlo Hhi Hl Hh. cbv zeta. pose proof (pow2_pos q) as Hp.
  assert (Hx : (x == x / 2 ^ q * 2 ^ q)%Q) by (field; lra).
  set (t := (x / 2 ^ q)%Q) in *.
  assert (Hplo : (0 < 2 ^ lo)%Q) by apply pow2_pos.
  destruct (Qlt_le_dec x 0) as [Hneg | Hpos].
  - rewrite (Qabs_neg x) in Hlo, Hhi by lra.
    assert (Ht1 : (t <= inject_Z (- 2 ^ lo))%Q).
    { rewrite inject_Z_opp, pow2_inject' by lia.
      apply Qmult_lt_0_le_reg_r with (2 ^ q)%Q; [exact Hp |]. lra. }
    assert (Ht2 : (inject_Z (- 2 ^ hi) <= t)%Q).
    { rewrite inject_Z_opp, pow2_inject' by lia.
      apply Qmult_lt_0_le_reg_r with (2 ^ q)%Q; [exact Hp |]. lra. }
    apply round_half_even_le in Ht1. apply round_half_even_ge in Ht2.
    pose proof (Z.pow_pos_nonneg 2 lo ltac:(lia) Hl). lia.
  - rewrite (Qabs_pos x) in Hlo, Hhi by lra.
    assert (Ht1 : (inject_Z (2 ^ lo) <= t)%Q).
    { rewrite pow2_inject' by lia.
      apply Qmult_lt_0_le_reg_r with (2 ^ q)%Q; [exact Hp |]. lra. }
    assert (Ht2 : (t <= inject_Z (2 ^ hi))%Q).
    { rewrite pow2_inject' by lia.
      apply Qmult_lt_0_le_reg_r with (2 ^ q)%Q; [exact Hp |]. lra. }
    apply round_half_even_le in Ht2. apply round_half_even_ge in Ht1.
    pose proof (Z.pow_pos_nonneg 2 lo ltac:(lia) Hl). lia.
Qed.

Lemma scaled_upper (x : Q) (q hi : Z) :
  (Qabs x <= 2 ^ hi * 2 ^ q)%Q -> 0 <= hi ->
  Z.abs (round_half_even (x / 2 ^ q)) <= 2 ^ hi.
Proof.
  intros Hhi Hh. pose proof (pow2_pos q) as Hp.
  assert (Hx : (x == x / 2 ^ q * 2 ^ q)%Q) by (field; lra).
  set (t := (x / 2 ^ q)%Q) in *.
  apply Qabs_Qle_condition in Hhi. destruct Hhi as [H1 H2].
  assert (Ht1 : (t <= inject_Z (2 ^ hi))%Q).
  { rewrite pow2_inject' by lia.
    apply Qmult_lt_0_le_reg_r with (2 ^ q)%Q; [exact Hp |]. lra. }
  assert (Ht2 : (inject_Z (- 2 ^ hi) <= t)%Q).
  { rewrite inject_Z_opp, pow2_inject' by lia.
    apply Qmult_lt_0_le_reg_r with (2 ^ q)%Q; [exact Hp |]. lra. }
  apply round_half_even_le in Ht1. apply round_half_even_ge in Ht2. lia.
Qed.

Lemma Qabs_scaled (m q : Z) :
  (Qabs (inject_Z m * 2 ^ q) == inject_Z (Z.abs m) * 2 ^ q)%Q.
Proof.
  rewrite Qabs_Qmult, (Qabs_pos (2 ^ q)) by (apply Qlt_le_weak, pow2_pos). reflexivity.
Qed.

(** What [round64] returns is a binary64 value. *)
Theorem round64_binary64 (x y : Q) : round64 x = Finite y -> binary64 y.
Proof.
  intros Hr. unfold round64 in Hr.
  destruct (Qeq_bool x 0) eqn:H0.
  { injection Hr as <-. exists 0, 0. split; [reflexivity | split; [reflexivity | lia]]. }
  apply Qeq_bool_neq in H0. fold (last_digit x) in Hr.
  destruct (Qle_bool _ _) eqn:Hov; [discriminate |]. injection Hr as <-.
  assert (Hfin : (Qabs (inject_Z (round_half_even (x / 2 ^ last_digit x)) *
                        2 ^ last_digit x) < 2 ^ 1024)%Q).
  { apply Qnot_le_lt. intros H. apply Qle_bool_iff in H. congruence. }
  rewrite Qabs_scaled in Hfin.
  pose proof (ilog2_le _ (Qabs_pos_neq x H0)) as Hlo.
  pose proof (ilog2_lt _ (Qabs_pos_neq x H0)) as Hhi.
  set (e := ilog2 (Qabs x)) in *. set (q := last_digit x) in *.
  set (m := round_half_even (x / 2 ^ q)) in *.
  pose proof (pow2_pos q) as Hp.
  destruct (last_digit_cases x) as [[Hl He] | [Hl He]]; fold q e in Hl, He.
  - assert (Hm : 2 ^ 52 <= Z.abs m <= 2 ^ 53).
    { apply scaled_bounds; [exact H0 | | | lia | lia].
      - rewrite <- pow2_add. replace (52 + q) with e by lia. exact Hlo.
      - rewrite <- pow2_add. replace (53 + q) with (e + 1) by lia.
        apply Qlt_le_weak, Hhi. }
    assert (Hq : q <= 971).
    { assert (H : (2 ^ (52 + q) < 2 ^ 1024)%Q).
      { rewrite pow2_add. apply Qle_lt_trans with (inject_Z (Z.abs m) * 2 ^ q)%Q;
          [| exact Hfin].
        apply Qmult_le_compat_r; [| lra].
        rewrite pow2_inject by lia. rewrite <- Zle_Qle. lia. }
      apply pow2_lt_inv in H. lia. }
    destruct (Z.eq_dec (Z.abs m) (2 ^ 53)) as [Hmax | Hmax].
    + assert (Hq' : q <= 970).
      { assert (H : (2 ^ (53 + q) < 2 ^ 1024)%Q).
        { rewrite pow2_add, pow2_inject by lia. rewrite <- Hmax. exact Hfin. }
        apply pow2_lt_inv in H. lia. }
      exists (m / 2), (q + 1). split; [| split; [| lia]].
      * assert (Hm2 : m = 2 * (m / 2)).
        { assert (Hcases : m = 2 ^ 53 \/ m = - 2 ^ 53) by lia.
          destruct Hcases as [-> | ->]; reflexivity. }
        rewrite Hm2 at 1. rewrite inject_Z_mult, pow2_add.
        change (2 ^ 1)%Q with 2%Q. change (inject_Z 2) with 2%Q. ring.
      * assert (Hcases : m = 2 ^ 53 \/ m = - 2 ^ 53) by lia.
        destruct Hcases as [-> | ->]; reflexivity.
    + exists m, q. split; [reflexivity | split; lia].
  - assert (Hm : Z.abs m <= 2 ^ 52).
    { apply scaled_upper; [| lia].
      apply Qlt_le_weak, Qlt_le_trans with (2 ^ (e + 1))%Q; [exact Hhi |].
      rewrite <- pow2_add. apply pow2_le. lia. }
    exists m, q. split; [reflexivity | split; [| lia]].
    assert (H5253 : 2 ^ 52 < 2 ^ 53) by reflexivity. lia.
Qed.

(** Halfway between two integers the even one is taken. *)
Lemma round_half_even_up (t : Q) (k : Z) :
  Z.even k = false -> (inject_Z k + (1 # 2) <= t)%Q -> k + 1 <= round_half_even t.
Proof.
  intros Hodd Ht.
  assert (Hk : k <= Qfloor t).
  { rewrite <- (Qfloor_Z k). apply Qfloor_resp_le. lra. }
  destruct (Z.eq_dec (Qfloor t) k) as [Heq | Hne].
  - unfold round_half_even. rewrite Heq.
    destruct (Qcompare_spec (t - inject_Z k) (1 # 2)) as [Hc | Hc | Hc].
    + rewrite Hodd. lia.
    + lra.
    + lia.
  - destruct (round_half_even_floor t) as [-> | ->]; lia.
Qed.

Lemma round_half_even_down (t : Q) (k : Z) :
  Z.even k = true -> (t <= inject_Z k + (1 # 2))%Q -> round_half_even t <= k.
Proof.
  intros Heven Ht. pose proof (Qfloor_le t) as Hlo.
  assert (Hk : Qfloor t <= k).
  { assert (H : Qfloor t < k + 1); [| lia].
    rewrite Zlt_Qlt, inject_Z_plus. change (inject_Z 1) with 1%Q. lra. }
  destruct (Z.eq_dec (Qfloor t) k) as [Heq | Hne].
  - unfold round_half_even. rewrite Heq.
    destruct (Qcompare_spec (t - inject_Z k) (1 # 2)) as [Hc | Hc | Hc].
    + rewrite Heven. lia.
    + lia.
    + lra.
  - destruct (round_half_even_floor t) as [-> | ->]; lia.
Qed.

Lemma Qabs_ge_dist (x y : Q) : (Qabs y - Qabs (y - x) <= Qabs x)%Q.
Proof.
  pose proof (Qabs_triangle (y - x) x) as H.
  setoid_replace (y - x + x)%Q with y using relation Qeq in H by ring. lra.
Qed.

Lemma pow2_1024 : (2 ^ 1024 == 9007199254740992 * 2 ^ 971)%Q.
Proof. change 9007199254740992%Q with (2 ^ 53)%Q. rewrite <- pow2_add. reflexivity. Qed.

Lemma pow2_970 : (2 ^ 971 == 2 * 2 ^ 970)%Q.
Proof. change 2%Q with (2 ^ 1)%Q at 2. rewrite <- pow2_add. reflexivity. Qed.

(** [round64] gives an infinity from [2 ^ 1024 - 2 ^ 970] on. *)
Theorem round64_overflow (x : Q) :
  round64 x = Infinity (Qltb x 0) <-> (2 ^ 1024 - 2 ^ 970 <= Qabs x)%Q.
Proof.
  pose proof (pow2_pos 970) as H970. pose proof pow2_1024 as H1024.
  pose proof pow2_970 as H971.
  destruct (Qeq_bool x 0) eqn:H0.
  { unfold round64. rewrite H0.
    assert (Hz : (x == 0)%Q) by (apply Qeq_bool_eq, H0).
    split; [discriminate |]. intros Hx. exfalso.
    rewrite Hz in Hx. change (Qabs 0) with 0%Q in Hx. pose proof (pow2_pos 971). lra. }
  apply Qeq_bool_neq in H0. rewrite (round64_unfold x H0). cbv zeta.
  pose proof (ilog2_le _ (Qabs_pos_neq x H0)) as Hlo.
  pose proof (ilog2_lt _ (Qabs_pos_neq x H0)) as Hhi.
  pose proof (rounded_half_digit x) as Hhalf. cbv zeta in Hhalf.
  pose proof (last_digit_cases x) as Hcases. cbv zeta in Hcases.
  set (e := ilog2 (Qabs x)) in *. set (q := last_digit x) in *.
  set (m := round_half_even (x / 2 ^ q)) in *.
  pose proof (pow2_pos q) as Hp.
  destruct (Qle_bool (2 ^ 1024) (Qabs (inject_Z m * 2 ^ q))) eqn:Hov.
  - split; [intros _ | reflexivity].
    apply Qle_bool_iff in Hov.
    destruct (Z_le_gt_dec 1024 e) as [He | He].
    + apply Qle_trans with (2 ^ e)%Q; [| exact Hlo].
      pose proof (pow2_le 1024 e He). lra.
    + assert (Hq : (2 ^ q <= 2 ^ 971)%Q) by (apply pow2_le; lia).
      pose proof (Qabs_ge_dist x (inject_Z m * 2 ^ q)). lra.
  - split; [discriminate |]. intros Hx. exfalso.
    assert (Hfin : (Qabs (inject_Z m * 2 ^ q) < 2 ^ 1024)%Q).
    { apply Qnot_le_lt. intros H. apply Qle_bool_iff in H. congruence. }
    rewrite Qabs_scaled in Hfin.
    assert (He : 1023 <= e).
    { assert (H : (2 ^ 1023 < 2 ^ (e + 1))%Q).
      { apply Qle_lt_trans with (Qabs x); [| exact Hhi].
        assert (H23 : (2 ^ 1024 == 2 * 2 ^ 1023)%Q).
        { change 2%Q with (2 ^ 1)%Q at 2. rewrite <- pow2_add. reflexivity. }
        assert (H70 : (2 ^ 970 <= 2 ^ 1023)%Q) by (apply pow2_le; lia).
        lra. }
      apply pow2_lt_inv in H. lia. }
    assert (Hq : q = e - 52) by lia.
    destruct (Z.eq_dec e 1023) as [He' | He'].
    + assert (Hq' : q = 971) by lia.
      assert (Hm' : m = round_half_even (x / 2 ^ 971)) by (unfold m; rewrite Hq'; reflexivity).
      rewrite Hq' in Hfin. clearbody m.
      assert (Hm : 2 ^ 53 <= Z.abs m).
      { assert (Hxt : (x == x / 2 ^ 971 * 2 ^ 971)%Q) by (field; lra).
        pose proof (pow2_pos 971) as Hp971.
        destruct (Qlt_le_dec x 0) as [Hneg | Hpos].
        - rewrite (Qabs_neg x) in Hx by lra.
          assert (Ht : (x / 2 ^ 971 <= inject_Z (- 2 ^ 53) + (1 # 2))%Q).
          { change (inject_Z (- 2 ^ 53)) with (- 9007199254740992)%Q.
            apply Qmult_lt_0_le_reg_r with (2 ^ 971)%Q; [exact Hp971 |].
            rewrite <- Hxt. lra. }
          apply round_half_even_down in Ht; [| reflexivity]. lia.
        - rewrite (Qabs_pos x) in Hx by lra.
          assert (Ht : (inject_Z (2 ^ 53 - 1) + (1 # 2) <= x / 2 ^ 971)%Q).
          { change (inject_Z (2 ^ 53 - 1)) with 9007199254740991%Q.
            apply Qmult_lt_0_le_reg_r with (2 ^ 971)%Q; [exact Hp971 |].
            rewrite <- Hxt. lra. }
          apply round_half_even_up in Ht; [| reflexivity]. lia. }
      assert (H : (9007199254740992 * 2 ^ 971 <= inject_Z (Z.abs m) * 2 ^ 971)%Q).
      { apply Qmult_le_compat_r; [| lra].
        change 9007199254740992%Q with (inject_Z (2 ^ 53)).
        rewrite <- Zle_Qle. exact Hm. }
      lra.
    + assert (Hm : 2 ^ 52 <= Z.abs m <= 2 ^ 53).
      { apply scaled_bounds; [exact H0 | | | lia | lia].
        - rewrite <- pow2_add. replace (52 + q) with e by lia. exact Hlo.
        - rewrite <- pow2_add. replace (53 + q) with (e + 1) by lia.
          apply Qlt_le_weak, Hhi. }
      assert (H : (2 ^ 52 * 2 ^ q <= inject_Z (Z.abs m) * 2 ^ q)%Q).
      { apply Qmult_le_compat_r; [| lra].
        rewrite pow2_inject by lia. rewrite <- Zle_Qle. lia. }
      rewrite <- pow2_add in H. replace (52 + q) with e in H by lia.
      pose proof (pow2_le 1024 e ltac:(lia)). lra.
Qed.

Lemma binary64_comp (x y : Q) : (x == y)%Q -> binary64 x -> binary64 y.
Proof.
  intros Hxy (m & e & Hx & Hm). exists m, e. split; [| exact Hm].
  rewrite <- Hxy. exact Hx.
Qed.

(** The integers of at most 53 binary digits are binary64 values. *)
Lemma binary64_int (n : Z) : Z.abs n < 2 ^ 53 -> binary64 (inject_Z n).
Proof.
  intros Hn. exists n, 0. split; [| split; [exact Hn | lia]].
  change (2 ^ 0)%Q with 1%Q. ring.
Qed.

(** The halves of such integers too. *)
Lemma binary64_half (k : Z) : Z.abs k < 2 ^ 53 -> binary64 (k # 2).
Proof.
  intros Hk. exists k, (-1). split; [| split; [exact Hk | lia]].
  change (2 ^ (-1))%Q with (1 # 2)%Q. rewrite (Qmake_Qdiv k 2). field.
Qed.

(** What [round64] returns is finite or the infinity on the side of [x]. *)
Lemma round64_infinity (x : Q) (negative : bool) :
  round64 x = Infinity negative ->
  negative = Qltb x 0 /\ (2 ^ 1024 - 2 ^ 970 <= Qabs x)%Q.
Proof.
  intros Hr.
  assert (Hs : negative = Qltb x 0).
  { unfold round64 in Hr. destruct (Qeq_bool x 0); [discriminate |].
    destruct (Qle_bool _ _); [| discriminate]. injection Hr as <-. reflexivity. }
  split; [exact Hs |]. apply round64_overflow. rewrite <- Hs. exact Hr.
Qed.

Lemma round64_finite (x : Q) :
  (Qabs x < 2 ^ 1024 - 2 ^ 970)%Q -> exists y, round64 x = Finite y.
Proof.
  intros Hx. destruct (round64 x) as [y | negative] eqn:Hr; [exists y; reflexivity |].
  apply round64_infinity in Hr. lra.
Qed.

(** Python converts an [int] to a float, without [OverflowError], exactly
    when its absolute value is less than [2 ^ 1024 - 2 ^ 970]. *)
Lemma fits_float_iff (n : Z) : fits_float n <-> Z.abs n < 2 ^ 1024 - 2 ^ 970.
Proof.
  assert (Hb : (2 ^ 1024 - 2 ^ 970 == inject_Z (2 ^ 1024 - 2 ^ 970))%Q).
  { unfold Zminus. rewrite inject_Z_plus, inject_Z_opp, !pow2_inject' by lia. reflexivity. }
  unfold fits_float, float_of_int. split.
  - intros [x Hx]. apply Z.nle_gt. intros Hle.
    assert (Hinf : round64 (inject_Z n) = Infinity (Qltb (inject_Z n) 0)).
    { apply round64_overflow. rewrite Hb.
      change (Qabs (inject_Z n)) with (inject_Z (Z.abs n)). rewrite <- Zle_Qle. exact Hle. }
    congruence.
  - intros Hn. apply round64_finite. rewrite Hb.
    change (Qabs (inject_Z n)) with (inject_Z (Z.abs n)). rewrite <- Zlt_Qlt. exact Hn.
Qed.

(** Rounding does not go past a binary64 value: the rounded value is on
    the side of it where the number is, or the value itself. *)
Lemma round64_side (x z : Q) :
  binary64 z ->
  match round64 x with
  | Finite y => ((x <= z)%Q -> (y <= z)%Q) /\ ((z <= x)%Q -> (z <= y)%Q)
  | Infinity negative =>
      if negative then (x < z)%Q else (z < x)%Q
  end.
Proof.
  intros Hz. destruct (round64 x) as [y | negative] eqn:Hr.
  - pose proof (round64_nearest x y z Hr Hz) as Hn. split; intros Hxz.
    + destruct (Qlt_le_dec z y) as [Hlt | Hle]; [| exact Hle]. exfalso.
      rewrite (Qabs_pos (y - x)), (Qabs_pos (z - x)) in Hn by lra. lra.
    + destruct (Qlt_le_dec y z) as [Hlt | Hle]; [| exact Hle]. exfalso.
      rewrite (Qabs_neg (y - x)), (Qabs_neg (z - x)) in Hn by lra. lra.
  - apply round64_infinity in Hr. destruct Hr as [-> Hbig].
    destruct Hz as (m & e & Hz & Hm & He).
    assert (Hzb : (Qabs z < 2 ^ 1024 - 2 ^ 970)%Q).
    { rewrite Hz, Qabs_scaled.
      apply Qle_lt_trans with (inject_Z (2 ^ 53 - 1) * 2 ^ 971)%Q.
      - apply Qle_trans with (inject_Z (2 ^ 53 - 1) * 2 ^ e)%Q.
        + apply Qmult_le_compat_r; [| apply Qlt_le_weak, pow2_pos].
          rewrite <- Zle_Qle. lia.
        + rewrite !(Qmult_comm (inject_Z _)).
          apply Qmult_le_compat_r; [apply pow2_le; lia | discriminate].
      - pose proof pow2_1024. pose proof pow2_970. pose proof (pow2_pos 970).
        change (inject_Z (2 ^ 53 - 1)) with 9007199254740991%Q. lra. }
    apply Qabs_Qlt_condition in Hzb.
    destruct (Qltb x 0) eqn:Hs.
    + apply Qltb_spec in Hs. rewrite (Qabs_neg x) in Hbig by lra. lra.
    + assert (Hpos : (0 <= x)%Q).
      { apply Qnot_lt_le. intros H. apply Qltb_spec in H. congruence. }
      rewrite (Qabs_pos x) in Hbig by lra. lra.
Qed.


(** [round64] and the sum of two floats give the values that the IEEE 754
    specification of the standard library gives, on the samples. *)
Example round64_as_specified :
  forallb (fun me => same_value (round64 (dyadic me)) (spec64 me)) rounding_samples = true /\
  forallb (fun p => same_value (round64 (dyadic p.1 + dyadic p.2))
                      (SFadd 53 1024 (spec64 p.1) (spec64 p.2))) sum_samples = true.
Proof. split; vm_compute; reflexivity. Qed.

(** Where the score and its sum with the line are binary64 values the
    two roundings of [home_score + spread] do nothing. *)
Lemma adjusted_exact (h : Z) (s : Q) :
  binary64 (inject_Z h) -> binary64 (inject_Z h + s) ->
  exists y, float_add (float_of_int h) s = Finite y /\ (y == inject_Z h + s)%Q.
Proof.
  intros Hh Hs. unfold float_of_int.
  destruct (round64_exact _ Hh) as (y1 & -> & Hy1). cbn [float_add].
  assert (Hs' : binary64 (y1 + s)).
  { apply (binary64_comp (inject_Z h + s)); [rewrite Hy1; reflexivity | exact Hs]. }
  destruct (round64_exact _ Hs') as (y2 & -> & Hy2).
  exists y2. split; [reflexivity |]. rewrite Hy2, Hy1. reflexivity.
Qed.

Lemma spread_result_exact (h a : Z) (s : Q) :
  binary64 (inject_Z h) -> binary64 (inject_Z h + s) ->
  compute_spread_result (Some h) (Some a) (Some s) =
    if Qgtb (inject_Z h + s) (inject_Z a) then "Covered"
    else if Qltb (inject_Z h + s) (inject_Z a) then "Lost" else "Push".
Proof.
  intros Hh Hs. unfold compute_spread_result.
  destruct (adjusted_exact h s Hh Hs) as (y & -> & Hy). cbn [float_gtb float_ltb].
  unfold Qgtb, Qltb. rewrite (Qcompare_comp _ _ Hy _ _ (Qeq_refl (inject_Z a))).
  reflexivity.
Qed.

(** The sum of a score and a half-point line, both under [2 ^ 51]. *)
Lemma binary64_half_point (h k : Z) (s : Q) :
  (s == k # 2)%Q -> Z.abs h < 2 ^ 51 -> Z.abs k < 2 ^ 51 ->
  binary64 (inject_Z h) /\ binary64 (inject_Z h + s).
Proof.
  intros Hs Hh Hk.
  assert (H51 : 2 ^ 53 = 4 * 2 ^ 51) by reflexivity.
  split; [apply binary64_int; lia |].
  apply (binary64_comp ((2 * h + k) # 2)); [| apply binary64_half; lia].
  rewrite Hs, (Qmake_Qdiv k 2), (Qmake_Qdiv (2 * h + k) 2), inject_Z_plus, inject_Z_mult.
  field.
Qed.

(** Where the two scores are binary64 values, as all under [2 ^ 53] are,
    rounding can turn a result into [Push] and nothing else. *)
Lemma spread_result_sound (h a : Z) (s : Q) :
  Z.abs h < 2 ^ 53 -> Z.abs a < 2 ^ 53 ->
  let r := compute_spread_result (Some h) (Some a) (Some s) in
  (r = "Covered" -> (inject_Z a < inject_Z h + s)%Q) /\
  (r = "Lost" -> (inject_Z h + s < inject_Z a)%Q) /\
  ((inject_Z h + s == inject_Z a)%Q -> r = "Push").
Proof.
  intros Hh Ha. cbv zeta. unfold compute_spread_result, float_of_int.
  destruct (round64_exact _ (binary64_int h Hh)) as (y1 & -> & Hy1). cbn [float_add].
  pose proof (round64_side (y1 + s) (inject_Z a) (binary64_int a Ha)) as Hside.
  destruct (round64 (y1 + s)) as [y | negative]; cbn [float_gtb float_ltb].
  - destruct Hside as [Hle Hge].
    destruct (Qgtb y (inject_Z a)) eqn:Hgt; [| destruct (Qltb y (inject_Z a)) eqn:Hlt].
    + apply Qgtb_spec in Hgt. split; [| split]; [| discriminate |].
      * intros _. apply Qnot_le_lt. intros H. rewrite <- Hy1 in H. apply Hle in H. lra.
      * intros H. rewrite <- Hy1 in H. exfalso.
        assert (H' : (y1 + s <= inject_Z a)%Q) by lra. apply Hle in H'. lra.
    + apply Qltb_spec in Hlt. split; [discriminate | split].
      * intros _. apply Qnot_le_lt. intros H. rewrite <- Hy1 in H. apply Hge in H. lra.
      * intros H. rewrite <- Hy1 in H. exfalso.
        assert (H' : (inject_Z a <= y1 + s)%Q) by lra. apply Hge in H'. lra.
    + split; [discriminate | split; [discriminate | reflexivity]].
  - destruct negative; cbn [negb].
    + split; [discriminate | split].
      * intros _. rewrite <- Hy1. exact Hside.
      * intros H. rewrite <- Hy1 in H. lra.
    + split; [| split; [discriminate |]].
      * intros _. rewrite <- Hy1. exact Hside.
      * intros H. rewrite <- Hy1 in H. lra.
Qed.

(** C3, as stated, fails: the home score 1 with the spread
    [1 + 2 ^ -52], a binary64 value, is more than the away score 2, but
    their float sum is 2, and the result is [Push]. *)
Lemma bet_results_counterexample :
  ~ (forall (h a : Z) (s : Q),
       let r := compute_spread_result (Some h) (Some a) (Some s) in
       ((inject_Z a < inject_Z h + s)%Q -> r = "Covered") /\
       ((inject_Z h + s < inject_Z a)%Q -> r = "Lost") /\
       ((inject_Z h + s == inject_Z a)%Q -> r = "Push")).
Proof.
  intros H.
  destruct (H 1 2 (4503599627370497 # 4503599627370496)%Q) as [Hc _].
  assert (Hgt : (inject_Z 2 < inject_Z 1 + (4503599627370497 # 4503599627370496))%Q)
    by reflexivity.
  specialize (Hc Hgt). vm_compute in Hc. discriminate Hc.
Qed.

(** C3, amended. With home score [h], away score [a] and spread [s] the
    spread result is [Covered] if [h + s > a], [Lost] if [h + s < a] and
    [Push] if [h + s = a], where [h + s] is the float sum that the code
    computes. That sum is the sum itself where [h] and the sum are
    binary64 values, as they are for every line that is a multiple of
    one half when the score and twice the line are under [2 ^ 51] in
    absolute value. For any line and scores under [2 ^ 53] the result
    is [Covered] only if [h + s > a], [Lost] only if [h + s < a], and
    [Push] if [h + s = a]: rounding can turn a result into [Push] and
    nothing else. In general, for a score that [float] takes, the
    result is the comparison with [a] of the sum of [float(h)] and [s]
    rounded to binary64. With the total line [t] the over/under result
    is [Over] if [h + a > t], [Under] if [h + a < t] and [Push] if
    [h + a = t]; either result is the empty string when the line or one
    of the scores is [None]. *)
Theorem bet_results :
  (forall (h a : Z) (s : Q),
     binary64 (inject_Z h) -> binary64 (inject_Z h + s) ->
     let r := compute_spread_result (Some h) (Some a) (Some s) in
     ((inject_Z a < inject_Z h + s)%Q -> r = "Covered") /\
     ((inject_Z h + s < inject_Z a)%Q -> r = "Lost") /\
     ((inject_Z h + s == inject_Z a)%Q -> r = "Push")) /\
  (forall (h a k : Z) (s : Q),
     (s == k # 2)%Q -> Z.abs h < 2 ^ 51 -> Z.abs k < 2 ^ 51 ->
     let r := compute_spread_result (Some h) (Some a) (Some s) in
     ((inject_Z a < inject_Z h + s)%Q -> r = "Covered") /\
     ((inject_Z h + s < inject_Z a)%Q -> r = "Lost") /\
     ((inject_Z h + s == inject_Z a)%Q -> r = "Push")) /\
  (forall (h a : Z) (s : Q),
     Z.abs h < 2 ^ 53 -> Z.abs a < 2 ^ 53 ->
     let r := compute_spread_result (Some h) (Some a) (Some s) in
     (r = "Covered" -> (inject_Z a < inject_Z h + s)%Q) /\
     (r = "Lost" -> (inject_Z h + s < inject_Z a)%Q) /\
     ((inject_Z h + s == inject_Z a)%Q -> r = "Push")) /\
  (forall (h a : Z) (s x : Q),
     float_of_int h = Finite x ->
     let adjusted := round64 (x + s) in
     let r := compute_spread_result (Some h) (Some a) (Some s) in
     (float_gtb adjusted a = true -> r = "Covered") /\
     (float_gtb adjusted a = false -> float_ltb adjusted a = true -> r = "Lost") /\
     (float_gtb adjusted a = false -> float_ltb adjusted a = false -> r = "Push")) /\
  (forall (h a : Z) (t : Q),
     let r := compute_ou_result (Some h) (Some a) (Some t) in
     ((t < inject_Z (h + a))%Q -> r = "Over") /\
     ((inject_Z (h + a) < t)%Q -> r = "Under") /\
     ((inject_Z (h + a) == t)%Q -> r = "Push")) /\
  (forall (h a : option Z) (line : option Q),
     line = None \/ h = None \/ a = None ->
     compute_spread_result h a line = "" /\ compute_ou_result h a line = "").
Proof.
  split; [| split; [| split; [| split; [| split]]]].
  - intros h a s Hh Hs. cbv zeta. rewrite (spread_result_exact h a s Hh Hs).
    apply three_way.
  - intros h a k s Hs Hh Hk. cbv zeta.
    destruct (binary64_half_point h k s Hs Hh Hk) as [Hbh Hbs].
    rewrite (spread_result_exact h a s Hbh Hbs). apply three_way.
  - intros h a s Hh Ha. apply (spread_result_sound h a s Hh Ha).
  - intros h a s x Hx. cbv zeta. unfold compute_spread_result.
    rewrite Hx. cbn [float_add].
    split; [| split].
    + intros ->. reflexivity.
    + intros -> ->. reflexivity.
    + intros -> ->. reflexivity.
  - intros h a t. apply three_way.
  - intros h a line. unfold compute_spread_result, compute_ou_result.
    intros [-> | [-> | ->]]; [| destruct line | destruct line, h]; split; reflexivity.
Qed.

Lemma bet_results_witness :
  compute_spread_result (Some 24) (Some 20) (Some (-7 # 2)%Q) = "Covered" /\
  compute_spread_result (Some 17) (Some 24) (Some 3%Q) = "Lost" /\
  compute_spread_result (Some 20) (Some 23) (Some 3%Q) = "Push" /\
  compute_spread_result (Some 1) (Some 2)
    (Some (4503599627370497 # 4503599627370496)%Q) = "Push" /\
  compute_ou_result (Some 24) (Some 20) (Some (87 # 2)%Q) = "Over" /\
  compute_ou_result (Some 17) (Some 24) (Some (87 # 2)%Q) = "Under" /\
  compute_ou_result (Some 20) (Some 23) (Some 43%Q) = "Push" /\
  compute_spread_result None (Some 20) (Some 3%Q) = "".
Proof.
  destruct bet_results as (He & Hs & _ & Hr & Ho & Hn).
  split; [| split; [| split; [| split; [| split; [| split; [| split]]]]]].
  - apply (proj1 (Hs 24 20 (-7) (-7 # 2)%Q eq_refl eq_refl eq_refl)). reflexivity.
  - apply (proj1 (proj2 (Hs 17 24 6 3%Q eq_refl eq_refl eq_refl))). reflexivity.
  - refine (proj2 (proj2 (He 20 23 3%Q _ _)) eq_refl).
    + exists 20, 0. split; [reflexivity | split; [reflexivity | lia]].
    + exists 23, 0. split; [reflexivity | split; [reflexivity | lia]].
  - apply (proj2 (proj2 (Hr 1 2 (4503599627370497 # 4503599627370496)%Q _ eq_refl)));
      reflexivity.
  - apply (proj1 (Ho 24 20 (87 # 2)%Q)). reflexivity.
  - apply (proj1 (proj2 (Ho 17 24 (87 # 2)%Q))). reflexivity.
  - apply (proj2 (proj2 (Ho 20 23 43%Q))). reflexivity.
  - apply (proj1 (Hn None (Some 20) (Some 3%Q) (or_intror (or_introl eq_refl)))).
Defined.

End Outcomes.

(** ** Betting reconciler: the merge *)

Section MergeFacts.

Import AddSpreads.

Variable float_str : Q -> string.
Variable lookup : gmap (string * string) betting.

Lemma cell_value_write ws r c v r' c' :
  cell_value (cell_write ws r c v) r' c' =
    if decide ((r, c) = (r', c'))
    then match v with Some x => Some x | None => cell_value ws r' c' end
    else cell_value ws r' c'.
Proof.
  unfold cell_value, cell_write. destruct v as [x |]; simpl.
  - rewrite lookup_insert. case_decide; reflexivity.
  - case_decide; reflexivity.
Qed.

Lemma max_row_write ws r c v : max_row (cell_write ws r c v) = max_row ws.
Proof. destruct v; reflexivity. Qed.

(** A turn of the loop in terms of its three effects. *)
Lemma merge_row_state ws matched total r :
  merge_row float_str lookup (ws, matched, total) r =
    (row_sheet float_str lookup ws r,
     (matched + row_matched float_str lookup ws r)%nat,
     (total + row_total float_str lookup ws r)%nat).
Proof.
  unfold row_sheet, row_matched, row_total, merge_row.
  destruct (cell_value ws r (COL_DATE + 1)), (cell_value ws r (COL_HOME + 1));
    try (simpl; do 2 f_equal; lia).
  destruct (lookup !! _); simpl; do 2 f_equal; lia.
Qed.

Lemma row_total_eligible ws r :
  row_total float_str lookup ws r = if eligible ws r then 1%nat else 0%nat.
Proof.
  unfold row_total, eligible, merge_row.
  destruct (cell_value ws r (COL_DATE + 1)), (cell_value ws r (COL_HOME + 1));
    try reflexivity.
  destruct (lookup !! _); reflexivity.
Qed.

Lemma max_row_row_sheet ws r : max_row (row_sheet float_str lookup ws r) = max_row ws.
Proof.
  unfold row_sheet, merge_row.
  destruct (cell_value ws r (COL_DATE + 1)), (cell_value ws r (COL_HOME + 1));
    try reflexivity.
  destruct (lookup !! _); cbv zeta; cbn [fst snd]; [| reflexivity].
  rewrite !max_row_write. reflexivity.
Qed.

(** Frame of a turn: it writes betting columns of its own row only. *)
Lemma row_sheet_frame ws r r' c :
  r' <> r \/ ~ betting_column c ->
  cell_value (row_sheet float_str lookup ws r) r' c = cell_value ws r' c.
Proof.
  unfold betting_column, NEW_COL_SPREAD, NEW_COL_OU_RESULT. intros Hother.
  unfold row_sheet, merge_row.
  destruct (cell_value ws r (COL_DATE + 1)), (cell_value ws r (COL_HOME + 1));
    try reflexivity.
  destruct (lookup !! _); cbv zeta; cbn [fst snd]; [| reflexivity].
  rewrite !cell_value_write.
  repeat case_decide; simplify_eq; try reflexivity;
    unfold NEW_COL_SPREAD, NEW_COL_OU, NEW_COL_SPREAD_RESULT, NEW_COL_OU_RESULT in *; lia.
Qed.

(** On two sheets with the same inputs in a row, a turn gives each cell
    of the row the same value in both, or leaves it as it is in both. *)
Lemma row_sheet_written ws1 ws2 r c :
  same_inputs ws1 ws2 r ->
  cell_value (row_sheet float_str lookup ws1 r) r c =
    cell_value (row_sheet float_str lookup ws2 r) r c \/
  (cell_value (row_sheet float_str lookup ws1 r) r c = cell_value ws1 r c /\
   cell_value (row_sheet float_str lookup ws2 r) r c = cell_value ws2 r c).
Proof.
  intros (Hd & Hh & Hhs & Has). unfold row_sheet, merge_row.
  rewrite Hd, Hh, Hhs, Has.
  destruct (cell_value ws2 r (COL_DATE + 1)), (cell_value ws2 r (COL_HOME + 1));
    try (right; split; reflexivity).
  destruct (lookup !! _) as [b |]; cbv zeta; cbn [fst snd];
    [| right; split; reflexivity].
  rewrite !cell_value_write.
  destruct (spread b), (ou b); simpl; repeat case_decide; auto.
Qed.

Lemma row_counts_inputs ws1 ws2 r :
  same_inputs ws1 ws2 r ->
  row_matched float_str lookup ws1 r = row_matched float_str lookup ws2 r /\
  row_total float_str lookup ws1 r = row_total float_str lookup ws2 r.
Proof.
  intros (Hd & Hh & Hhs & Has). unfold row_matched, row_total, merge_row.
  rewrite Hd, Hh.
  destruct (cell_value ws2 r (COL_DATE + 1)), (cell_value ws2 r (COL_HOME + 1));
    try (split; reflexivity).
  destruct (lookup !! _); split; reflexivity.
Qed.

Lemma same_row_inputs ws1 ws2 r :
  (forall c, cell_value ws1 r c = cell_value ws2 r c) -> same_inputs ws1 ws2 r.
Proof. intros H. repeat split; apply H. Qed.

(** A turn leaves its inputs as they are. *)
Lemma row_sheet_inputs ws r r' :
  same_inputs (row_sheet float_str lookup ws r) ws r'.
Proof.
  repeat split; apply row_sheet_frame; right;
    unfold betting_column, NEW_COL_SPREAD, COL_DATE, COL_HOME,
      COL_HOME_SCORE, COL_AWAY_SCORE; lia.
Qed.

(** A turn looks at its own row only. *)
Lemma row_sheet_local ws1 ws2 r :
  (forall c, cell_value ws1 r c = cell_value ws2 r c) ->
  forall c, cell_value (row_sheet float_str lookup ws1 r) r c =
            cell_value (row_sheet float_str lookup ws2 r) r c.
Proof.
  intros Hrow c.
  destruct (row_sheet_written ws1 ws2 r c (same_row_inputs _ _ _ Hrow))
    as [Heq | [H1 H2]]; [exact Heq |].
  rewrite H1, H2. apply Hrow.
Qed.

(** A second turn on the same row changes nothing. *)
Lemma row_sheet_idem ws r c :
  cell_value (row_sheet float_str lookup (row_sheet float_str lookup ws r) r) r c =
  cell_value (row_sheet float_str lookup ws r) r c.
Proof.
  destruct (row_sheet_written (row_sheet float_str lookup ws r) ws r c
              (row_sheet_inputs ws r r)) as [Heq | [H1 _]]; assumption.
Qed.

Lemma sum_list_fmap_ext (f g : nat -> nat) (l : list nat) :
  (forall x, x ∈ l -> f x = g x) -> sum_list (f <$> l) = sum_list (g <$> l).
Proof.
  induction l as [| x l IH]; intros Hfg; [reflexivity |].
  csimpl. rewrite (Hfg x) by (apply elem_of_cons; auto). f_equal. apply IH.
  intros y Hy. apply Hfg, elem_of_cons. auto.
Qed.

(** The loop over rows without repetition: every row of the list gets
    its own turn on the sheet the loop started from, the other rows stay,
    and the counters add up. *)
Lemma merge_rows_spec (rs : list nat) : forall ws matched total,
  NoDup rs ->
  let st := foldl (merge_row float_str lookup) (ws, matched, total) rs in
  (forall r c, cell_value st.1.1 r c =
     if decide (r ∈ rs) then cell_value (row_sheet float_str lookup ws r) r c
     else cell_value ws r c) /\
  max_row st.1.1 = max_row ws /\
  st.1.2 = (matched + sum_list (row_matched float_str lookup ws <$> rs))%nat /\
  st.2 = (total + sum_list (row_total float_str lookup ws <$> rs))%nat.
Proof.
  induction rs as [| r rs IH]; intros ws matched total Hnd.
  - split; [| repeat split; simpl; lia].
    intros r c. reflexivity.
  - apply NoDup_cons in Hnd as [Hr Hnd].
    cbv zeta. cbn [foldl]. rewrite merge_row_state.
    destruct (IH (row_sheet float_str lookup ws r)
                 (matched + row_matched float_str lookup ws r)%nat
                 (total + row_total float_str lookup ws r)%nat Hnd)
      as (Hcells & Hmax & Hm & Ht).
    assert (Hsame : forall r', r' ∈ rs ->
              same_inputs (row_sheet float_str lookup ws r) ws r').
    { intros r' _. apply row_sheet_inputs. }
    split; [| split; [| split]].
    + intros r' c. rewrite Hcells.
      destruct (decide (r' ∈ rs)) as [Hin | Hnin].
      * rewrite decide_True by (apply elem_of_cons; auto).
        apply row_sheet_local. intros c'. apply row_sheet_frame. left.
        intros ->. contradiction.
      * destruct (decide (r' = r)) as [-> | Hne].
        -- rewrite decide_True by (apply elem_of_cons; auto). reflexivity.
        -- rewrite decide_False by (rewrite elem_of_cons; tauto).
           apply row_sheet_frame. left. exact Hne.
    + rewrite Hmax. apply max_row_row_sheet.
    + rewrite Hm. csimpl.
      rewrite (sum_list_fmap_ext (row_matched float_str lookup (row_sheet float_str lookup ws r))
                 (row_matched float_str lookup ws)); [lia |].
      intros r' Hr'. apply row_counts_inputs, Hsame, Hr'.
    + rewrite Ht. csimpl.
      rewrite (sum_list_fmap_ext (row_total float_str lookup (row_sheet float_str lookup ws r))
                 (row_total float_str lookup ws)); [lia |].
      intros r' Hr'. apply row_counts_inputs, Hsame, Hr'.
Qed.

(** The header row. *)
Lemma write_headers_unfold ws :
  write_headers ws =
    if is_spread_header (cell_value ws 1 NEW_COL_SPREAD) then ws
    else cell_write (cell_write (cell_write (cell_write ws
           1 13 (Some (VStr "Spread"))) 1 14 (Some (VStr "Over/Under")))
           1 15 (Some (VStr "Spread Result"))) 1 16 (Some (VStr "O/U Result")).
Proof. reflexivity. Qed.

Lemma write_headers_frame ws r c :
  r <> 1%nat \/ ~ betting_column c ->
  cell_value (write_headers ws) r c = cell_value ws r c.
Proof.
  unfold betting_column, NEW_COL_SPREAD, NEW_COL_OU_RESULT. intros Hother.
  rewrite write_headers_unfold. destruct (is_spread_header _); [reflexivity |].
  rewrite !cell_value_write.
  repeat case_decide; simplify_eq; try reflexivity; lia.
Qed.

Lemma max_row_write_headers ws : max_row (write_headers ws) = max_row ws.
Proof.
  unfold write_headers. destruct (is_spread_header _); reflexivity.
Qed.

Lemma write_headers_head ws :
  is_spread_header (cell_value (write_headers ws) 1 NEW_COL_SPREAD) = true.
Proof.
  rewrite write_headers_unfold.
  destruct (is_spread_header (cell_value ws 1 NEW_COL_SPREAD)) eqn:Hh; [exact Hh |].
  unfold NEW_COL_SPREAD. rewrite !cell_value_write.
  repeat case_decide; simplify_eq; reflexivity.
Qed.

Lemma data_rows_NoDup ws : NoDup (data_rows ws).
Proof. apply NoDup_seq. Qed.

Lemma data_rows_not_header ws : 1%nat ∉ data_rows ws.
Proof. unfold data_rows. rewrite elem_of_seq. lia. Qed.

Lemma worksheet_eq ws1 ws2 :
  (forall r c, cell_value ws1 r c = cell_value ws2 r c) ->
  max_row ws1 = max_row ws2 -> ws1 = ws2.
Proof.
  destruct ws1 as [m1 n1], ws2 as [m2 n2]. unfold cell_value. simpl.
  intros Hcells ->. f_equal. apply map_eq. intros [r c]. apply Hcells.
Qed.

Lemma sum_list_eligible ws (l : list nat) :
  sum_list ((fun r => if eligible ws r then 1%nat else 0%nat) <$> l) =
  length (List.filter (eligible ws) l).
Proof.
  induction l as [| r l IH]; [reflexivity |].
  csimpl. rewrite IH. destruct (eligible ws r); reflexivity.
Qed.

(** The whole merge: every data row gets its turn on the sheet as it
    was loaded, the header row is written, the other rows stay; the
    counters are the sums over the data rows. *)
Lemma merge_sheet_spec ws :
  let st := merge_sheet float_str lookup ws in
  (forall r c, cell_value st.1.1 r c =
     if decide (r ∈ data_rows ws) then cell_value (row_sheet float_str lookup ws r) r c
     else cell_value (write_headers ws) r c) /\
  max_row st.1.1 = max_row ws /\
  st.1.2 = sum_list (row_matched float_str lookup ws <$> data_rows ws) /\
  st.2 = sum_list (row_total float_str lookup ws <$> data_rows ws).
Proof.
  cbv zeta. unfold merge_sheet.
  assert (Hrows : data_rows (write_headers ws) = data_rows ws).
  { unfold data_rows. rewrite max_row_write_headers. reflexivity. }
  rewrite Hrows.
  destruct (merge_rows_spec (data_rows ws) (write_headers ws) 0%nat 0%nat
              (data_rows_NoDup ws)) as (Hcells & Hmax & Hm & Ht).
  assert (Hin : forall r, r ∈ data_rows ws ->
            forall c, cell_value (write_headers ws) r c = cell_value ws r c).
  { intros r Hr c. apply write_headers_frame. left. intros ->.
    exact (data_rows_not_header ws Hr). }
  split; [| split; [| split]].
  - intros r c. rewrite Hcells. case_decide as Hr; [| reflexivity].
    apply row_sheet_local, Hin, Hr.
  - rewrite Hmax. apply max_row_write_headers.
  - rewrite Hm. simpl. apply sum_list_fmap_ext.
    intros r Hr. apply row_counts_inputs, same_row_inputs, Hin, Hr.
  - rewrite Ht. simpl. apply sum_list_fmap_ext.
    intros r Hr. apply row_counts_inputs, same_row_inputs, Hin, Hr.
Qed.

(** Frame of the merge: outside the four betting columns no cell of the
    sheet changes, in whatever row. *)
Lemma merge_sheet_frame ws r c :
  ~ betting_column c ->
  cell_value (merge_sheet float_str lookup ws).1.1 r c = cell_value ws r c.
Proof.
  intros Hc. destruct (merge_sheet_spec ws) as (Hcells & _).
  rewrite Hcells. case_decide.
  - apply row_sheet_frame. right. exact Hc.
  - apply write_headers_frame. right. exact Hc.
Qed.

(** On a miss a turn writes nothing: the calls [ws.cell(..., value=None)]
    leave the four cells with the values they had. *)
Lemma row_sheet_miss ws r date_val home_val :
  cell_value ws r (COL_DATE + 1) = Some date_val ->
  cell_value ws r (COL_HOME + 1) = Some home_val ->
  lookup !! (PyStr.take 10 (PyStr.strip (str_of_value float_str date_val)),
             PyStr.strip (str_of_value float_str home_val)) = None ->
  row_sheet float_str lookup ws r = ws.
Proof.
  intros Hd Hh Hmiss. unfold row_sheet, merge_row. rewrite Hd, Hh, Hmiss.
  reflexivity.
Qed.

(** C4. Merging a second time with the same betting source gives the
    result of the first merge again: the same sheet, so the same four
    betting fields on every row, and the same counts. *)
Theorem merge_idempotent :
  (forall file : option worksheet,
     merge_into_excel float_str (merge_into_excel float_str file lookup).1 lookup =
     merge_into_excel float_str file lookup) /\
  (forall (ws : worksheet) (r c : nat),
     let once := (merge_sheet float_str lookup ws).1.1 in
     let twice := (merge_sheet float_str lookup once).1.1 in
     cell_value twice r c = cell_value once r c).
Proof.
  assert (Hsheet : forall ws,
    merge_sheet float_str lookup (merge_sheet float_str lookup ws).1.1 =
    merge_sheet float_str lookup ws).
  { intros ws.
    pose proof (merge_sheet_spec ws) as (Hc1 & Hmax1 & Hm1 & Ht1).
    cbv zeta in Hc1, Hmax1, Hm1, Ht1.
    set (W1 := (merge_sheet float_str lookup ws).1.1) in *.
    pose proof (merge_sheet_spec W1) as (Hc2 & Hmax2 & Hm2 & Ht2).
    cbv zeta in Hc2, Hmax2, Hm2, Ht2.
    assert (Hrows : data_rows W1 = data_rows ws).
    { unfold data_rows. rewrite Hmax1. reflexivity. }
    rewrite Hrows in Hc2, Hm2, Ht2.
    assert (Hin : forall r, r ∈ data_rows ws -> same_inputs W1 ws r).
    { intros r Hr. repeat split; apply merge_sheet_frame;
        unfold betting_column, NEW_COL_SPREAD, COL_DATE, COL_HOME,
          COL_HOME_SCORE, COL_AWAY_SCORE; lia. }
    assert (Hhead : write_headers W1 = W1).
    { unfold write_headers. replace (cell_value W1 1 NEW_COL_SPREAD)
        with (cell_value (write_headers ws) 1 NEW_COL_SPREAD).
      - rewrite write_headers_head. reflexivity.
      - rewrite Hc1. rewrite decide_False by apply data_rows_not_header.
        reflexivity. }
    destruct (merge_sheet float_str lookup W1) as [[W2 m2] t2] eqn:E2.
    destruct (merge_sheet float_str lookup ws) as [[W1' m1] t1] eqn:E1.
    simpl in *. subst W1. f_equal; [f_equal |].
    - apply worksheet_eq; [| congruence].
      intros r c. rewrite Hc2. case_decide as Hr.
      + rewrite (row_sheet_local W1' (row_sheet float_str lookup ws r) r).
        * rewrite row_sheet_idem, Hc1, decide_True by exact Hr. reflexivity.
        * intros c'. rewrite Hc1, decide_True by exact Hr. reflexivity.
      + rewrite Hhead. reflexivity.
    - rewrite Hm2, Hm1. apply sum_list_fmap_ext.
      intros r Hr. apply row_counts_inputs, Hin, Hr.
    - rewrite Ht2, Ht1. apply sum_list_fmap_ext.
      intros r Hr. apply row_counts_inputs, Hin, Hr. }
  split.
  - intros [ws |]; [| reflexivity].
    unfold merge_into_excel.
    destruct (merge_sheet float_str lookup ws) as [[W1 m1] t1] eqn:E1.
    simpl. specialize (Hsheet ws). rewrite E1 in Hsheet. simpl in Hsheet.
    rewrite Hsheet. reflexivity.
  - intros ws r c. cbv zeta. rewrite Hsheet. reflexivity.
Qed.

(** C10. A row whose Date cell or Home Team cell is empty is skipped:
    its turn of the loop leaves the sheet and both counters as they are;
    after the merge every cell of the row, the four betting cells
    included, holds what it held before; the row is not eligible, and
    [total] counts the eligible rows only. *)
Theorem empty_key_rows_skipped (ws : worksheet) (r : nat) :
  cell_value ws r (COL_DATE + 1) = None \/ cell_value ws r (COL_HOME + 1) = None ->
  (forall matched total,
     merge_row float_str lookup (ws, matched, total) r = (ws, matched, total)) /\
  (r <> 1%nat ->
   forall c, cell_value (merge_sheet float_str lookup ws).1.1 r c = cell_value ws r c) /\
  eligible ws r = false /\
  (merge_sheet float_str lookup ws).2 =
    length (List.filter (eligible ws) (data_rows ws)).
Proof.
  intros Hempty.
  assert (Hturn : forall matched total,
    merge_row float_str lookup (ws, matched, total) r = (ws, matched, total)).
  { intros matched total. unfold merge_row.
    destruct Hempty as [-> | ->]; [reflexivity |].
    destruct (cell_value ws r (COL_DATE + 1)); reflexivity. }
  split; [exact Hturn | split; [| split]].
  - intros Hr c. destruct (merge_sheet_spec ws) as (Hcells & _).
    rewrite Hcells. case_decide.
    + unfold row_sheet. rewrite Hturn. reflexivity.
    + apply write_headers_frame. left. exact Hr.
  - unfold eligible. destruct Hempty as [-> | ->]; [reflexivity |].
    destruct (cell_value ws r (COL_DATE + 1)); reflexivity.
  - destruct (merge_sheet_spec ws) as (_ & _ & _ & Ht). rewrite Ht.
    rewrite <- sum_list_eligible. apply sum_list_fmap_ext.
    intros r' _. apply row_total_eligible.
Qed.

End MergeFacts.

Lemma empty_key_rows_skipped_witness :
  AddSpreads.cell_value
    (AddSpreads.merge_sheet plain_float_str lions_line stale_sheet).1.1 3 13 =
    Some (AddSpreads.VFloat 3) /\
  (AddSpreads.merge_sheet plain_float_str lions_line stale_sheet).2 = 1%nat.
Proof.
  destruct (empty_key_rows_skipped plain_float_str lions_line stale_sheet 3)
    as (_ & Hcells & _ & Htotal).
  - left. reflexivity.
  - split.
    + rewrite Hcells by discriminate. reflexivity.
    + rewrite Htotal. reflexivity.
Defined.

(** A hit on the sample sheet: the line of the source and the outcomes
    computed from the scores 23 and 27 replace the earlier values. *)
Example merge_hit_example :
  let st := AddSpreads.merge_sheet plain_float_str lions_line stale_sheet in
  st.2 = 1%nat /\ st.1.2 = 1%nat /\
  AddSpreads.cell_value st.1.1 2 13 = Some (AddSpreads.VFloat (5 # 2)) /\
  AddSpreads.cell_value st.1.1 2 14 = Some (AddSpreads.VFloat (44 # 1)) /\
  AddSpreads.cell_value st.1.1 2 15 = Some (AddSpreads.VStr "Lost") /\
  AddSpreads.cell_value st.1.1 2 16 = Some (AddSpreads.VStr "Over").
Proof. vm_compute. repeat split. Qed.

(** C6, evaluated at a miss. Row 2 of the sample sheet holds betting
    values of an earlier merge and the betting source is empty: the row
    is eligible and counted, it is not matched, and after the merge its
    four betting cells hold the earlier values still; they are not
    cleared. *)
Lemma miss_keeps_stale_values :
  let st := AddSpreads.merge_sheet plain_float_str ∅ stale_sheet in
  st.2 = 1%nat /\ st.1.2 = 0%nat /\
  AddSpreads.cell_value st.1.1 2 13 = Some (AddSpreads.VFloat (-7 # 2)) /\
  AddSpreads.cell_value st.1.1 2 14 = Some (AddSpreads.VFloat (87 # 2)) /\
  AddSpreads.cell_value st.1.1 2 15 = Some (AddSpreads.VStr "Lost") /\
  AddSpreads.cell_value st.1.1 2 16 = Some (AddSpreads.VStr "Over").
Proof. vm_compute. repeat split. Qed.

(** ** Web-asset generator *)

Section Deduplication.

Import GenerateData.

(** The order of strings. *)
Lemma ascii_compare_lt_trans (a b c : ascii) :
  Ascii.compare a b = Lt -> Ascii.compare b c = Lt -> Ascii.compare a c = Lt.
Proof.
  unfold Ascii.compare. rewrite !N.compare_lt_iff. apply N.lt_trans.
Qed.

Lemma string_compare_lt_trans (s1 : string) : forall s2 s3,
  String.compare s1 s2 = Lt -> String.compare s2 s3 = Lt ->
  String.compare s1 s3 = Lt.
Proof.
  induction s1 as [| a s1 IH]; intros [| b s2] [| c s3]; simpl; try congruence.
  destruct (Ascii.compare a b) eqn:Hab; try discriminate;
    destruct (Ascii.compare b c) eqn:Hbc; try discriminate; intros H12 H23.
  - apply Ascii.compare_eq_iff in Hab. subst. rewrite Hbc.
    eapply IH; eassumption.
  - apply Ascii.compare_eq_iff in Hab. subst. rewrite Hbc. reflexivity.
  - apply Ascii.compare_eq_iff in Hbc. subst. rewrite Hab. reflexivity.
  - rewrite (ascii_compare_lt_trans a b c Hab Hbc). reflexivity.
Qed.

Lemma string_leb_trans (s1 s2 s3 : string) :
  String.leb s1 s2 = true -> String.leb s2 s3 = true -> String.leb s1 s3 = true.
Proof.
  unfold String.leb.
  destruct (String.compare s1 s2) eqn:H12; try discriminate;
    destruct (String.compare s2 s3) eqn:H23; try discriminate; intros _ _.
  - apply String.compare_eq_iff in H12. subst. rewrite H23. reflexivity.
  - apply String.compare_eq_iff in H12. subst. rewrite H23. reflexivity.
  - apply String.compare_eq_iff in H23. subst. rewrite H12. reflexivity.
  - rewrite (string_compare_lt_trans s1 s2 s3 H12 H23). reflexivity.
Qed.

Lemma string_ltb_leb (s1 s2 : string) :
  String.ltb s1 s2 = false <-> String.leb s2 s1 = true.
Proof.
  unfold String.ltb, String.leb. rewrite (String.compare_antisym s1 s2).
  destruct (String.compare s2 s1); simpl; split; congruence.
Qed.

Lemma string_ltb_leb_weak (s1 s2 : string) :
  String.ltb s1 s2 = true -> String.leb s1 s2 = true.
Proof.
  unfold String.ltb, String.leb. destruct (String.compare s1 s2); congruence.
Qed.

(** The order of sort keys. *)
Lemma key_ltb_false (k1 k2 : Z * string) : key_ltb k1 k2 = false -> key_le k2 k1.
Proof.
  unfold key_ltb, key_le. destruct (Z.eqb_spec k1.1 k2.1) as [He | Hne].
  - rewrite string_ltb_leb. intros Hle. right. split; [congruence | exact Hle].
  - intros Hlt. apply Z.ltb_ge in Hlt. left. lia.
Qed.

Lemma key_ltb_true (k1 k2 : Z * string) : key_ltb k1 k2 = true -> key_le k1 k2.
Proof.
  unfold key_ltb, key_le. destruct (Z.eqb_spec k1.1 k2.1) as [He | Hne].
  - intros Hlt. right. split; [exact He | apply string_ltb_leb_weak, Hlt].
  - intros Hlt. apply Z.ltb_lt in Hlt. left. exact Hlt.
Qed.

Lemma key_le_trans (k1 k2 k3 : Z * string) :
  key_le k1 k2 -> key_le k2 k3 -> key_le k1 k3.
Proof.
  unfold key_le. intros [H12 | [H12 L12]] [H23 | [H23 L23]].
  - left. lia.
  - left. lia.
  - left. lia.
  - right. split; [lia | eapply string_leb_trans; eassumption].
Qed.

(** The stable insertion sort. *)
Lemma insert_by_key_perm g l : insert_by_key g l ≡ₚ g :: l.
Proof.
  induction l as [| x l IH]; simpl; [reflexivity |].
  destruct (key_ltb (sort_key x) (sort_key g)); [| reflexivity].
  rewrite IH. apply perm_swap.
Qed.

Lemma sort_games_perm l : sort_games l ≡ₚ l.
Proof.
  induction l as [| g l IH]; simpl; [reflexivity |].
  rewrite insert_by_key_perm, IH. reflexivity.
Qed.

Lemma insert_by_key_sorted g l :
  StronglySorted (fun x y => key_le (sort_key x) (sort_key y)) l ->
  StronglySorted (fun x y => key_le (sort_key x) (sort_key y)) (insert_by_key g l).
Proof.
  induction l as [| x l IH]; intros Hs; simpl.
  - constructor; constructor.
  - apply StronglySorted_inv in Hs as [Hl Hx].
    destruct (key_ltb (sort_key x) (sort_key g)) eqn:Hlt.
    + constructor; [apply IH, Hl |].
      rewrite insert_by_key_perm. constructor; [apply key_ltb_true, Hlt | exact Hx].
    + apply key_ltb_false in Hlt.
      constructor; [constructor; assumption |].
      constructor; [exact Hlt |].
      eapply Forall_impl; [exact Hx |].
      intros y Hy. eapply key_le_trans; eassumption.
Qed.

Lemma sort_games_sorted l :
  StronglySorted (fun x y => key_le (sort_key x) (sort_key y)) (sort_games l).
Proof.
  induction l as [| g l IH]; simpl; [constructor |].
  apply insert_by_key_sorted, IH.
Qed.

(** The deduplication loop. [done] is the part of the input the loop has
    been through. *)
Lemma first_seen_snoc g done x : first_seen g done -> first_seen g (done ++ [x]).
Proof.
  intros (before & after & -> & Hfirst).
  exists before, (after ++ [x])%list. split; [| exact Hfirst].
  rewrite <- app_assoc. reflexivity.
Qed.

Lemma dedupe_loop_spec (rest : list game) : forall seen unique_games done,
  (forall k, k ∈ seen <-> exists g, g ∈ unique_games /\ key g = k) ->
  NoDup (key <$> unique_games) ->
  (forall g, g ∈ unique_games -> first_seen g done) ->
  (forall g, g ∈ done -> key g ∈ seen) ->
  let out := dedupe_loop seen unique_games rest in
  NoDup (key <$> out) /\
  (forall g, g ∈ out -> first_seen g (done ++ rest)) /\
  (forall g, g ∈ (done ++ rest)%list -> exists g', g' ∈ out /\ key g' = key g).
Proof.
  induction rest as [| g rest IH]; intros seen unique_games done Hseen Hnd Hfirst Hdone.
  - simpl. rewrite app_nil_r. split; [exact Hnd | split; [exact Hfirst |]].
    intros g Hg. apply Hseen, Hdone, Hg.
  - simpl. replace (done ++ g :: rest)%list with ((done ++ [g]) ++ rest)%list
      by (rewrite <- app_assoc; reflexivity).
    destruct (decide (key g ∈ seen)) as [Hin | Hnin].
    + apply IH; try assumption.
      * intros x Hx. apply first_seen_snoc, Hfirst, Hx.
      * intros x Hx. apply elem_of_app in Hx as [Hx | Hx]; [apply Hdone, Hx |].
        apply list_elem_of_singleton in Hx. subst x. exact Hin.
    + apply IH.
      * intros k. rewrite elem_of_union, elem_of_singleton, Hseen. split.
        -- intros [-> | (x & Hx & Hk)].
           ++ exists g. split; [apply elem_of_app; right; apply list_elem_of_singleton; reflexivity | reflexivity].
           ++ exists x. split; [apply elem_of_app; left; exact Hx | exact Hk].
        -- intros (x & Hx & Hk). apply elem_of_app in Hx as [Hx | Hx].
           ++ right. exists x. split; assumption.
           ++ apply list_elem_of_singleton in Hx. subst x. left. symmetry. exact Hk.
      * rewrite fmap_app. apply NoDup_app. split; [exact Hnd | split].
        -- intros k Hk Hk'. simpl in Hk'. apply list_elem_of_singleton in Hk'. subst k.
           apply Hnin, Hseen. apply list_elem_of_fmap in Hk as (x & Hkx & Hx).
           exists x. split; [exact Hx | symmetry; exact Hkx].
        -- simpl. apply NoDup_singleton.
      * intros x Hx. apply elem_of_app in Hx as [Hx | Hx].
        -- apply first_seen_snoc, Hfirst, Hx.
        -- apply list_elem_of_singleton in Hx. subst x.
           exists done, []. split; [reflexivity |].
           intros y Hy Hk. apply Hnin. rewrite <- Hk. apply Hdone, Hy.
      * intros x Hx. apply elem_of_union.
        apply elem_of_app in Hx as [Hx | Hx]; [right; apply Hdone, Hx |].
        apply list_elem_of_singleton in Hx. subst x. left.
        apply elem_of_singleton. reflexivity.
Qed.

Lemma dedupe_spec (all_games : list game) :
  NoDup (key <$> dedupe all_games) /\
  (forall g, g ∈ dedupe all_games -> first_seen g all_games) /\
  (forall g, g ∈ all_games -> exists g', g' ∈ dedupe all_games /\ key g' = key g).
Proof.
  apply (dedupe_loop_spec all_games ∅ [] []).
  - intros k. split; [intros Hk; set_solver |].
    intros (g & Hg & _). apply elem_of_nil in Hg. contradiction.
  - constructor.
  - intros g Hg. apply elem_of_nil in Hg. contradiction.
  - intros g Hg. apply elem_of_nil in Hg. contradiction.
Qed.

(** C9. In the sequence that is serialized no two records share the key
    (season, date, home, away); each of its records stands in the input
    as the first one with its key, so it has the values first seen; each
    key of the input is there; and the sequence is in the order of
    (season, date). *)
Theorem dedupe_and_order (all_games : list game) :
  let out := unique_sorted all_games in
  NoDup (key <$> out) /\
  (forall g, g ∈ out -> first_seen g all_games) /\
  (forall g, g ∈ all_games ->
     exists g', g' ∈ out /\ key g' = key g /\ first_seen g' all_games) /\
  StronglySorted (fun x y => key_le (sort_key x) (sort_key y)) out.
Proof.
  destruct (dedupe_spec all_games) as (Hnd & Hfirst & Hall).
  cbv zeta. unfold unique_sorted.
  split; [| split; [| split]].
  - rewrite sort_games_perm. exact Hnd.
  - intros g Hg. rewrite sort_games_perm in Hg. apply Hfirst, Hg.
  - intros g Hg. destruct (Hall g Hg) as (g' & Hg' & Hk).
    exists g'. split; [rewrite sort_games_perm; exact Hg' |].
    split; [exact Hk | apply Hfirst, Hg'].
  - apply sort_games_sorted.
Qed.

End Deduplication.

Lemma dedupe_and_order_witness :
  GenerateData.unique_sorted [game_2020; game_2019; game_2019_again] =
    [game_2019; game_2020] /\
  GenerateData.first_seen game_2019 [game_2020; game_2019; game_2019_again] /\
  (exists g', g' ∈ [game_2019; game_2020] /\
     GenerateData.key g' = GenerateData.key game_2019_again /\
     GenerateData.first_seen g' [game_2020; game_2019; game_2019_again]).
Proof.
  pose proof (dedupe_and_order [game_2020; game_2019; game_2019_again])
    as (_ & Hfirst & Hall & _).
  assert (Hout : GenerateData.unique_sorted [game_2020; game_2019; game_2019_again] =
                 [game_2019; game_2020]) by reflexivity.
  rewrite Hout in Hfirst, Hall.
  split; [exact Hout | split].
  - apply Hfirst. apply list_elem_of_In. simpl. auto.
  - apply Hall. apply list_elem_of_In. simpl. auto.
Defined.

(** * Further properties *)

(** ** Strings *)

Lemma lstrip_cases (s : string) :
  PyStr.lstrip s = "" \/
  exists c r, PyStr.lstrip s = String c r /\ PyStr.isspace c = false.
Proof.
  induction s as [| c s IH]; simpl; [left; reflexivity |].
  destruct (PyStr.isspace c) eqn:Hc; [exact IH |].
  right. exists c, s. split; [reflexivity | exact Hc].
Qed.

Lemma rstrip_cons_nonspace (c : ascii) (r : string) :
  PyStr.isspace c = false ->
  PyStr.rstrip (String c r) = String c (PyStr.rstrip r).
Proof.
  intros Hc. simpl. rewrite Hc. destruct (PyStr.rstrip r); reflexivity.
Qed.

Lemma rstrip_idem (s : string) : PyStr.rstrip (PyStr.rstrip s) = PyStr.rstrip s.
Proof.
  induction s as [| c s IH]; [reflexivity |].
  simpl. destruct (PyStr.rstrip s) as [| c' r'] eqn:Hr.
  - destruct (PyStr.isspace c) eqn:Hc; [reflexivity |].
    simpl. rewrite Hc. reflexivity.
  - change (PyStr.rstrip (String c (String c' r'))) with
      (match PyStr.rstrip (String c' r') with
       | EmptyString => if PyStr.isspace c then EmptyString else String c EmptyString
       | r'' => String c r''
       end).
    rewrite IH. reflexivity.
Qed.

(** A stripped string begins and ends with no white space, so that
    stripping it again changes nothing. *)
Lemma strip_head (s : string) :
  PyStr.strip s = "" \/
  exists c r, PyStr.strip s = String c r /\ PyStr.isspace c = false.
Proof.
  unfold PyStr.strip.
  destruct (lstrip_cases s) as [-> | (c & r & -> & Hc)]; [left; reflexivity |].
  right. rewrite (rstrip_cons_nonspace c r Hc). eauto.
Qed.

Lemma strip_idem (s : string) : PyStr.strip (PyStr.strip s) = PyStr.strip s.
Proof.
  destruct (strip_head s) as [-> | (c & r & Hs & Hc)]; [reflexivity |].
  unfold PyStr.strip at 1. rewrite Hs. simpl PyStr.lstrip. rewrite Hc.
  rewrite <- Hs. unfold PyStr.strip. apply rstrip_idem.
Qed.

Lemma isspace_upper_char (c : ascii) :
  PyStr.isspace (PyStr.upper_char c) = PyStr.isspace c.
Proof. destruct c as [[] [] [] [] [] [] [] []]; reflexivity. Qed.

Lemma upper_char_idem (c : ascii) :
  PyStr.upper_char (PyStr.upper_char c) = PyStr.upper_char c.
Proof. destruct c as [[] [] [] [] [] [] [] []]; reflexivity. Qed.

Lemma upper_idem (s : string) : PyStr.upper (PyStr.upper s) = PyStr.upper s.
Proof.
  induction s as [| c s IH]; simpl; [reflexivity |].
  rewrite upper_char_idem, IH. reflexivity.
Qed.

Lemma lstrip_upper (s : string) :
  PyStr.lstrip (PyStr.upper s) = PyStr.upper (PyStr.lstrip s).
Proof.
  induction s as [| c s IH]; simpl; [reflexivity |].
  rewrite isspace_upper_char. destruct (PyStr.isspace c); [exact IH | reflexivity].
Qed.

Lemma rstrip_upper (s : string) :
  PyStr.rstrip (PyStr.upper s) = PyStr.upper (PyStr.rstrip s).
Proof.
  induction s as [| c s IH]; simpl; [reflexivity |].
  rewrite IH, isspace_upper_char.
  destruct (PyStr.rstrip s); simpl; [destruct (PyStr.isspace c) |]; reflexivity.
Qed.

Lemma strip_upper (s : string) :
  PyStr.strip (PyStr.upper s) = PyStr.upper (PyStr.strip s).
Proof. unfold PyStr.strip. rewrite lstrip_upper, rstrip_upper. reflexivity. Qed.

Lemma truthy_upper (s : string) : PyStr.truthy (PyStr.upper s) = PyStr.truthy s.
Proof. destruct s; reflexivity. Qed.

(** ** Kickoff time and primetime slot, further *)

(** X1. The clock of the schedule pages is read back on 24 hours: for
    every hour from 1 to 12 and minute from 0 to 59, the text [h:mmAM] or
    [h:mmPM] parses to the minute [m] and to the hour [h] in the morning
    (0 for 12AM), [h + 12] in the afternoon (12 for 12PM). *)
Theorem parse_time_clock (h m : Z) (pm : bool) :
  1 <= h <= 12 -> 0 <= m <= 59 ->
  parse_time (clock_text h m pm) = (Some (hour24 h pm), Some m).
Proof.
  intros Hh Hm.
  assert (Hall : forallb (fun h => forallb (fun m => forallb (fun pm =>
            bool_decide (parse_time (clock_text h m pm) = (Some (hour24 h pm), Some m)))
            [true; false]) (seqZ 0 60)) (seqZ 1 12) = true)
    by (vm_compute; reflexivity).
  rewrite forallb_forall in Hall.
  assert (H1 : In h (seqZ 1 12)) by (apply list_elem_of_In, elem_of_seqZ; lia).
  specialize (Hall h H1). rewrite forallb_forall in Hall.
  assert (H2 : In m (seqZ 0 60)) by (apply list_elem_of_In, elem_of_seqZ; lia).
  specialize (Hall m H2). rewrite forallb_forall in Hall.
  assert (H3 : In pm [true; false]) by (destruct pm; simpl; auto).
  specialize (Hall pm H3). apply bool_decide_eq_true in Hall. exact Hall.
Qed.

Lemma parse_time_clock_witness :
  parse_time "12:05AM" = (Some 0, Some 5) /\
  parse_time "9:30PM" = (Some 21, Some 30).
Proof.
  split.
  - apply (parse_time_clock 12 5 false); lia.
  - apply (parse_time_clock 9 30 true); lia.
Defined.

Lemma parse_time_normal (time_str : string) :
  parse_time time_str = parse_time (PyStr.upper (PyStr.strip time_str)).
Proof.
  unfold parse_time.
  rewrite strip_upper, upper_idem, strip_idem, truthy_upper.
  destruct (PyStr.truthy time_str) eqn:Ht.
  - simpl. destruct (PyStr.truthy (PyStr.strip time_str)) eqn:Hs; [reflexivity |].
    simpl. destruct (PyStr.strip time_str); [reflexivity | discriminate].
  - destruct time_str; [reflexivity | discriminate].
Qed.

(** X2. White space around the day and the kickoff time and the case of
    the kickoff time do not matter: [parse_time] gives the same result
    on a time and on its stripped upper-case form, and so does the
    classifier on a day and its stripped form, whenever the time is more
    than white space. *)
Theorem classifier_normal_form (day time_str : string) (season : Z) :
  parse_time time_str = parse_time (PyStr.upper (PyStr.strip time_str)) /\
  (PyStr.strip time_str <> "" ->
   detect_primetime day time_str season =
   detect_primetime (PyStr.strip day) (PyStr.upper (PyStr.strip time_str)) season).
Proof.
  split; [apply parse_time_normal |]. intros Hs.
  assert (Ht : time_str <> "") by (intros ->; apply Hs; reflexivity).
  assert (Hu : PyStr.upper (PyStr.strip time_str) <> "").
  { destruct (PyStr.strip time_str); [congruence | discriminate]. }
  destruct (decide (day = "")) as [-> | Hd]; [reflexivity |].
  destruct (decide (PyStr.strip day = "")) as [He | Hne].
  - rewrite He. rewrite detect_primetime_unfold by assumption.
    cbv zeta. rewrite He. reflexivity.
  - rewrite !detect_primetime_unfold by assumption.
    cbv zeta. rewrite strip_idem, <- parse_time_normal. reflexivity.
Qed.

Lemma classifier_normal_form_witness :
  detect_primetime " Sun " " 8:20 pm " 2020 = detect_primetime "Sun" "8:20 PM" 2020.
Proof.
  apply (proj2 (classifier_normal_form " Sun " " 8:20 pm " 2020)). discriminate.
Defined.

(** X3. The classifier gives a label only where its rule holds: [MNF]
    only on a Monday from 1970 on, [TNF] only on a Thursday from 2006 on,
    [SNF] only on a Sunday from 1987 on with a parsed hour of 19 or
    more, [Saturday Primetime] only on a Saturday with such an hour; and
    it gives no other value than these four labels and the empty one. *)
Theorem primetime_label_sound (day time_str : string) (season : Z) :
  let slot := detect_primetime day time_str season in
  let late_kickoff := exists h, (parse_time time_str).1 = Some h /\ 19 <= h in
  (slot = "MNF" -> PyStr.strip day = "Mon" /\ 1970 <= season) /\
  (slot = "TNF" -> PyStr.strip day = "Thu" /\ 2006 <= season) /\
  (slot = "SNF" -> PyStr.strip day = "Sun" /\ 1987 <= season /\ late_kickoff) /\
  (slot = "Saturday Primetime" -> PyStr.strip day = "Sat" /\ late_kickoff) /\
  slot ∈ slot_labels.
Proof.
  cbv zeta.
  assert (Hlabels : forall x, x = "" \/ x = "MNF" \/ x = "TNF" \/ x = "SNF" \/
            x = "Saturday Primetime" -> x ∈ slot_labels).
  { intros x Hx. apply list_elem_of_In.
    destruct Hx as [-> | [-> | [-> | [-> | ->]]]]; simpl; auto 10. }
  destruct (decide (day = "")) as [-> | Hd].
  { unfold detect_primetime. simpl.
    repeat split; try discriminate; try (apply Hlabels; auto 10). }
  destruct (decide (time_str = "")) as [-> | Ht].
  { unfold detect_primetime. destruct (PyStr.truthy day); simpl;
      (repeat split; try discriminate; try (apply Hlabels; auto 10)). }
  rewrite detect_primetime_unfold by assumption. cbv zeta.
  assert (Hlate : late (parse_time time_str).1 = true ->
            exists h, (parse_time time_str).1 = Some h /\ 19 <= h).
  { destruct (parse_time time_str).1 as [h |]; simpl; [| discriminate].
    intros Hh. exists h. split; [reflexivity | apply Z.leb_le, Hh]. }
  destruct (String.eqb_spec (PyStr.strip day) "Mon") as [Hmon | Hmon];
    [destruct (Z.leb_spec 1970 season) |]; simpl.
  1: { repeat split; try discriminate; auto; try (apply Hlabels; auto 10). }
  all: destruct (String.eqb_spec (PyStr.strip day) "Thu") as [Hthu | Hthu];
    [destruct (Z.leb_spec 2006 season);
       (repeat split; try discriminate; auto; try (apply Hlabels; auto 10)) |].
  all: destruct (String.eqb_spec (PyStr.strip day) "Sun") as [Hsun | Hsun];
    [destruct (late (parse_time time_str).1) eqn:Hl;
       [destruct (Z.leb_spec 1987 season) |]; simpl;
       (repeat split; try discriminate; auto; try (apply Hlabels; auto 10)) |].
  all: destruct (String.eqb_spec (PyStr.strip day) "Sat") as [Hsat | Hsat];
    [destruct (late (parse_time time_str).1) eqn:Hl; simpl;
       (repeat split; try discriminate; auto; try (apply Hlabels; auto 10)) |].
  all: repeat split; try discriminate; try (apply Hlabels; auto 10).
Qed.

Lemma primetime_label_sound_witness :
  PyStr.strip " Sun " = "Sun" /\ 1987 <= 2020 /\
  exists h, (parse_time "8:20PM").1 = Some h /\ 19 <= h.
Proof.
  apply (proj1 (proj2 (proj2 (primetime_label_sound " Sun " "8:20PM" 2020)))).
  reflexivity.
Defined.

(** ** Table extractor, further *)

(** X4. A row is dropped exactly when it is a repeated header, or has no
    winner cell or no loser cell, or its winner text is empty, starts
    with [Week] or holds no letter. Nothing else drops it: not a missing
    or unreadable week, day, date, time, location or points cell. *)
Theorem scrape_row_dropped (year : Z) (row : table_row) :
  scrape_row year row = None <->
  has_col_header row = true \/ winner_el row = None \/ loser_el row = None \/
  exists winner, winner_el row = Some winner /\
    (winner = "" \/ PyStr.startswith "Week" winner = true \/
     PyStr.any PyStr.isalpha winner = false).
Proof.
  unfold scrape_row.
  destruct (has_col_header row); [split; auto |].
  destruct (winner_el row) as [winner |]; [| split; auto].
  destruct (loser_el row) as [loser |]; [| split; auto].
  destruct (PyStr.truthy winner) eqn:Ht; simpl.
  - destruct (PyStr.startswith "Week" winner) eqn:Hw; simpl.
    { split; [| reflexivity]. intros _. do 3 right. exists winner. auto. }
    destruct (PyStr.any PyStr.isalpha winner) eqn:Ha; simpl.
    + split.
      * destruct (_ =? _)%string; discriminate.
      * intros [H | [H | [H | (w & Hw' & Hc)]]]; try discriminate.
        injection Hw' as <-. apply truthy_nonempty in Ht.
        destruct Hc as [Hc | [Hc | Hc]]; congruence.
    + split; [| reflexivity]. intros _. do 3 right. exists winner. auto.
  - split; [| reflexivity]. intros _. do 3 right. exists winner.
    split; [reflexivity |]. left. destruct winner; [reflexivity | discriminate].
Qed.

(** X5. Every record holds the season it was scraped for and the texts
    of its row; its primetime slot is the classification of its own day,
    time and season; its winner is never empty and is [Tie] or one of its
    two teams; its score difference is not negative and is the distance
    of its own two scores; and its two scores are the two parsed point
    values of the row: the points of the winner column as home score and
    those of the loser column as away score, the other way round with
    the marker [@]. *)
Theorem record_consistency (year : Z) (row : table_row) (g : game) :
  scrape_row year row = Some g ->
  Season g = year /\
  Week g = text_or_empty (week_el row) /\
  Day g = text_or_empty (day_el row) /\
  Time_ET g = text_or_empty (time_el row) /\
  Date g = resolve_date (date_el row) /\
  Primetime_Slot g = detect_primetime (Day g) (Time_ET g) (Season g) /\
  Winner g <> "" /\
  (Winner g = "Tie" \/ Winner g = Home_Team g \/ Winner g = Away_Team g) /\
  0 <= Score_Difference g /\
  Score_Difference g = Z.abs (Home_Score g - Away_Score g) /\
  (Home_Score g, Away_Score g) =
    (if (text_or_empty (location_el row) =? "@")%string
     then (parse_points (pts_lose_el row), parse_points (pts_win_el row))
     else (parse_points (pts_win_el row), parse_points (pts_lose_el row))).
Proof.
  unfold scrape_row. intros Hrow.
  destruct (has_col_header row); [discriminate |].
  destruct (winner_el row) as [winner |]; [| discriminate].
  destruct (loser_el row) as [loser |]; [| discriminate].
  destruct (PyStr.truthy winner) eqn:Ht; [| discriminate]. simpl in Hrow.
  destruct (_ || _); [discriminate |].
  apply truthy_nonempty in Ht.
  destruct (text_or_empty (location_el row) =? "@")%string;
    injection Hrow as <-; simpl;
    (repeat split; try reflexivity; try lia;
     destruct (_ =? _); try discriminate; auto).
Qed.

Lemma record_consistency_witness :
  Season game_marked = 2020 /\
  Primetime_Slot game_marked =
    detect_primetime (Day game_marked) (Time_ET game_marked) (Season game_marked) /\
  (Home_Score game_marked, Away_Score game_marked) =
    (parse_points (pts_lose_el row_marked), parse_points (pts_win_el row_marked)).
Proof.
  pose proof (record_consistency 2020 row_marked game_marked eq_refl)
    as (Hs & _ & _ & _ & _ & Hp & _ & _ & _ & _ & Hsc).
  split; [exact Hs | split; [exact Hp | exact Hsc]].
Defined.

(** X6. The location marker only decides the sides: a row with the
    marker [@] gives the record of the same row without the marker with
    home and away exchanged, teams and scores, and the same season, week,
    day, date, time, score difference, winner and primetime slot; the two
    rows are accepted or dropped together. *)
Theorem marker_swaps_sides (year : Z) (row : table_row) (location : option string) :
  text_or_empty location <> "@" ->
  scrape_row year (with_location (Some "@") row) =
  swap_home_away <$> scrape_row year (with_location location row).
Proof.
  intros Hloc. apply String.eqb_neq in Hloc.
  unfold scrape_row, with_location. simpl.
  destruct (has_col_header row); [reflexivity |].
  destruct (winner_el row) as [winner |]; [| reflexivity].
  destruct (loser_el row) as [loser |]; [| reflexivity].
  destruct (_ || _ || _); [reflexivity |].
  rewrite Hloc. reflexivity.
Qed.

Lemma marker_swaps_sides_witness :
  scrape_row 2020 (with_location (Some "@") row_marked) =
  swap_home_away <$> scrape_row 2020 (with_location None row_marked).
Proof. apply (marker_swaps_sides 2020 row_marked None). discriminate. Defined.

Lemma match_iso_date_head (csk : string) :
  match_iso_date csk = true ->
  PyStr.truthy csk = true /\ PyStr.startswith "zz" csk = false.
Proof.
  destruct csk as [| c csk]; [discriminate |].
  intros Hm. split; [reflexivity |].
  assert (Hd : PyStr.isdigit c = true).
  { unfold match_iso_date in Hm.
    repeat match type of Hm with
           | match ?x with _ => _ end = true => destruct x; try discriminate
           end.
    all: simpl in Hm; apply andb_prop in Hm as [Hm _]; exact Hm. }
  clear Hm. revert Hd. unfold PyStr.startswith.
  destruct c as [[] [] [] [] [] [] [] []]; vm_compute; congruence.
Qed.

(** X7. The date of a record is the [csk] attribute of the date cell
    exactly when that attribute starts with an ISO date [YYYY-MM-DD];
    the tests for an empty attribute and for the placeholder [zz...]
    never decide, as such attributes do not start with a digit.
    Otherwise the date is the visible text, and the empty string when
    the row has no date cell. *)
Theorem resolve_date_rule (el : option date_cell) :
  resolve_date el =
    match el with
    | Some cell =>
        if match_iso_date (default "" (csk_attr cell))
        then default "" (csk_attr cell) else date_text cell
    | None => ""
    end.
Proof.
  destruct el as [cell |]; [| reflexivity]. unfold resolve_date.
  destruct (match_iso_date (default "" (csk_attr cell))) eqn:Hm.
  - destruct (match_iso_date_head _ Hm) as [-> ->]. reflexivity.
  - rewrite andb_false_r. reflexivity.
Qed.

(** ** Fetch orchestrator, further *)

Lemma rsplit_newline_none (s : string) :
  has_newline s = false -> rsplit_newline s = None.
Proof.
  unfold has_newline. induction s as [| c s IH]; simpl; [reflexivity |].
  intros Hn. apply orb_false_elim in Hn as [Hc Hs].
  rewrite (IH Hs), Hc. reflexivity.
Qed.

Lemma rsplit_newline_last (html code : string) :
  has_newline code = false ->
  rsplit_newline (html +:+ String "010" code) = Some (html, code).
Proof.
  intros Hn. induction html as [| c html IH].
  - change ("" +:+ String "010" code) with (String "010" code).
    simpl. rewrite (rsplit_newline_none code Hn). reflexivity.
  - change (String c html +:+ String "010" code)
      with (String c (html +:+ String "010" code)).
    simpl. rewrite IH. reflexivity.
Qed.

(** X8. The output of curl is taken apart as it was put together: a page
    followed by a line feed and a status text without line feed splits
    into that page, whatever line feeds it holds, and the stripped
    status; an output without any line feed is taken as a page with the
    status [000]. *)
Theorem split_output_round_trip (html code output : string) :
  (has_newline code = false ->
   split_output (html +:+ String "010" code) = (html, PyStr.strip code)) /\
  (has_newline output = false -> split_output output = (output, "000")).
Proof.
  unfold split_output. split; intros Hn.
  - rewrite (rsplit_newline_last html code Hn). reflexivity.
  - rewrite (rsplit_newline_none output Hn). reflexivity.
Qed.

Lemma split_output_round_trip_witness :
  split_output ("<html>" +:+ String "010" "</html>" +:+ String "010" "200 ") =
    ("<html>" +:+ String "010" "</html>", "200") /\
  split_output "curl: (6)" = ("curl: (6)", "000").
Proof.
  split.
  - apply (proj1 (split_output_round_trip
             ("<html>" +:+ String "010" "</html>") "200 " "")). reflexivity.
  - apply (proj2 (split_output_round_trip "" "" "curl: (6)")). reflexivity.
Defined.

Section FetchMore.

Variable net : nat -> string -> outcome.
Variable find_rows : string -> option (list table_row).

(** An attempt that gets a page ends the loop there. *)
Lemma fetch_loop_page url attempt remaining w output html :
  net (calls w) url = Completed output ->
  split_output output = (html, "200") -> html <> "" ->
  fetch_loop net url attempt (S remaining) w =
    (Some html, World (S (calls w)) (trace w ++ [Run url])).
Proof.
  intros Hnet Hsplit Hhtml. simpl. unfold mbind, M_bind, run_curl.
  rewrite Hnet, Hsplit. apply truthy_nonempty in Hhtml. rewrite Hhtml.
  reflexivity.
Qed.

(** An attempt that gets no page is followed by one sleep, of 5 seconds
    or of 15 seconds times the number of the attempt, and the next
    attempt. *)
Lemma fetch_loop_fail url attempt remaining w :
  (forall output, net (calls w) url = Completed output ->
     (split_output output).2 = "200" -> (split_output output).1 = "") ->
  exists q,
    (q = 5%Q \/ q = inject_Z ((Z.of_nat attempt + 1) * 15)) /\
    fetch_loop net url attempt (S remaining) w =
    fetch_loop net url (S attempt) remaining
      (World (S (calls w)) ((trace w ++ [Run url]) ++ [Sleep q])).
Proof.
  intros Hfail. simpl. unfold mbind, M_bind, run_curl.
  destruct (net (calls w) url) as [output |].
  - specialize (Hfail output eq_refl).
    destruct (split_output output) as [html code]. simpl in Hfail.
    destruct (String.eqb_spec code "200") as [-> | H200].
    + rewrite (Hfail eq_refl). simpl. exists 5%Q. split; [left |]; reflexivity.
    + simpl. destruct (code =? "429")%string.
      * eexists. split; [right |]; reflexivity.
      * exists 5%Q. split; [left |]; reflexivity.
  - exists 5%Q. split; [left |]; reflexivity.
Qed.

Lemma fetch_loop_nonempty url remaining : forall attempt w html,
  (fetch_loop net url attempt remaining w).1 = Some html -> html <> "".
Proof.
  induction remaining as [| remaining IH]; intros attempt w html; [discriminate |].
  simpl. unfold mbind, M_bind, run_curl.
  destruct (net (calls w) url) as [output |]; [| apply IH].
  destruct (split_output output) as [page code].
  destruct ((code =? "200")%string && PyStr.truthy page) eqn:Hok.
  - apply andb_prop in Hok as [_ Hpage]. simpl. intros [= <-].
    apply truthy_nonempty, Hpage.
  - destruct (code =? "429")%string; apply IH.
Qed.

Lemma fetch_loop_first_page url output html (k : nat) :
  split_output output = (html, "200") -> html <> "" ->
  forall retries w attempt,
  (k < retries)%nat ->
  (forall i output', (i < k)%nat ->
     net (calls w + i) url = Completed output' ->
     (split_output output').2 = "200" -> (split_output output').1 = "") ->
  net (calls w + k) url = Completed output ->
  (fetch_loop net url attempt retries w).1 = Some html /\
  calls (fetch_loop net url attempt retries w).2 = (calls w + k + 1)%nat /\
  last (trace (fetch_loop net url attempt retries w).2) = Some (Run url).
Proof.
  intros Hsplit Hhtml.
  induction k as [| k IH]; intros retries w attempt Hk Hfail Hnet.
  - destruct retries as [| retries]; [lia |].
    rewrite Nat.add_0_r in Hnet.
    rewrite (fetch_loop_page url attempt retries w output html Hnet Hsplit Hhtml).
    simpl. split; [reflexivity | split; [lia | apply last_snoc]].
  - destruct retries as [| retries]; [lia |].
    destruct (fetch_loop_fail url attempt retries w) as (q & _ & ->).
    { intros output' Hn. apply (Hfail 0%nat); [lia |].
      rewrite Nat.add_0_r. exact Hn. }
    set (w' := World _ _).
    destruct (IH retries w' (S attempt)) as (Hr & Hc & Hl); [lia | | |].
    + intros i output' Hi. subst w'. cbn [calls].
      rewrite Nat.add_succ_comm. apply Hfail. lia.
    + subst w'. cbn [calls]. rewrite Nat.add_succ_comm. exact Hnet.
    + rewrite Hr, Hc. subst w'. cbn [calls].
      split; [reflexivity | split; [lia | exact Hl]].
Qed.

(** X9. [fetch_page] stops at the first attempt that gets a page: when
    the attempts before the [k]-th get none and the [k]-th gets a page
    that is not empty with status 200, that page is returned after
    [k + 1] starts of curl, and the last event is that start, with no
    sleep after it. A page that is returned is never empty. *)
Theorem fetch_page_success :
  (forall url retries w (k : nat) output html,
     (k < retries)%nat ->
     (forall i output', (i < k)%nat ->
        net (calls w + i) url = Completed output' ->
        (split_output output').2 = "200" -> (split_output output').1 = "") ->
     net (calls w + k) url = Completed output ->
     split_output output = (html, "200") -> html <> "" ->
     let r := fetch_page net url retries w in
     r.1 = Some html /\ calls r.2 = (calls w + k + 1)%nat /\
     last (trace r.2) = Some (Run url)) /\
  (forall url retries w html,
     (fetch_page net url retries w).1 = Some html -> html <> "").
Proof.
  split; [| intros url retries w html; apply fetch_loop_nonempty].
  intros url retries w k output html Hk Hfail Hnet Hsplit Hhtml.
  apply (fetch_loop_first_page url output html k Hsplit Hhtml); assumption.
Qed.

Lemma slept_snoc (t : list event) (e : event) :
  (slept (t ++ [e]) == slept t + seconds e)%Q.
Proof.
  unfold slept. induction t as [| x t IH]; simpl.
  - ring.
  - rewrite IH. ring.
Qed.

Lemma delays_snoc (t : list event) (e : event) :
  delays (t ++ [e]) = (delays t + if is_delay e then 1 else 0)%nat.
Proof.
  unfold delays. rewrite List.filter_app, length_app. simpl.
  destruct (is_delay e); reflexivity.
Qed.

Lemma wait_bound_nonneg (remaining : nat) : forall attempt,
  0 <= wait_bound attempt remaining.
Proof.
  induction remaining as [| r IH]; intros attempt; simpl; [lia |].
  specialize (IH (S attempt)). lia.
Qed.

Lemma is_delay_whole (z : Z) : is_delay (Sleep (inject_Z z)) = false.
Proof.
  unfold is_delay, REQUEST_DELAY, Qeq_bool, inject_Z. simpl.
  apply Z.eqb_neq. lia.
Qed.

(** What one call of the loop of [fetch_page] adds to the trace: no
    sleep of the length of the delay between seasons, and sleeps within
    the bound. *)
Lemma fetch_loop_effects url remaining : forall attempt w,
  delays (trace (fetch_loop net url attempt remaining w).2) = delays (trace w) /\
  (slept (trace (fetch_loop net url attempt remaining w).2) <=
   slept (trace w) + inject_Z (wait_bound attempt remaining))%Q.
Proof.
  induction remaining as [| remaining IH]; intros attempt w.
  - simpl. split; [reflexivity |]. rewrite Qplus_0_r. apply Qle_refl.
  - assert (Hnext : forall q, (q = 5%Q \/ q = inject_Z ((Z.of_nat attempt + 1) * 15)) ->
      let w' := World (S (calls w)) ((trace w ++ [Run url]) ++ [Sleep q]) in
      delays (trace (fetch_loop net url (S attempt) remaining w').2) = delays (trace w) /\
      (slept (trace (fetch_loop net url (S attempt) remaining w').2) <=
       slept (trace w) + inject_Z (wait_bound attempt (S remaining)))%Q).
    { intros q Hq w'. destruct (IH (S attempt) w') as [Hd Hs]. split.
      - rewrite Hd. subst w'. cbn [trace]. rewrite !delays_snoc.
        destruct Hq as [-> | ->]; [change 5%Q with (inject_Z 5) |];
          rewrite is_delay_whole; simpl; lia.
      - eapply Qle_trans; [exact Hs |]. subst w'. cbn [trace].
        rewrite !slept_snoc. simpl seconds. cbn [wait_bound].
        rewrite inject_Z_plus.
        assert (Hq' : (q <= inject_Z (15 * (Z.of_nat attempt + 1)))%Q).
        { destruct Hq as [-> | ->].
          - change 5%Q with (inject_Z 5). rewrite <- Zle_Qle. lia.
          - rewrite <- Zle_Qle. lia. }
        set (a := slept (trace w)) in *.
        set (b := inject_Z (wait_bound (S attempt) remaining)) in *.
        set (c := inject_Z (15 * (Z.of_nat attempt + 1))) in *.
        lra. }
    simpl fetch_loop. unfold mbind, M_bind, run_curl.
    destruct (net (calls w) url) as [output |].
    + destruct (split_output output) as [html code].
      destruct (_ && _).
      * simpl. split.
        -- rewrite delays_snoc. simpl. lia.
        -- rewrite slept_snoc. simpl seconds.
           pose proof (wait_bound_nonneg remaining (S attempt)) as Hb.
           assert (Hq : (0 <= inject_Z (15 * (Z.of_nat attempt + 1) +
                                         wait_bound (S attempt) remaining))%Q).
           { change 0%Q with (inject_Z 0). rewrite <- Zle_Qle. lia. }
           set (a := slept (trace w)) in *.
           set (b := inject_Z _) in *. lra.
      * destruct (code =? "429")%string.
        -- apply (Hnext _ (or_intror eq_refl)).
        -- apply (Hnext _ (or_introl eq_refl)).
    + apply (Hnext _ (or_introl eq_refl)).
Qed.

(** X10. One call of [fetch_page] with the three default attempts sleeps
    90 seconds at most, the 15, 30 and 45 seconds of three rate
    limits, on top of what was slept before. *)
Theorem fetch_page_wait_bound (url : string) (w : world) :
  (slept (trace (fetch_page net url MAX_RETRIES w).2) <= slept (trace w) + 90)%Q.
Proof.
  destruct (fetch_loop_effects url 3 0%nat w) as [_ Hs]. exact Hs.
Qed.

Lemma scrape_row_season year row g : scrape_row year row = Some g -> Season g = year.
Proof.
  unfold scrape_row. intros Hrow.
  destruct (has_col_header row); [discriminate |].
  destruct (winner_el row); [| discriminate].
  destruct (loser_el row); [| discriminate].
  destruct (_ || _ || _); [discriminate |].
  destruct (_ =? _)%string; injection Hrow as <-; reflexivity.
Qed.

(** What [scrape_season] does to the world is what its [fetch_page]
    does; its games are of its year. *)
Lemma scrape_season_world year w :
  (scrape_season net find_rows year w).2 =
  (fetch_page net (BASE_URL year) MAX_RETRIES w).2.
Proof.
  unfold scrape_season, mbind, M_bind.
  destruct (fetch_page net (BASE_URL year) MAX_RETRIES w) as [[html |] w'];
    [destruct (find_rows html) |]; reflexivity.
Qed.

Lemma scrape_season_games year w g :
  g ∈ (scrape_season net find_rows year w).1 -> Season g = year.
Proof.
  unfold scrape_season, mbind, M_bind.
  destruct (fetch_page net (BASE_URL year) MAX_RETRIES w) as [[html |] w'];
    [destruct (find_rows html) as [rows |] |]; simpl;
    try (intros Hg; apply elem_of_nil in Hg; contradiction).
  unfold scrape_rows. rewrite list_elem_of_omap.
  intros (row & _ & Hrow). eapply scrape_row_season, Hrow.
Qed.

Lemma scrape_years_effects end_year (years : list Z) : forall st w,
  let r := scrape_years net find_rows end_year years st w in
  (calls r.2 <= calls w + 3 * length years)%nat /\
  delays (trace r.2) =
    (delays (trace w) + length (List.filter (fun y => (y <? end_year)%Z) years))%nat.
Proof.
  induction years as [| year years IH]; intros st w.
  - simpl. split; lia.
  - cbv zeta. rewrite scrape_years_cons. cbv zeta.
    pose proof (fetch_loop_calls net (BASE_URL year) 3 0%nat w) as Hc.
    destruct (fetch_loop_effects (BASE_URL year) 3 0%nat w) as [Hd _].
    change (fetch_loop net (BASE_URL year) 0 3 w)
      with (fetch_page net (BASE_URL year) MAX_RETRIES w) in Hc, Hd.
    rewrite <- scrape_season_world in Hc, Hd.
    set (r := scrape_season net find_rows year w) in *.
    match goal with |- context [scrape_years net find_rows end_year years ?s ?w'] =>
      destruct (IH s w') as [Hc' Hd'] end.
    cbv zeta in Hc', Hd'. split.
    + etransitivity; [exact Hc' |]. simpl length.
      destruct (year <? end_year); simpl; lia.
    + rewrite Hd'. simpl List.filter.
      destruct (year <? end_year); simpl.
      * rewrite delays_snoc, Hd. simpl. lia.
      * rewrite Hd. lia.
Qed.

Lemma filter_below_range (start : Z) (n : nat) :
  length (List.filter (fun y => y <? start + Z.of_nat n)
            (seqZ start (Z.of_nat (S n)))) = n.
Proof.
  rewrite seqZ_S, List.filter_app, length_app. simpl.
  rewrite (proj2 (Z.ltb_ge _ _)) by lia. simpl.
  rewrite forallb_filter_id.
  - rewrite length_seqZ. lia.
  - apply forallb_forall. intros y Hy.
    apply list_elem_of_In, elem_of_seqZ in Hy. apply Z.ltb_lt. lia.
Qed.

(** X11. A run over the seasons from [start_year] to [end_year] starts
    curl at most three times per season, and sleeps the delay between
    seasons once after every season but the last: [end_year - start_year]
    times. *)
Theorem scrape_all_effects (start_year end_year : Z) (w : world) :
  start_year <= end_year ->
  let r := scrape_all net find_rows start_year end_year w in
  (calls r.2 <= calls w + 3 * Z.to_nat (end_year + 1 - start_year))%nat /\
  delays (trace r.2) = (delays (trace w) + Z.to_nat (end_year - start_year))%nat.
Proof.
  intros Hle. cbv zeta. unfold scrape_all.
  destruct (scrape_years_effects end_year
              (seqZ start_year (end_year + 1 - start_year)) ([], []) w) as [Hc Hd].
  cbv zeta in Hc, Hd. rewrite length_seqZ in Hc. split; [exact Hc |].
  rewrite Hd. f_equal.
  pose proof (filter_below_range start_year (Z.to_nat (end_year - start_year))) as H.
  replace (start_year + Z.of_nat (Z.to_nat (end_year - start_year)))
    with end_year in H by lia.
  replace (Z.of_nat (S (Z.to_nat (end_year - start_year))))
    with (end_year + 1 - start_year) in H by lia.
  exact H.
Qed.

(** The loop over seasons that are all different: the games and failed
    seasons it adds. *)
Lemma scrape_years_partition end_year (years : list Z) : forall st w,
  NoDup years ->
  exists games failed,
    (scrape_years net find_rows end_year years st w).1 =
      ((st.1 ++ games)%list, (st.2 ++ failed)%list) /\
    (forall g, g ∈ games -> Season g ∈ years) /\
    (forall y, y ∈ failed -> y ∈ years) /\
    (forall y, y ∈ years ->
       (y ∈ failed <-> ~ exists g, g ∈ games /\ Season g = y)).
Proof.
  induction years as [| year years IH]; intros st w Hnd.
  - exists [], []. simpl. rewrite !app_nil_r.
    split; [destruct st; reflexivity |].
    split; [intros g Hg; apply elem_of_nil in Hg; contradiction |].
    split; [intros y Hy; exact Hy |].
    intros y Hy. apply elem_of_nil in Hy. contradiction.
  - apply NoDup_cons in Hnd as [Hyear Hnd].
    rewrite scrape_years_cons. cbv zeta.
    pose proof (scrape_season_games year w) as Hseason.
    destruct (scrape_season net find_rows year w) as [season_games w1].
    cbn [fst snd] in *.
    match goal with |- context [scrape_years net find_rows end_year years ?s ?w'] =>
      destruct (IH s w' Hnd) as (games & failed & Hres & Hg & Hf & Hiff) end.
    rewrite Hres. clear Hres.
    destruct season_games as [| g0 rest].
    + exists games, (year :: failed). cbn [fst snd].
      split; [rewrite <- app_assoc; reflexivity |].
      split; [intros g Hin; apply elem_of_cons; right; apply Hg, Hin |].
      split.
      { intros y Hy. apply elem_of_cons in Hy as [-> | Hy];
          apply elem_of_cons; [left; reflexivity | right; apply Hf, Hy]. }
      intros y Hy. apply elem_of_cons in Hy as [-> | Hy].
      * split; [| intros _; apply elem_of_cons; left; reflexivity].
        intros _ (g & Hin & Hs). apply Hyear. rewrite <- Hs. apply Hg, Hin.
      * rewrite <- (Hiff y Hy). rewrite elem_of_cons. split; [| tauto].
        intros [-> | Hin]; [contradiction | exact Hin].
    + exists ((g0 :: rest) ++ games)%list, failed. cbn [fst snd].
      split; [rewrite <- app_assoc; reflexivity |].
      split.
      { intros g Hin. apply elem_of_app in Hin as [Hin | Hin]; apply elem_of_cons.
        - left. apply Hseason, Hin.
        - right. apply Hg, Hin. }
      split; [intros y Hy; apply elem_of_cons; right; apply Hf, Hy |].
      intros y Hy. apply elem_of_cons in Hy as [-> | Hy].
      * split.
        -- intros Hin. exfalso. apply Hyear, Hf, Hin.
        -- intros Hno. exfalso. apply Hno. exists g0.
           split; [apply elem_of_app; left; apply elem_of_cons; left; reflexivity |].
           apply Hseason. apply elem_of_cons. left. reflexivity.
      * rewrite (Hiff y Hy). split; intros Hno (g & Hin & Hs); apply Hno.
        -- apply elem_of_app in Hin as [Hin | Hin]; [| exists g; split; assumption].
           exfalso. apply Hyear. rewrite <- (Hseason g Hin), Hs. exact Hy.
        -- exists g. split; [apply elem_of_app; right; exact Hin | exact Hs].
Qed.

(** X12. After a run over the seasons from [start_year] to [end_year]
    every game is of a season of the range, every failed season is of the
    range, and a season of the range is recorded as failed exactly when
    the run holds no game of it: each season either gave games or is
    listed as failed, never both. *)
Theorem scrape_all_partition (start_year end_year : Z) (w : world) :
  let r := (scrape_all net find_rows start_year end_year w).1 in
  (forall g, g ∈ r.1 -> start_year <= Season g <= end_year) /\
  (forall y, y ∈ r.2 -> start_year <= y <= end_year) /\
  (forall y, start_year <= y <= end_year ->
     (y ∈ r.2 <-> ~ exists g, g ∈ r.1 /\ Season g = y)).
Proof.
  cbv zeta. unfold scrape_all.
  destruct (scrape_years_partition end_year
              (seqZ start_year (end_year + 1 - start_year)) ([], []) w
              (NoDup_seqZ _ _)) as (games & failed & -> & Hg & Hf & Hiff).
  cbn [fst snd]. rewrite !app_nil_l.
  split; [| split].
  - intros g Hin. apply Hg, elem_of_seqZ in Hin. lia.
  - intros y Hin. apply Hf, elem_of_seqZ in Hin. lia.
  - intros y Hy. apply Hiff, elem_of_seqZ. lia.
Qed.

End FetchMore.

Lemma fetch_page_success_witness :
  (fetch_page net_second_try "u" 3 (World 0 [])).1 = Some "<html>page</html>" /\
  calls (fetch_page net_second_try "u" 3 (World 0 [])).2 = 2%nat.
Proof.
  destruct (proj1 (fetch_page_success net_second_try) "u" 3%nat (World 0 []) 1%nat
              ("<html>page</html>" +:+ String "010" "200") "<html>page</html>")
    as (Hr & Hc & _).
  - lia.
  - intros i output' Hi. assert (i = 0%nat) as -> by lia. discriminate.
  - reflexivity.
  - reflexivity.
  - discriminate.
  - split; [exact Hr | exact Hc].
Defined.

Lemma scrape_all_effects_witness :
  (calls (scrape_all net_rate_limited no_table 1999 2001 (World 0 [])).2 <= 9)%nat /\
  delays (trace (scrape_all net_rate_limited no_table 1999 2001 (World 0 [])).2) = 2%nat.
Proof.
  assert (Hle : 1999 <= 2001) by lia.
  exact (scrape_all_effects net_rate_limited no_table 1999 2001 (World 0 []) Hle).
Defined.

Lemma scrape_all_partition_witness :
  1999 <= 2000 <= 2001.
Proof.
  apply (proj1 (proj2 (scrape_all_partition net_rate_limited no_table 1999 2001
                         (World 0 [])))).
  apply list_elem_of_In. vm_compute. auto.
Defined.

(** ** Betting reconciler, further *)

Section OutcomesMore.

Import AddSpreads.

(** X13. A result is there exactly when the line and both scores are
    known, and then it is one of the three outcomes: the spread result
    is empty if and only if the spread or a score is [None], and
    otherwise [Covered], [Lost] or [Push]; the same for the over/under
    result with [Over], [Under] and [Push]. *)
Theorem bet_result_presence (h a : option Z) (line : option Q) :
  (compute_spread_result h a line = "" <-> line = None \/ h = None \/ a = None) /\
  (compute_ou_result h a line = "" <-> line = None \/ h = None \/ a = None) /\
  compute_spread_result h a line ∈ [""; "Covered"; "Lost"; "Push"] /\
  compute_ou_result h a line ∈ [""; "Over"; "Under"; "Push"].
Proof.
  unfold compute_spread_result, compute_ou_result.
  destruct line as [l |], h as [h |], a as [a |];
    try (repeat split; auto; apply list_elem_of_In; simpl; auto).
  split; [| split; [| split]].
  - destruct (float_gtb _ _); [| destruct (float_ltb _ _)];
      (split; [discriminate | intros [H | [H | H]]; discriminate]).
  - destruct (Qgtb _ _); [| destruct (Qltb _ _)];
      (split; [discriminate | intros [H | [H | H]]; discriminate]).
  - apply list_elem_of_In. destruct (float_gtb _ _); [| destruct (float_ltb _ _)]; simpl; auto.
  - apply list_elem_of_In. destruct (Qgtb _ _); [| destruct (Qltb _ _)]; simpl; auto.
Qed.

Lemma three_way_cases (x y : Q) (above below level : string) :
  let r := if Qgtb x y then above else if Qltb x y then below else level in
  ((y < x)%Q /\ r = above) \/ ((x < y)%Q /\ r = below) \/ ((x == y)%Q /\ r = level).
Proof.
  cbv zeta. unfold Qgtb, Qltb.
  rewrite (Qgt_alt x y), (Qlt_alt x y), (Qeq_alt x y).
  destruct (x ?= y)%Q; auto.
Qed.

(** X14. The two results under an exchange of the sides: with the scores
    exchanged and the spread negated, the line seen from the away team,
    [Covered] becomes [Lost], [Lost] becomes [Covered] and [Push] stays,
    where the two scores and the two float sums are binary64 values, as
    they are for every line that is a multiple of one half when the
    scores and twice the line are under [2 ^ 51] in absolute value;
    where a sum is rounded this can fail; and the over/under result does
    not depend on which team is home. *)
Theorem bet_results_exchange :
  (forall (h a : Z) (s : Q),
     binary64 (inject_Z h) -> binary64 (inject_Z a) ->
     binary64 (inject_Z h + s) -> binary64 (inject_Z a - s) ->
     compute_spread_result (Some a) (Some h) (Some (- s)%Q) =
       mirror_result (compute_spread_result (Some h) (Some a) (Some s))) /\
  (forall (h a k : Z) (s : Q),
     (s == k # 2)%Q -> Z.abs h < 2 ^ 51 -> Z.abs a < 2 ^ 51 -> Z.abs k < 2 ^ 51 ->
     compute_spread_result (Some a) (Some h) (Some (- s)%Q) =
       mirror_result (compute_spread_result (Some h) (Some a) (Some s))) /\
  ~ (forall (h a : Z) (s : Q),
       compute_spread_result (Some a) (Some h) (Some (- s)%Q) =
         mirror_result (compute_spread_result (Some h) (Some a) (Some s))) /\
  (forall (h a : Z) (t : Q),
     compute_ou_result (Some a) (Some h) (Some t) =
       compute_ou_result (Some h) (Some a) (Some t)).
Proof.
  assert (Hexact : forall (h a : Z) (s : Q),
    binary64 (inject_Z h) -> binary64 (inject_Z a) ->
    binary64 (inject_Z h + s) -> binary64 (inject_Z a - s) ->
    compute_spread_result (Some a) (Some h) (Some (- s)%Q) =
      mirror_result (compute_spread_result (Some h) (Some a) (Some s))).
  { intros h a s Hh Ha Hs Hs'.
    rewrite (spread_result_exact h a s Hh Hs), (spread_result_exact a h (- s)%Q Ha Hs').
    destruct (three_way_cases (inject_Z h + s) (inject_Z a) "Covered" "Lost" "Push")
      as [[Hc ->] | [[Hc ->] | [Hc ->]]];
    destruct (three_way_cases (inject_Z a + - s) (inject_Z h) "Covered" "Lost" "Push")
      as [[Hm ->] | [[Hm ->] | [Hm ->]]];
    try reflexivity; exfalso;
    set (x := inject_Z h) in *; set (y := inject_Z a) in *; lra. }
  split; [exact Hexact | split; [| split]].
  - intros h a k s Hs Hh Ha Hk.
    destruct (binary64_half_point h k s Hs Hh Hk) as [Hbh Hbs].
    assert (Hs' : (- s == (- k) # 2)%Q).
    { rewrite Hs. reflexivity. }
    destruct (binary64_half_point a (- k) (- s)%Q Hs' Ha ltac:(lia)) as [Hba Hbs'].
    apply Hexact; assumption.
  - intros H. specialize (H 1 2 (4503599627370497 # 4503599627370496)%Q).
    vm_compute in H. discriminate H.
  - intros h a t. unfold compute_ou_result. rewrite (Z.add_comm a h). reflexivity.
Qed.

End OutcomesMore.

Lemma bet_results_exchange_witness :
  AddSpreads.compute_spread_result (Some 20) (Some 24) (Some (7 # 2)%Q) = "Lost".
Proof.
  exact (proj1 (proj2 bet_results_exchange) 24 20 (-7) (-7 # 2)%Q
           eq_refl eq_refl eq_refl eq_refl).
Defined.

Section MergeMore.

Import AddSpreads.

Variable float_str : Q -> string.
Variable lookup : gmap (string * string) betting.

Lemma row_matched_le_total ws r :
  (row_matched float_str lookup ws r <= row_total float_str lookup ws r <= 1)%nat.
Proof.
  unfold row_matched, row_total, merge_row.
  destruct (cell_value ws r (COL_DATE + 1)), (cell_value ws r (COL_HOME + 1));
    try (simpl; lia).
  destruct (lookup !! _); simpl; lia.
Qed.

Lemma sum_list_fmap_le (f g : nat -> nat) (l : list nat) :
  (forall x, f x <= g x)%nat -> (sum_list (f <$> l) <= sum_list (g <$> l))%nat.
Proof.
  intros Hfg. induction l as [| x l IH]; csimpl; [lia |].
  specialize (Hfg x). lia.
Qed.

Lemma sum_list_fmap_bound (f : nat -> nat) (l : list nat) :
  (forall x, f x <= 1)%nat -> (sum_list (f <$> l) <= length l)%nat.
Proof.
  intros Hf. induction l as [| x l IH]; csimpl; [lia |].
  specialize (Hf x). lia.
Qed.

(** X15. The counts of a merge: [matched] never exceeds [total], and
    [total] never exceeds the number of rows under the header row,
    [max_row - 1]; so the share that is printed when [total > 0] is a
    share of at most 100 percent. *)
Theorem merge_counts_bound (ws : worksheet) :
  let st := merge_sheet float_str lookup ws in
  (st.1.2 <= st.2 <= max_row ws - 1)%nat.
Proof.
  cbv zeta. destruct (merge_sheet_spec float_str lookup ws) as (_ & _ & -> & ->).
  split.
  - apply sum_list_fmap_le. intros r. apply row_matched_le_total.
  - etransitivity.
    + apply sum_list_fmap_bound. intros r. apply row_matched_le_total.
    + unfold data_rows. rewrite length_seq. lia.
Qed.

(** X16. A hit on a data row: when the Date and Home Team cells of the
    row hold values and the lookup has an entry for the first ten
    characters of the stripped date and the stripped home name, then
    after the merge the two result cells hold the outcomes computed from
    the integer readings of the row's scores and the lines of the entry,
    and each line cell holds the line of the entry when the entry has
    one, and what it held before when the entry has none. *)
Theorem merge_hit_cells (ws : worksheet) (r : nat) (date_val home_val : value)
    (b : betting) :
  (2 <= r <= max_row ws)%nat ->
  cell_value ws r (COL_DATE + 1) = Some date_val ->
  cell_value ws r (COL_HOME + 1) = Some home_val ->
  lookup !! (PyStr.take 10 (PyStr.strip (str_of_value float_str date_val)),
             PyStr.strip (str_of_value float_str home_val)) = Some b ->
  let merged := (merge_sheet float_str lookup ws).1.1 in
  let hs := cell_value ws r (COL_HOME_SCORE + 1) ≫= int_of_value in
  let as_ := cell_value ws r (COL_AWAY_SCORE + 1) ≫= int_of_value in
  cell_value merged r NEW_COL_SPREAD_RESULT =
    Some (VStr (compute_spread_result hs as_ (spread b))) /\
  cell_value merged r NEW_COL_OU_RESULT =
    Some (VStr (compute_ou_result hs as_ (ou b))) /\
  cell_value merged r NEW_COL_SPREAD =
    match spread b with
    | Some line => Some (VFloat line)
    | None => cell_value ws r NEW_COL_SPREAD
    end /\
  cell_value merged r NEW_COL_OU =
    match ou b with
    | Some line => Some (VFloat line)
    | None => cell_value ws r NEW_COL_OU
    end.
Proof.
  intros Hr Hd Hh Hb. cbv zeta.
  destruct (merge_sheet_spec float_str lookup ws) as (Hcells & _).
  assert (Hin : r ∈ data_rows ws).
  { unfold data_rows. apply elem_of_seq. lia. }
  rewrite !Hcells, !decide_True by exact Hin.
  unfold row_sheet, merge_row. rewrite Hd, Hh, Hb. cbv zeta. cbn [fst snd].
  unfold NEW_COL_SPREAD, NEW_COL_OU, NEW_COL_SPREAD_RESULT, NEW_COL_OU_RESULT.
  rewrite !cell_value_write.
  destruct (spread b), (ou b); simpl;
    repeat split; repeat case_decide; simplify_eq; reflexivity.
Qed.

(** X17. The header row after a merge: column 13 is headed [Spread]; a
    sheet that was so headed keeps its whole first row as it was, the
    other three headers included, whatever they are; any other sheet
    gets the four headers [Spread], [Over/Under], [Spread Result] and
    [O/U Result] in columns 13 to 16. *)
Theorem merge_headers (ws : worksheet) :
  let merged := (merge_sheet float_str lookup ws).1.1 in
  is_spread_header (cell_value merged 1 NEW_COL_SPREAD) = true /\
  (is_spread_header (cell_value ws 1 NEW_COL_SPREAD) = true ->
   forall c, cell_value merged 1 c = cell_value ws 1 c) /\
  (is_spread_header (cell_value ws 1 NEW_COL_SPREAD) = false ->
   forall i header, NEW_HEADERS !! i = Some header ->
     cell_value merged 1 (NEW_COL_SPREAD + i) = Some (VStr header)).
Proof.
  cbv zeta. destruct (merge_sheet_spec float_str lookup ws) as (Hcells & _).
  assert (Hrow : forall c, cell_value (merge_sheet float_str lookup ws).1.1 1 c =
                           cell_value (write_headers ws) 1 c).
  { intros c. rewrite Hcells, decide_False by apply data_rows_not_header.
    reflexivity. }
  split; [| split].
  - rewrite Hrow. apply write_headers_head.
  - intros Hh c. rewrite Hrow. unfold write_headers. rewrite Hh. reflexivity.
  - intros Hh i header Hi. rewrite Hrow, write_headers_unfold, Hh.
    unfold NEW_COL_SPREAD. rewrite !cell_value_write.
    destruct i as [| [| [| [| i]]]]; simpl in Hi; try discriminate;
      injection Hi as <-; simpl;
      repeat case_decide; simplify_eq; reflexivity.
Qed.

End MergeMore.

Lemma merge_hit_cells_witness :
  AddSpreads.cell_value (AddSpreads.merge_sheet plain_float_str lions_line stale_sheet).1.1 2 15 =
    Some (AddSpreads.VStr "Lost") /\
  AddSpreads.cell_value (AddSpreads.merge_sheet plain_float_str lions_line stale_sheet).1.1 2 13 =
    Some (AddSpreads.VFloat (5 # 2)).
Proof.
  destruct (merge_hit_cells plain_float_str lions_line stale_sheet 2
              (AddSpreads.VStr "2020-09-13") (AddSpreads.VStr "Detroit Lions")
              (AddSpreads.Betting (Some (5 # 2)) (Some (44 # 1))))
    as (Hsr & _ & Hsp & _).
  - simpl. lia.
  - reflexivity.
  - reflexivity.
  - reflexivity.
  - split; [exact Hsr | exact Hsp].
Defined.

Lemma merge_headers_witness :
  AddSpreads.cell_value
    (AddSpreads.merge_sheet plain_float_str lions_line stale_sheet).1.1 1 14 = None.
Proof.
  rewrite (proj1 (proj2 (merge_headers plain_float_str lions_line stale_sheet))
             eq_refl 14%nat).
  reflexivity.
Defined.


Lemma take_length (n : nat) : forall s, (String.length (PyStr.take n s) <= n)%nat.
Proof.
  unfold PyStr.take. induction n as [| n IH]; intros [| c s]; simpl; try lia.
  specialize (IH s). lia.
Qed.

Lemma take_head (n : nat) (s : string) (c : ascii) (r : string) :
  PyStr.take n s = String c r -> exists r', s = String c r'.
Proof.
  unfold PyStr.take. destruct n as [| n], s as [| c' s]; simpl; try discriminate.
  intros [= -> _]. eauto.
Qed.

Lemma foldl_ext_pointwise {A B} (f g : A -> B -> A) (l : list B) : forall a,
  (forall x y, f x y = g x y) -> foldl f a l = foldl g a l.
Proof.
  induction l as [| y l IH]; intros a Hfg; simpl; [reflexivity |].
  rewrite Hfg. apply IH, Hfg.
Qed.

Section MergeKeys.

Import AddSpreads.

Variable float_str : Q -> string.
Variable lookup : gmap (string * string) betting.

(** X18. Entries of the lookup that no row can match: an entry whose
    date has more than ten characters or starts with white space, or
    whose home name has white space around it, is never hit, since the
    merge looks up the first ten characters of the stripped date and the
    stripped home name; the merge gives the same sheet and counts without
    the entry. *)
Theorem merge_ignores_unreachable_keys (date home : string) (ws : worksheet) :
  (10 < String.length date)%nat \/
  (exists c r, date = String c r /\ PyStr.isspace c = true) \/
  PyStr.strip home <> home ->
  merge_sheet float_str (delete (date, home) lookup) ws =
  merge_sheet float_str lookup ws.
Proof.
  intros Hkey. unfold merge_sheet. apply foldl_ext_pointwise.
  intros [[ws' matched] total] r. unfold merge_row.
  destruct (cell_value ws' r (COL_DATE + 1)) as [date_val |]; [| reflexivity].
  destruct (cell_value ws' r (COL_HOME + 1)) as [home_val |]; [| reflexivity].
  rewrite lookup_delete_ne; [reflexivity |].
  intros [= Hd Hh]. destruct Hkey as [Hlen | [(c & rest & -> & Hc) | Hstrip]].
  - pose proof (take_length 10 (PyStr.strip (str_of_value float_str date_val))) as Hl.
    rewrite <- Hd in Hl. lia.
  - symmetry in Hd. apply take_head in Hd as (r' & Hd).
    destruct (strip_head (str_of_value float_str date_val))
      as [He | (c' & r'' & He & Hc')]; rewrite He in Hd; [discriminate |].
    injection Hd as -> _. congruence.
  - apply Hstrip. rewrite Hh. apply strip_idem.
Qed.

End MergeKeys.

Lemma merge_ignores_unreachable_keys_witness :
  AddSpreads.merge_sheet plain_float_str
    (delete ("2020-09-13", " Detroit Lions") lions_line) stale_sheet =
  AddSpreads.merge_sheet plain_float_str lions_line stale_sheet.
Proof.
  apply (merge_ignores_unreachable_keys plain_float_str lions_line
           "2020-09-13" " Detroit Lions" stale_sheet).
  right. right. discriminate.
Defined.

(** ** Betting reconciler: the lookup of the betting workbook *)

Section BuildFacts.

Import AddSpreads BettingSource.

Variable datetime : Type.
Variable strftime_ymd : datetime -> string.
Variable datetime_str : datetime -> string.
Variable float_str : Q -> string.
Variable float_of_str : string -> option Q.

Abbreviation entry_of := (row_entry datetime strftime_ymd datetime_str float_str float_of_str).
Abbreviation build := (build_betting_lookup datetime strftime_ymd datetime_str float_str float_of_str).
Abbreviation step := (build_row datetime strftime_ymd datetime_str float_str float_of_str).

Lemma build_snoc rows row : build (rows ++ [row]) = step (build rows) row.
Proof. unfold build_betting_lookup. rewrite foldl_app. reflexivity. Qed.

Lemma build_some_inv rows row lookup :
  build (rows ++ [row]) = Some lookup ->
  exists lookup' entry,
    build rows = Some lookup' /\ entry_of row = Some entry /\
    lookup = match entry with
             | Some (key, b) => <[key := b]> lookup'
             | None => lookup'
             end.
Proof.
  rewrite build_snoc. unfold build_row.
  destruct (build rows) as [lookup' |]; [| discriminate]. simpl.
  destruct (entry_of row) as [entry |]; [| discriminate]. simpl.
  intros Hl. exists lookup', entry. split; [reflexivity | split; [reflexivity |]].
  destruct entry as [[key b] |]; congruence.
Qed.

(** The key of a row that is stored. *)
Lemma row_entry_key row date home b :
  entry_of row = Some (Some ((date, home), b)) ->
  date <> "" /\ home <> "" /\ PyStr.strip home = home.
Proof.
  unfold row_entry.
  destruct (row !! AB_DATE) as [[raw_date |] |]; simpl; try discriminate.
  destruct (row !! AB_HOME) as [home_cell |]; simpl; [| discriminate].
  destruct (row !! AB_HOME_LINE_CLOSE) as [sp |]; simpl; [| discriminate].
  destruct (row !! AB_TOTAL_SCORE_CLOSE) as [o |]; simpl; [| discriminate].
  destruct (PyStr.truthy (home_text _ _ _ home_cell)) eqn:Hh; simpl; [| discriminate].
  destruct (PyStr.truthy (date_text_of _ _ _ raw_date)) eqn:Hd; simpl; [| discriminate].
  intros [= <- <- _]. apply truthy_nonempty in Hh, Hd.
  split; [exact Hd | split; [exact Hh |]].
  unfold home_text. apply strip_idem.
Qed.

(** X19. The lookup that is built: every entry comes from a row of the
    workbook that stores it, its date key and its home key are not
    empty, and its home key has no white space around it; the lookup has
    at most one entry per row. *)
Theorem build_lookup_entries (rows : list (list (option (ab_value datetime))))
    (lookup : gmap (string * string) betting) :
  build rows = Some lookup ->
  (forall date home b, lookup !! (date, home) = Some b ->
     date <> "" /\ home <> "" /\ PyStr.strip home = home /\
     exists row, row ∈ rows /\ entry_of row = Some (Some ((date, home), b))) /\
  (size lookup <= length rows)%nat.
Proof.
  revert lookup. induction rows as [| row rows IH] using rev_ind; intros lookup Hb.
  - injection Hb as <-. split; [| rewrite map_size_empty; simpl; lia].
    intros date home b Hl. rewrite lookup_empty in Hl. discriminate.
  - apply build_some_inv in Hb as (lookup' & entry & Hb' & He & ->).
    destruct (IH lookup' Hb') as [Hkeys Hsize]. rewrite length_app. simpl.
    assert (Hold : forall date home b, lookup' !! (date, home) = Some b ->
      date <> "" /\ home <> "" /\ PyStr.strip home = home /\
      exists row', row' ∈ (rows ++ [row])%list /\
        entry_of row' = Some (Some ((date, home), b))).
    { intros date home b Hl.
      destruct (Hkeys date home b Hl) as (Hd & Hh & Hs & row' & Hin & Hrow).
      repeat split; try assumption. exists row'.
      split; [apply elem_of_app; left; exact Hin | exact Hrow]. }
    destruct entry as [[[date0 home0] b0] |]; [| split; [exact Hold | lia]].
    split.
    + intros date home b Hl.
      destruct (decide ((date0, home0) = (date, home))) as [[= <- <-] | Hne].
      * rewrite lookup_insert_eq in Hl. injection Hl as <-.
        destruct (row_entry_key row date0 home0 b0 He) as (Hd & Hh & Hs).
        repeat split; try assumption. exists row.
        split; [apply elem_of_app; right; apply list_elem_of_singleton; reflexivity |].
        exact He.
      * rewrite lookup_insert_ne in Hl by exact Hne. apply Hold, Hl.
    + destruct (lookup' !! (date0, home0)) eqn:Hl.
      * rewrite map_size_insert_Some by eauto. lia.
      * rewrite map_size_insert_None by exact Hl. lia.
Qed.

Lemma build_passes_over rows lookup key b :
  build [] = Some ∅ /\
  (build rows = Some lookup ->
   forall post,
     (forall row, row ∈ post -> exists entry, entry_of row = Some entry /\
        forall b', entry <> Some (key, b')) ->
     lookup !! key = Some b ->
     exists lookup', build (rows ++ post) = Some lookup' /\ lookup' !! key = Some b).
Proof.
  split; [reflexivity |]. intros Hb post. revert lookup Hb.
  induction post as [| row post IH] using rev_ind; intros lookup Hb Hpost Hl.
  - rewrite app_nil_r. eauto.
  - destruct (IH lookup Hb) as (lookup' & Hb' & Hl'); [| exact Hl |].
    { intros row' Hin. apply Hpost, elem_of_app. left. exact Hin. }
    destruct (Hpost row) as (entry & He & Hne).
    { apply elem_of_app. right. apply list_elem_of_singleton. reflexivity. }
    rewrite app_assoc, build_snoc, Hb'. unfold build_row. simpl. rewrite He. simpl.
    destruct entry as [[key' b'] |]; [| eauto].
    eexists. split; [reflexivity |].
    rewrite lookup_insert_ne; [exact Hl' |]. intros ->. apply (Hne b'). reflexivity.
Qed.

(** X20. The last row wins: when the rows before a row build without an
    error, the row stores an entry under a key, and the rows after it
    are read without an error and store nothing under that key, then the
    lookup holds the entry of that row under the key, whatever earlier
    rows stored there. *)
Theorem build_last_row_wins (pre post : list (list (option (ab_value datetime))))
    (row : list (option (ab_value datetime))) (key : string * string) (b : betting) :
  is_Some (build pre) ->
  entry_of row = Some (Some (key, b)) ->
  (forall row', row' ∈ post -> exists entry, entry_of row' = Some entry /\
     forall b', entry <> Some (key, b')) ->
  exists lookup, build (pre ++ row :: post) = Some lookup /\ lookup !! key = Some b.
Proof.
  intros [lookup0 Hpre] Hrow Hpost.
  replace (pre ++ row :: post)%list with ((pre ++ [row]) ++ post)%list
    by (rewrite <- app_assoc; reflexivity).
  apply (proj2 (build_passes_over (pre ++ [row]) (<[key := b]> lookup0) key b)).
  - rewrite build_snoc, Hpre. unfold build_row. simpl. rewrite Hrow. reflexivity.
  - exact Hpost.
  - apply lookup_insert_eq.
Qed.

(** X21. The builder raises an [IndexError] exactly when some row is the
    empty tuple, or has a value in its date cell and fewer than the 36
    cells the loop reads; a row with an empty date cell is passed over
    however short it is. *)
Theorem build_index_error (rows : list (list (option (ab_value datetime)))) :
  build rows = None <->
  exists row, row ∈ rows /\
    (row = [] \/ (exists raw, row !! 0%nat = Some (Some raw)) /\ (length row < 36)%nat).
Proof.
  assert (Hentry : forall row, entry_of row = None <->
            row = [] \/ (exists raw, row !! 0%nat = Some (Some raw)) /\
                        (length row < 36)%nat).
  { intros row. destruct row as [| c0 row]; [split; auto |].
    assert (H0 : (c0 :: row) !! 0%nat = Some c0) by reflexivity.
    assert (Hne : c0 :: row <> []) by discriminate.
    revert H0 Hne. generalize (c0 :: row) as full. clear row. intros full H0 Hne.
    unfold row_entry, AB_DATE, AB_HOME, AB_HOME_LINE_CLOSE, AB_TOTAL_SCORE_CLOSE.
    rewrite H0. cbn [mbind option_bind].
    destruct c0 as [raw |].
    - destruct (decide (length full < 36)%nat) as [Hlt | Hge].
      + split; [intros _; right; split; [eauto | exact Hlt] |]. intros _.
        assert (H35 : full !! 35%nat = None) by (apply lookup_ge_None; lia).
        destruct (full !! 1%nat); cbn [mbind option_bind]; [| reflexivity].
        destruct (full !! 19%nat); cbn [mbind option_bind]; [| reflexivity].
        rewrite H35. reflexivity.
      + split; [| intros [H | [_ H]]; [contradiction | lia]].
        destruct (lookup_lt_is_Some_2 full 1) as [x1 ->]; [lia |].
        destruct (lookup_lt_is_Some_2 full 19) as [x19 ->]; [lia |].
        destruct (lookup_lt_is_Some_2 full 35) as [x35 ->]; [lia |].
        cbn [mbind option_bind]. destruct (_ || _); discriminate.
    - split; [discriminate |]. intros [H | [[raw H] _]]; [contradiction | discriminate]. }
  induction rows as [| row rows IH] using rev_ind.
  - split; [discriminate |]. intros (row & Hin & _). apply elem_of_nil in Hin.
    contradiction.
  - rewrite build_snoc. unfold build_row.
    destruct (build rows) as [lookup |] eqn:Hb; simpl.
    + destruct (entry_of row) as [entry |] eqn:He; simpl.
      * split; [destruct entry as [[k b] |]; discriminate |].
        intros (row' & Hin & Hbad). apply elem_of_app in Hin as [Hin | Hin].
        -- exfalso. destruct IH as [_ IH]. discriminate IH. exists row'. auto.
        -- apply list_elem_of_singleton in Hin. subst row'.
           apply Hentry in Hbad. congruence.
      * split; [| reflexivity]. intros _. exists row.
        split; [apply elem_of_app; right; apply list_elem_of_singleton; reflexivity |].
        apply Hentry, He.
    + split; [| reflexivity]. intros _.
      destruct (proj1 IH eq_refl) as (row' & Hin & Hbad).
      exists row'. split; [apply elem_of_app; left; exact Hin | exact Hbad].
Qed.

End BuildFacts.

Lemma build_lookup_entries_witness :
  PyStr.strip "Detroit Lions" = "Detroit Lions".
Proof.
  pose proof (build_lookup_entries unit (fun _ => "") (fun _ => "")
                plain_float_str (fun _ => None)
                [ab_row (ab_text "2020-09-13 00:00") (ab_text " Detroit Lions ")
                        (ab_number (5 # 2)) (ab_text "n/a")]
                {[ ("2020-09-13", "Detroit Lions") :=
                     AddSpreads.Betting (Some (5 # 2)) None ]} eq_refl) as [H _].
  exact (proj1 (proj2 (proj2 (H "2020-09-13" "Detroit Lions" _ eq_refl)))).
Defined.

Lemma build_last_row_wins_witness :
  exists lookup,
    sample_build
      [ab_row (ab_text "2020-09-13") (ab_text "Detroit Lions") (ab_number 3) None;
       ab_row (ab_text "2020-09-13") (ab_text "Detroit Lions") (ab_number (5 # 2)) None;
       ab_row None None None None] = Some lookup /\
    lookup !! ("2020-09-13", "Detroit Lions") =
      Some (AddSpreads.Betting (Some (5 # 2)) None).
Proof.
  apply (build_last_row_wins unit (fun _ => "") (fun _ => "") plain_float_str
           (fun _ => None)
           [ab_row (ab_text "2020-09-13") (ab_text "Detroit Lions") (ab_number 3) None]
           [ab_row None None None None]).
  - eexists. reflexivity.
  - reflexivity.
  - intros row' Hin. apply list_elem_of_singleton in Hin. subst row'.
    exists None. split; [reflexivity | discriminate].
Defined.

(** ** Web-asset generator, further *)

Section DedupeMore.

Import GenerateData.

Lemma string_compare_refl (s : string) : String.compare s s = Eq.
Proof.
  induction s as [| c s IH]; simpl; [reflexivity |].
  unfold Ascii.compare. rewrite N.compare_refl. exact IH.
Qed.

Lemma key_ltb_irrefl (k : Z * string) : key_ltb k k = false.
Proof.
  unfold key_ltb. rewrite Z.eqb_refl. unfold String.ltb.
  rewrite string_compare_refl. reflexivity.
Qed.

Lemma insert_by_key_filter (k : Z * string) (g : game) (l : list game) :
  filter (fun x => sort_key x = k) (insert_by_key g l) =
  filter (fun x => sort_key x = k) (g :: l).
Proof.
  induction l as [| x l IH]; simpl; [reflexivity |].
  destruct (key_ltb (sort_key x) (sort_key g)) eqn:Hlt; [| reflexivity].
  rewrite (filter_cons _ x), IH, !filter_cons.
  destruct (decide (sort_key x = k)) as [Hx | Hx];
    destruct (decide (sort_key g = k)) as [Hg | Hg]; try reflexivity.
  rewrite Hx, Hg, key_ltb_irrefl in Hlt. discriminate.
Qed.

(** X22. The sort is stable: the records of one (season, date) stand in
    the output in the order in which they stand in the input. *)
Theorem sort_games_stable (k : Z * string) (l : list game) :
  filter (fun g => sort_key g = k) (sort_games l) =
  filter (fun g => sort_key g = k) l.
Proof.
  induction l as [| g l IH]; simpl; [reflexivity |].
  rewrite insert_by_key_filter, !filter_cons, IH. reflexivity.
Qed.

Lemma key_le_not_ltb (k1 k2 : Z * string) : key_le k1 k2 -> key_ltb k2 k1 = false.
Proof.
  unfold key_le, key_ltb. intros [Hlt | [Heq Hle]].
  - rewrite (proj2 (Z.eqb_neq _ _)) by lia. apply Z.ltb_ge. lia.
  - rewrite (proj2 (Z.eqb_eq _ _)) by lia. apply string_ltb_leb, Hle.
Qed.

Lemma sort_games_sorted_id (l : list game) :
  StronglySorted (fun x y => key_le (sort_key x) (sort_key y)) l ->
  sort_games l = l.
Proof.
  induction 1 as [| g l Hs IH Hg]; simpl; [reflexivity |].
  rewrite IH. destruct l as [| x l]; [reflexivity |].
  simpl. apply Forall_cons in Hg as [Hx _].
  rewrite (key_le_not_ltb _ _ Hx). reflexivity.
Qed.

Lemma dedupe_loop_fresh (l : list game) : forall seen unique_games,
  NoDup (key <$> l) -> (forall g, g ∈ l -> key g ∉ seen) ->
  dedupe_loop seen unique_games l = (unique_games ++ l)%list.
Proof.
  induction l as [| g l IH]; intros seen unique_games Hnd Hfresh; simpl.
  - rewrite app_nil_r. reflexivity.
  - rewrite fmap_cons in Hnd. apply NoDup_cons in Hnd as [Hg Hnd].
    rewrite decide_False by (apply Hfresh, elem_of_cons; auto).
    rewrite IH; [rewrite <- app_assoc; reflexivity | exact Hnd |].
    intros x Hx Hin. apply elem_of_union in Hin as [Hin | Hin].
    + apply elem_of_singleton in Hin. apply Hg. rewrite <- Hin.
      apply list_elem_of_fmap. exists x. auto.
    + apply (Hfresh x); [apply elem_of_cons; auto | exact Hin].
Qed.

(** X23. Running the generator on its own output changes nothing: a
    sequence that was deduplicated and sorted is left as it is by a
    second deduplication and sort. *)
Theorem unique_sorted_idem (all_games : list game) :
  unique_sorted (unique_sorted all_games) = unique_sorted all_games.
Proof.
  unfold unique_sorted at 1. unfold dedupe.
  rewrite dedupe_loop_fresh.
  - rewrite app_nil_l. apply sort_games_sorted_id, sort_games_sorted.
  - unfold unique_sorted. rewrite sort_games_perm.
    apply (dedupe_spec all_games).
  - intros g _. apply not_elem_of_empty.
Qed.

(** X24. The number of records that are serialized is the number of
    different keys (season, date, home, away) of the input, and so not
    more than the number of records read. *)
Theorem unique_sorted_count (all_games : list game) :
  length (unique_sorted all_games) =
    size (list_to_set (key <$> all_games) : gset (Z * string * string * string)) /\
  (length (unique_sorted all_games) <= length all_games)%nat.
Proof.
  destruct (dedupe_spec all_games) as (Hnd & Hfirst & Hall).
  assert (Hlen : length (unique_sorted all_games) = length (dedupe all_games)).
  { unfold unique_sorted. rewrite sort_games_perm. reflexivity. }
  assert (Hkeys : forall k, k ∈ key <$> dedupe all_games <-> k ∈ key <$> all_games).
  { intros k. rewrite !list_elem_of_fmap. split.
    - intros (g & -> & Hg). destruct (Hfirst g Hg) as (before & after & -> & _).
      exists g. split; [reflexivity |]. apply elem_of_app. right.
      apply elem_of_cons. left. reflexivity.
    - intros (g & -> & Hg). destruct (Hall g Hg) as (g' & Hg' & Hk).
      exists g'. split; [symmetry; exact Hk | exact Hg']. }
  split.
  - rewrite Hlen, <- (length_fmap key), <- (size_list_to_set (C := gset _)) by exact Hnd.
    f_equal. apply set_eq. intros k. rewrite !elem_of_list_to_set. apply Hkeys.
  - rewrite Hlen, <- (length_fmap key (dedupe all_games)), <- (length_fmap key all_games).
    apply submseteq_length, NoDup_submseteq; [exact Hnd |].
    intros k. apply Hkeys.
Qed.

End DedupeMore.

Section DedupeFiles.

Import GenerateData.

(** The loop on a list of records that it has already some of. *)
Lemma dedupe_loop_acc (l : list game) : forall seen unique_games,
  dedupe_loop seen unique_games l = (unique_games ++ dedupe_loop seen [] l)%list.
Proof.
  induction l as [| g l IH]; intros seen unique_games; simpl.
  - rewrite app_nil_r. reflexivity.
  - destruct (decide (key g ∈ seen)); [apply IH |].
    rewrite (IH _ (unique_games ++ [g])%list), (IH _ [g]).
    rewrite <- app_assoc. reflexivity.
Qed.

Lemma dedupe_loop_seen (l : list game) : forall seen,
  dedupe_loop seen [] l = filter (fun g => key g ∉ seen) (dedupe l).
Proof.
  unfold dedupe. induction l as [| g l IH]; intros seen; simpl; [reflexivity |].
  destruct (decide (key g ∈ (∅ : gset _))) as [Hemp | _]; [set_solver |].
  rewrite (dedupe_loop_acc l ({[key g]} ∪ ∅) [g]).
  rewrite (IH ({[key g]} ∪ ∅)). cbn [app].
  rewrite filter_cons, list_filter_filter.
  destruct (decide (key g ∈ seen)) as [Hin | Hnin].
  - rewrite decide_False by tauto. rewrite IH.
    apply list_filter_iff. intros x. cbn beta.
    rewrite elem_of_union, elem_of_singleton, elem_of_empty. intuition congruence.
  - rewrite decide_True by exact Hnin.
    rewrite (dedupe_loop_acc l ({[key g]} ∪ seen) [g]), IH. cbn [app]. f_equal.
    apply list_filter_iff. intros x. cbn beta.
    rewrite !elem_of_union, elem_of_singleton, elem_of_empty. tauto.
Qed.

Lemma dedupe_loop_app (l1 l2 : list game) : forall seen unique_games,
  dedupe_loop seen unique_games (l1 ++ l2) =
  dedupe_loop (seen ∪ list_to_set (key <$> l1))
    (dedupe_loop seen unique_games l1) l2.
Proof.
  induction l1 as [| g l1 IH]; intros seen unique_games; simpl.
  - f_equal. set_solver.
  - destruct (decide (key g ∈ seen)) as [Hin | Hnin]; rewrite IH; f_equal; set_solver.
Qed.

(** X25. The file given first wins: the deduplication of the records of
    two files read one after the other keeps the deduplicated records of
    the first file, in their order, and then those deduplicated records
    of the second file whose key is not in the first file. *)
Theorem dedupe_first_file_wins (l1 l2 : list game) :
  dedupe (l1 ++ l2) =
  (dedupe l1 ++ filter (fun g => key g ∉ key <$> l1) (dedupe l2))%list.
Proof.
  unfold dedupe at 1. rewrite dedupe_loop_app.
  rewrite (dedupe_loop_acc l2 _ (dedupe_loop ∅ [] l1)), (dedupe_loop_seen l2).
  unfold dedupe at 2. f_equal. apply list_filter_iff. intros g. cbn beta.
  rewrite elem_of_union, elem_of_list_to_set, elem_of_empty. tauto.
Qed.

End DedupeFiles.

(** ** Scraper: the sheet that is written *)

Section WriteExcel.

Import AddSpreads.

Lemma enumerate_snoc {A} (l : list A) (x : A) (start : nat) :
  enumerate (l ++ [x]) start = (enumerate l start ++ [((start + length l)%nat, x)])%list.
Proof.
  unfold enumerate. rewrite length_app. simpl length.
  rewrite seq_app. simpl seq.
  rewrite zip_with_app by (rewrite length_seq; reflexivity). reflexivity.
Qed.

Lemma write_excel_snoc (games : list game) (g : game) :
  write_excel (games ++ [g]) =
  write_game_row (write_excel games) (2 + length games) g.
Proof. unfold write_excel. rewrite enumerate_snoc, foldl_app. reflexivity. Qed.

Lemma cell_value_put ws r c v r' c' :
  cell_value (cell_put ws r c v) r' c' =
    if decide ((r, c) = (r', c')) then Some v else cell_value ws r' c'.
Proof.
  unfold cell_value, cell_put. simpl. rewrite lookup_insert.
  case_decide; reflexivity.
Qed.

(** The cells of a game row. *)
Lemma write_game_row_cells ws r g r' c :
  cell_value (write_game_row ws r g) r' c =
    if decide (r' = r /\ 1 <= c <= 12)%nat
    then game_get g <$> COLUMNS !! (c - 1)%nat
    else cell_value ws r' c.
Proof.
  unfold write_game_row. cbn [enumerate COLUMNS length seq zip zip_with foldl fst snd].
  rewrite !cell_value_put.
  destruct (decide (r' = r /\ 1 <= c <= 12)%nat) as [[-> Hc] | Hn].
  - destruct c as [| [| [| [| [| [| [| [| [| [| [| [| [| c]]]]]]]]]]]]]; try lia;
      repeat case_decide; simplify_eq; reflexivity.
  - repeat case_decide; simplify_eq; try reflexivity; exfalso; apply Hn; lia.
Qed.

Lemma write_header_row_cells ws r' c :
  cell_value (write_header_row ws) r' c =
    if decide (r' = 1 /\ 1 <= c <= 12)%nat
    then VStr <$> COLUMNS !! (c - 1)%nat
    else cell_value ws r' c.
Proof.
  unfold write_header_row. cbn [enumerate COLUMNS length seq zip zip_with foldl fst snd].
  rewrite !cell_value_put.
  destruct (decide (r' = 1 /\ 1 <= c <= 12)%nat) as [[-> Hc] | Hn].
  - destruct c as [| [| [| [| [| [| [| [| [| [| [| [| [| c]]]]]]]]]]]]]; try lia;
      repeat case_decide; simplify_eq; reflexivity.
  - repeat case_decide; simplify_eq; try reflexivity; exfalso; apply Hn; lia.
Qed.

Lemma max_row_write_game_row ws r g :
  max_row (write_game_row ws r g) = Nat.max (max_row ws) r.
Proof.
  unfold write_game_row. cbn [enumerate COLUMNS length seq zip zip_with foldl fst snd].
  unfold cell_put. cbn [max_row]. lia.
Qed.

(** The sheet that is written, cell by cell. *)
Lemma write_excel_spec (games : list game) :
  max_row (write_excel games) = (length games + 1)%nat /\
  (forall c, (1 <= c <= 12)%nat ->
     cell_value (write_excel games) 1 c = VStr <$> COLUMNS !! (c - 1)%nat) /\
  (forall i g c, games !! i = Some g -> (1 <= c <= 12)%nat ->
     cell_value (write_excel games) (i + 2) c = game_get g <$> COLUMNS !! (c - 1)%nat) /\
  (forall r c, (r = 0 \/ length games + 1 < r \/ c = 0 \/ 12 < c)%nat ->
     cell_value (write_excel games) r c = None).
Proof.
  induction games as [| g games IH] using rev_ind.
  - unfold write_excel. cbn [enumerate length seq zip zip_with foldl].
    split; [reflexivity | split; [| split]].
    + intros c Hc. rewrite write_header_row_cells, decide_True by lia. reflexivity.
    + intros i g c Hi. rewrite lookup_nil in Hi. discriminate.
    + intros r c Hrc. rewrite write_header_row_cells, decide_False by (simpl in Hrc; lia).
      reflexivity.
  - destruct IH as (Hmax & Hhead & Hrows & Hnone).
    rewrite write_excel_snoc, length_app. simpl length.
    split; [| split; [| split]].
    + rewrite max_row_write_game_row, Hmax. lia.
    + intros c Hc. rewrite write_game_row_cells, decide_False by lia. apply Hhead, Hc.
    + intros i g' c Hi Hc. rewrite write_game_row_cells.
      destruct (decide (i = length games)) as [-> | Hne].
      * rewrite decide_True by lia.
        rewrite lookup_app_r, Nat.sub_diag in Hi by lia. injection Hi as <-.
        reflexivity.
      * assert (Hlt : (i < length games)%nat).
        { apply lookup_lt_Some in Hi. rewrite length_app in Hi. simpl in Hi. lia. }
        rewrite decide_False by lia. rewrite lookup_app_l in Hi by exact Hlt.
        apply Hrows; assumption.
    + intros r c Hrc. rewrite write_game_row_cells, decide_False by lia.
      apply Hnone. lia.
Qed.

(** X26. The sheet the scraper writes and the columns the reconciler
    reads: the sheet has one row per game under the header row, the
    names of [COLUMNS] in its first row and nothing in columns 13 to 16,
    and the row of the [i]-th game holds its date, home team, home score
    and away score in the columns [COL_DATE + 1], [COL_HOME + 1],
    [COL_HOME_SCORE + 1] and [COL_AWAY_SCORE + 1] where the merge looks
    for them, the scores as integers. *)
Theorem write_excel_columns (games : list game) (i : nat) (g : game) :
  games !! i = Some g ->
  let ws := write_excel games in
  max_row ws = (length games + 1)%nat /\
  (i + 2)%nat ∈ data_rows ws /\
  cell_value ws (i + 2) (COL_DATE + 1) = Some (VStr (Date g)) /\
  cell_value ws (i + 2) (COL_HOME + 1) = Some (VStr (Home_Team g)) /\
  cell_value ws (i + 2) (COL_AWAY + 1) = Some (VStr (Away_Team g)) /\
  cell_value ws (i + 2) (COL_HOME_SCORE + 1) = Some (VInt (Home_Score g)) /\
  cell_value ws (i + 2) (COL_AWAY_SCORE + 1) = Some (VInt (Away_Score g)) /\
  (forall j name, COLUMNS !! j = Some name ->
     cell_value ws 1 (j + 1) = Some (VStr name)) /\
  (forall r c, betting_column c -> cell_value ws r c = None).
Proof.
  intros Hi. cbv zeta.
  destruct (write_excel_spec games) as (Hmax & Hhead & Hrows & Hnone).
  pose proof (lookup_lt_Some _ _ _ Hi) as Hlt.
  split; [exact Hmax |].
  split; [unfold data_rows; rewrite Hmax; apply elem_of_seq; lia |].
  unfold COL_DATE, COL_HOME, COL_AWAY, COL_HOME_SCORE, COL_AWAY_SCORE.
  rewrite !(Hrows i g) by (assumption || simpl; lia).
  repeat (split; [reflexivity |]).
  split.
  - intros j name Hj. pose proof (lookup_lt_Some _ _ _ Hj) as Hlj. simpl in Hlj.
    rewrite Hhead by lia. replace (j + 1 - 1)%nat with j by lia.
    rewrite Hj. reflexivity.
  - unfold betting_column, NEW_COL_SPREAD, NEW_COL_OU_RESULT. intros r c Hc.
    apply Hnone. lia.
Qed.

End WriteExcel.

Lemma write_excel_columns_witness :
  AddSpreads.cell_value (write_excel [game_marked]) 2 (AddSpreads.COL_HOME + 1) =
    Some (AddSpreads.VStr "Detroit Lions") /\
  AddSpreads.cell_value (write_excel [game_marked]) 2 (AddSpreads.COL_HOME_SCORE + 1) =
    Some (AddSpreads.VInt 23).
Proof.
  destruct (write_excel_columns [game_marked] 0 game_marked eq_refl)
    as (_ & _ & _ & Hh & _ & Hs & _).
  split; [exact Hh | exact Hs].
Defined.

(** ** Web-asset generator: reading a sheet *)

Section ReadFacts.

Import AddSpreads ReadExcel.

Variable float_str : Q -> string.
Variable float_of_str : string -> option Q.
Variable round1 : Q -> Q.

Abbreviation row_of := (read_row float_str float_of_str round1).
Abbreviation read := (read_excel float_str float_of_str round1).

Lemma read_snoc rows cells :
  read (rows ++ [cells]) =
  (games ← read rows;
   r ← row_of cells;
   Some match r with
        | Some game => (games ++ [game])%list
        | None => games
        end).
Proof. unfold read_excel. rewrite foldl_app. reflexivity. Qed.

Lemma none_to_empty_not_none (s : string) : none_to_empty s <> "None".
Proof.
  unfold none_to_empty. destruct (String.eqb_spec s "None"); [discriminate | assumption].
Qed.

Lemma text_key_some (s t : string) :
  text_key (none_to_empty s) = Some t -> t <> "" /\ t <> "None".
Proof.
  unfold text_key. destruct (PyStr.truthy (none_to_empty s)) eqn:Ht; [| discriminate].
  intros [= <-]. split; [apply truthy_nonempty, Ht | apply none_to_empty_not_none].
Qed.

(** The record of a row that is read. *)
Lemma read_row_record cells g :
  row_of cells = Some (Some g) ->
  GenerateData.h g <> "" /\ GenerateData.a g <> "" /\
  GenerateData.pt g <> "None" /\ GenerateData.tm g <> "None" /\
  (forall t, GenerateData.sr g = Some t -> t <> "" /\ t <> "None") /\
  (forall t, GenerateData.our g = Some t -> t <> "" /\ t <> "None").
Proof.
  unfold read_row. destruct (length cells <? 12)%nat; [discriminate |].
  destruct (cell_at cells 0) as [season |]; [| discriminate].
  destruct (PyStr.truthy (str_or_empty float_str (cell_at cells 5))) eqn:Hh;
    [| discriminate].
  destruct (PyStr.truthy (str_or_empty float_str (cell_at cells 6))) eqn:Ha;
    [| discriminate].
  cbn [negb orb]. cbv zeta.
  destruct (int_of_value season) as [s |]; [| discriminate].
  cbn [mbind option_bind]. intros [= <-]. cbn.
  apply truthy_nonempty in Hh, Ha.
  split; [exact Hh | split; [exact Ha |]].
  split; [apply none_to_empty_not_none | split; [apply none_to_empty_not_none |]].
  split; intros t; apply text_key_some.
Qed.

(** X27. The records [read_excel] returns: there are at most as many as
    rows; each has a home and an away team that are not empty; its time
    and its primetime slot are never the text [None]; and its keys [sr]
    and [our] are there only with a text that is neither empty nor
    [None]. *)
Theorem read_excel_records (rows : list (list (option value)))
    (games : list GenerateData.game) :
  read rows = Some games ->
  (length games <= length rows)%nat /\
  forall g, g ∈ games ->
    GenerateData.h g <> "" /\ GenerateData.a g <> "" /\
    GenerateData.pt g <> "None" /\ GenerateData.tm g <> "None" /\
    (forall t, GenerateData.sr g = Some t -> t <> "" /\ t <> "None") /\
    (forall t, GenerateData.our g = Some t -> t <> "" /\ t <> "None").
Proof.
  revert games. induction rows as [| cells rows IH] using rev_ind; intros games.
  - intros [= <-]. split; [simpl; lia |].
    intros g Hg. apply elem_of_nil in Hg. contradiction.
  - rewrite read_snoc. destruct (read rows) as [games0 |]; [| discriminate].
    cbn [mbind option_bind].
    destruct (row_of cells) as [r |] eqn:Hrow; [| discriminate].
    cbn [mbind option_bind]. intros [= <-].
    destruct (IH games0 eq_refl) as [Hlen Hall]. rewrite length_app. simpl length.
    destruct r as [g0 |].
    + split; [rewrite length_app; simpl; lia |].
      intros g Hg. apply elem_of_app in Hg as [Hg | Hg]; [apply Hall, Hg |].
      apply list_elem_of_singleton in Hg. subst g.
      apply (read_row_record cells g0 Hrow).
    + split; [lia | exact Hall].
Qed.

Lemma str_or_empty_text (c : option value) (s : string) :
  holds_text c s -> str_or_empty float_str c = s.
Proof.
  intros [-> | [-> ->]]; [| reflexivity].
  simpl. destruct s; reflexivity.
Qed.

(** X28. What the scraper writes the generator reads back: a row of
    twelve cells that hold the fields of a record of the scraper, the
    season and the scores as integers and the texts as strings or, when
    empty, as empty cells, is read as the record with the same season,
    week, day, date, teams and scores, and with the time and the
    primetime slot unless they are the text [None], without betting
    keys, provided both team names are not empty; with an empty team
    name the row is passed over. *)
Theorem read_row_of_scraped (g : game)
    (week day date time home away winner slot : option value) (diff : option value) :
  holds_text week (Week g) -> holds_text day (Day g) ->
  holds_text date (Date g) -> holds_text time (Time_ET g) ->
  holds_text home (Home_Team g) -> holds_text away (Away_Team g) ->
  holds_text slot (Primetime_Slot g) ->
  let cells := [Some (VInt (Season g)); week; day; date; time; home; away;
                Some (VInt (Home_Score g)); Some (VInt (Away_Score g));
                diff; winner; slot] in
  (Home_Team g <> "" -> Away_Team g <> "" ->
   row_of cells = Some (Some (web_record g))) /\
  (Home_Team g = "" \/ Away_Team g = "" -> row_of cells = Some None).
Proof.
  intros Hw Hd Hdt Ht Hh Ha Hs. cbv zeta.
  unfold read_row. cbn [length Nat.ltb Nat.leb cell_at lookup list_lookup mjoin option_join].
  cbv zeta.
  rewrite (str_or_empty_text _ _ Hw), (str_or_empty_text _ _ Hd),
    (str_or_empty_text _ _ Hdt), (str_or_empty_text _ _ Ht),
    (str_or_empty_text _ _ Hh), (str_or_empty_text _ _ Ha),
    (str_or_empty_text _ _ Hs).
  split.
  - intros Hhome Haway. apply truthy_nonempty in Hhome, Haway.
    rewrite Hhome, Haway. reflexivity.
  - intros [He | He]; rewrite He; [reflexivity |].
    destruct (PyStr.truthy (Home_Team g)); reflexivity.
Qed.

End ReadFacts.

Lemma read_row_of_scraped_witness :
  sample_read_row (row_cells (write_excel [game_marked]) 2) =
    Some (Some (web_record game_marked)).
Proof.
  apply (proj1 (read_row_of_scraped plain_float_str (fun _ => None) (fun q => q)
                  game_marked
                  (Some (AddSpreads.VStr "1")) (Some (AddSpreads.VStr "Sun"))
                  (Some (AddSpreads.VStr "2020-09-13"))
                  (Some (AddSpreads.VStr "1:00PM"))
                  (Some (AddSpreads.VStr "Detroit Lions"))
                  (Some (AddSpreads.VStr "Chicago Bears"))
                  (Some (AddSpreads.VStr "Chicago Bears"))
                  (Some (AddSpreads.VStr ""))
                  (Some (AddSpreads.VInt 4))
                  (or_introl eq_refl) (or_introl eq_refl) (or_introl eq_refl)
                  (or_introl eq_refl) (or_introl eq_refl) (or_introl eq_refl)
                  (or_introl eq_refl))); discriminate.
Defined.

Lemma read_excel_records_witness :
  GenerateData.h (web_record game_marked) <> "" /\
  GenerateData.pt (web_record game_marked) <> "None".
Proof.
  destruct (read_excel_records plain_float_str (fun _ => None) (fun q => q)
              [row_cells (write_excel [game_marked]) 2; []]
              [web_record game_marked] eq_refl) as [_ Hall].
  destruct (Hall (web_record game_marked)) as (Hh & _ & Hpt & _).
  - apply list_elem_of_singleton. reflexivity.
  - split; [exact Hh | exact Hpt].
Defined.
